(** * landstalker_gfx: the pixel compositing buffer and the isometric transform

    A shallow embedding of [ImageBuffer.cpp] and [BlockmapIsometric.cpp].
    Machine integers are integers of [Z] with their wrap-around written out,
    vectors of bytes are lists, iterators are a vector name and a position,
    and a method is a function from the state before the call to the outcome
    of the call, where [None] stands for undefined behaviour (an access
    through an iterator or an index outside its vector). *)

From Stdlib Require Import ZArith Lia String Ascii DecimalString.
From stdpp Require Import base option list.

Local Open Scope Z_scope.

(** ** Machine integers *)

Module Mach.

(** [size_t] is taken to be 64 bits wide, [int] 32 bits, [uint8_t] 8 bits. *)
Definition size_mod : Z := 2 ^ 64.
Definition int_mod : Z := 2 ^ 32.

Definition size_t (n : Z) : Z := n mod size_mod.
Definition u8 (n : Z) : Z := n mod 256.
Definition u32 (n : Z) : Z := n mod int_mod.

Definition add64 (a b : Z) : Z := size_t (a + b).
Definition sub64 (a b : Z) : Z := size_t (a - b).
Definition mul64 (a b : Z) : Z := size_t (a * b).

(** Conversion of a [size_t] to the signed [difference_type] of an iterator. *)
Definition ptrdiff (n : Z) : Z :=
  let m := size_t n in if m <? 2 ^ 63 then m else m - size_mod.

(** Conversion to [int] (two's complement). *)
Definition to_int (n : Z) : Z :=
  let m := n mod int_mod in if m <? 2 ^ 31 then m else m - int_mod.

Definition is_u8 (n : Z) : Prop := 0 <= n < 256.

End Mach.
Import Mach.

(** ** Collaborators

    [Tile.h], [Tileset.h], [BigTile.h], [Palette.h] and [Utils.h] belong to
    the application around the buffer; what the buffer uses of them is
    modelled below. *)

(** Modelled from the spec: [Tile], of which the buffer reads the priority
    attribute only ("carries an attribute set including a priority flag
    (low/high) and optionally horizontal/vertical flip"). *)
Record Tile : Type := mkTile {
  tile_index : Z;
  attr_priority : bool;
  attr_hflip : bool;
  attr_vflip : bool
}.

Inductive TileAttribute : Type := ATTR_PRIORITY | ATTR_HFLIP | ATTR_VFLIP.

Definition getAttribute (t : Tile) (a : TileAttribute) : bool :=
  match a with
  | ATTR_PRIORITY => attr_priority t
  | ATTR_HFLIP => attr_hflip t
  | ATTR_VFLIP => attr_vflip t
  end.

Definition bool_u8 (b : bool) : Z := if b then 1 else 0.

(** A byte used as a condition. *)
Definition nonzero (n : Z) : bool := negb (n =? 0).

(** Modelled from the spec: [Tileset], a read-only lookup from a tile to its
    bitmap, one byte per pixel, row-major ("getTile(tileRef) -> 64-byte
    row-major indexed bitmap"). The length is not fixed here: the loop of
    [InsertTile] runs over whatever [getTile] returns. *)
Record Tileset : Type := mkTileset { getTile : Tile -> list Z }.

(** Modelled from the spec: [BigTile], the four tiles of a block, numbered
    0 to 3. *)
Record BigTile : Type := mkBigTile { big_tiles : Z -> Tile }.

Definition block_getTile (b : BigTile) (n : Z) : Tile := big_tiles b n.

(** Modelled from the spec: [Palette], 16 entries read through the four
    accessors, each returning a [uint8_t]. *)
Record Palette : Type := mkPalette {
  getR : Z -> Z;
  getG : Z -> Z;
  getB : Z -> Z;
  getA : Z -> Z
}.

(** ** State *)

Record ImageBuffer : Type := mkImageBuffer {
  m_width : Z;
  m_height : Z;
  m_pixels : list Z;
  m_priority : list Z;
  m_rgb : list Z;
  m_alpha : list Z
}.

(** What [WritePNG] hands to the encoder: the header, the colour and
    transparency tables and the rows. *)
Record PngFile : Type := mkPngFile {
  png_width : Z;
  png_height : Z;
  png_palette : list (Z * Z * Z);
  png_alpha : list Z;
  png_rows : list (list Z)
}.

(** The program state: the buffer, what [Debug] has printed so far and the
    files written. *)
Record World : Type := mkWorld {
  buf : ImageBuffer;
  debug_log : list string;
  files : list (string * PngFile)
}.

(** A method: state in, result and state out; [None] is a call that does
    not return: undefined behaviour, or the end of the process in
    [abort()]. *)
Definition M (A : Type) : Type := World -> option (A * World).

Definition ret {A} (a : A) : M A := fun w => Some (a, w).

Definition bind {A B} (m : M A) (f : A -> M B) : M B :=
  fun w => match m w with
           | Some (a, w') => f a w'
           | None => None
           end.

Definition undefined {A} : M A := fun _ => None.

(** [abort()]: the process ends, the call does not return and there is no
    state to go on from. *)
Definition aborted {A} : M A := fun _ => None.

Definition get_buf : M ImageBuffer := fun w => Some (buf w, w).

Definition put_buf (b : ImageBuffer) : M unit :=
  fun w => Some (tt, {| buf := b; debug_log := debug_log w;
                        files := files w |}).

(** Modelled from the spec: [Debug], the logging channel ("reported through a
    logging channel"); a call appends its message. *)
Definition Debug (msg : string) : M unit :=
  fun w => Some (tt, {| buf := buf w; debug_log := debug_log w ++ [msg];
                        files := files w |}).

Definition write_file (name : string) (f : PngFile) : M unit :=
  fun w => Some (tt, {| buf := buf w; debug_log := debug_log w;
                        files := files w ++ [(name, f)] |}).

Declare Scope method_scope.
Delimit Scope method_scope with method.
Notation "x <- c1 ;; c2" := (bind c1 (fun x => c2))
  (at level 100, c1 at next level, c2 at level 200, right associativity)
  : method_scope.
Notation "c1 ;;; c2" := (bind c1 (fun _ => c2))
  (at level 100, c2 at level 200, right associativity) : method_scope.

(** ** Vectors and iterators *)

Inductive vec_name : Type := VPixels | VPriority.

(** An iterator: the vector it was taken from and its distance from
    [begin()]. *)
Record iterator : Type := mkIt { it_vec : vec_name; it_pos : Z }.

(** [it + n] for a [size_t] [n]. The model checks every access through an
    iterator ([vec_store], [it_store]); it does not check that an iterator
    stays within its vector while it is formed. *)
Definition it_add (it : iterator) (n : Z) : iterator :=
  {| it_vec := it_vec it; it_pos := it_pos it + ptrdiff n |}.

(** [it++]. *)
Definition it_incr (it : iterator) : iterator :=
  {| it_vec := it_vec it; it_pos := it_pos it + 1 |}.

(** [v[i] = x], defined inside the vector only. *)
Definition vec_store {A} (v : list A) (i : Z) (x : A) : option (list A) :=
  if (0 <=? i) && (i <? Z.of_nat (length v))
  then Some (<[Z.to_nat i := x]> v) else None.

(** [v[i]], defined inside the vector only. *)
Definition vec_load {A} (v : list A) (i : Z) : option A :=
  if 0 <=? i then v !! Z.to_nat i else None.

(** The two rasters, as the iterators of [InsertTile] see them. *)
Definition rasters : Type := (list Z * list Z)%type.

(** [*it = x]. *)
Definition it_store (it : iterator) (x : Z) (m : rasters) : option rasters :=
  match it_vec it with
  | VPixels => px ← vec_store (fst m) (it_pos it) x; Some (px, snd m)
  | VPriority => pr ← vec_store (snd m) (it_pos it) x; Some (fst m, pr)
  end.

(** [std::vector::assign(n, 0)]. *)
Definition assign (n : Z) : list Z := replicate (Z.to_nat n) 0.

(** [std::vector::resize(n)]: the old prefix is kept, new entries are 0. *)
Definition resize (v : list Z) (n : Z) : list Z :=
  take (Z.to_nat n) v ++ replicate (Z.to_nat n - length v)%nat 0.

(** ** ImageBuffer *)

Definition ImageBuffer_default : ImageBuffer :=
  {| m_width := 0; m_height := 0; m_pixels := []; m_priority := [];
     m_rgb := []; m_alpha := [] |}.

Definition ImageBuffer_new (width height : Z) : ImageBuffer :=
  {| m_width := width; m_height := height;
     m_pixels := assign (mul64 width height);
     m_priority := assign (mul64 width height);
     m_rgb := []; m_alpha := [] |}.

(** [std::fill(v.begin(), v.end(), 0)]. *)
Definition fill0 (v : list Z) : list Z := replicate (length v) 0.

Definition Clear : M unit :=
  (b <- get_buf ;;
   put_buf {| m_width := m_width b; m_height := m_height b;
              m_pixels := fill0 (m_pixels b);
              m_priority := fill0 (m_priority b);
              m_rgb := m_rgb b; m_alpha := m_alpha b |})%method.

Definition Resize (width height : Z) : M unit :=
  (b <- get_buf ;;
   put_buf {| m_width := width; m_height := height;
              m_pixels := assign (mul64 width height);
              m_priority := assign (mul64 width height);
              m_rgb := m_rgb b; m_alpha := m_alpha b |})%method.

(** Decimal output of a [size_t], as [operator<<] prints it. *)
Definition dec (n : Z) : string := NilZero.string_of_uint (N.to_uint (Z.to_N n)).

Definition endl : string := String (ascii_of_nat 10) EmptyString.

Definition tile_out_of_range_msg (x y width height : Z) : string :=
  ("Attempt to draw tile in out-of-range position " ++ dec x ++ ", " ++ dec y
   ++ " : The image buffer is only " ++ dec width ++ " x " ++ dec height
   ++ " pixels." ++ endl)%string.

(** The loop of [InsertTile]; [tile_bits] is what is left of the bitmap from
    index [i] on. *)
Fixpoint InsertTile_loop (tile_bits : list Z) (i : Z)
    (width pal_bits priority : Z) (row_it pri_row_it : iterator)
    (dest_it pri_dest_it : iterator) (m : rasters) : option rasters :=
  match tile_bits with
  | [] => Some m
  | t :: rest =>
    let dest_it :=
      if i mod 8 =? 0 then it_add row_it (mul64 width (i / 8)) else dest_it in
    let pri_dest_it :=
      if i mod 8 =? 0 then it_add pri_row_it (mul64 width (i / 8))
      else pri_dest_it in
    m' ← (if t =? 0 then Some m
          else m1 ← it_store dest_it (u8 (Z.lor t pal_bits)) m;
               it_store pri_dest_it priority m1);
    InsertTile_loop rest (i + 1) width pal_bits priority row_it pri_row_it
      (it_incr dest_it) (it_incr pri_dest_it) m'
  end.

Definition vec_begin (v : vec_name) : iterator := {| it_vec := v; it_pos := 0 |}.

Definition set_rasters (b : ImageBuffer) (m : rasters) : ImageBuffer :=
  {| m_width := m_width b; m_height := m_height b;
     m_pixels := fst m; m_priority := snd m;
     m_rgb := m_rgb b; m_alpha := m_alpha b |}.

Definition InsertTile (x y palette_index : Z) (tile : Tile) (tileset : Tileset)
  : M unit :=
  (b <- get_buf ;;
   let max_x := add64 x 7 in
   let max_y := add64 y 7 in
   if (m_width b <=? max_x) || (m_height b <=? max_y) then
     Debug (tile_out_of_range_msg x y (m_width b) (m_height b))
   else
     let tile_bits := getTile tileset tile in
     let pal_bits := u8 (Z.shiftl palette_index 4) in
     let begin_offset := add64 (mul64 y (m_width b)) x in
     let row_it := it_add (vec_begin VPixels) begin_offset in
     let dest_it := row_it in
     let pri_row_it := it_add (vec_begin VPriority) begin_offset in
     let pri_dest_it := row_it in
     let priority := bool_u8 (getAttribute tile ATTR_PRIORITY) in
     match InsertTile_loop tile_bits 0 (m_width b) pal_bits priority
             row_it pri_row_it dest_it pri_dest_it
             (m_pixels b, m_priority b) with
     | Some m => put_buf (set_rasters b m)
     | None => undefined
     end)%method.

Definition InsertBlock (x y palette_index : Z) (block : BigTile)
    (tileset : Tileset) : M unit :=
  (b <- get_buf ;;
   if add64 (add64 (mul64 (add64 y 7) (m_width b)) x) 7
      <? Z.of_nat (length (m_pixels b))
   then
     InsertTile x y palette_index (block_getTile block 0) tileset ;;;
     InsertTile (add64 x 8) y palette_index (block_getTile block 1) tileset ;;;
     InsertTile x (add64 y 8) palette_index (block_getTile block 2) tileset ;;;
     InsertTile (add64 x 8) (add64 y 8) palette_index (block_getTile block 3)
       tileset
   else
     Debug "Coordinates out of range")%method.

(** The four calls that [InsertBlock] is said to stand for. *)
Definition four_InsertTile (x y palette_index : Z) (block : BigTile)
    (tileset : Tileset) : M unit :=
  (InsertTile x y palette_index (block_getTile block 0) tileset ;;;
   InsertTile (add64 x 8) y palette_index (block_getTile block 1) tileset ;;;
   InsertTile x (add64 y 8) palette_index (block_getTile block 2) tileset ;;;
   InsertTile (add64 x 8) (add64 y 8) palette_index (block_getTile block 3)
     tileset)%method.

(** The loop of [GetRGB]: [it] walks [m_rgb], three stores per pixel. *)
Fixpoint GetRGB_loop (pixels : list Z) (pals : list Palette) (it : Z)
    (rgb : list Z) : option (list Z) :=
  match pixels with
  | [] => Some rgb
  | pixel :: rest =>
    pr ← vec_load pals (Z.shiftr pixel 4);
    rgb1 ← vec_store rgb it (getR pr (Z.land pixel 15));
    pg ← vec_load pals (Z.shiftr pixel 4);
    rgb2 ← vec_store rgb1 (it + 1) (getG pg (Z.land pixel 15));
    pb ← vec_load pals (Z.shiftr pixel 4);
    rgb3 ← vec_store rgb2 (it + 2) (getB pb (Z.land pixel 15));
    GetRGB_loop rest pals (it + 3) rgb3
  end.

Definition GetRGB (pals : list Palette) : M (list Z) :=
  (b <- get_buf ;;
   let rgb0 := resize (m_rgb b) (mul64 (mul64 (m_width b) (m_height b)) 3) in
   match GetRGB_loop (m_pixels b) pals 0 rgb0 with
   | Some rgb =>
     put_buf {| m_width := m_width b; m_height := m_height b;
                m_pixels := m_pixels b; m_priority := m_priority b;
                m_rgb := rgb; m_alpha := m_alpha b |} ;;;
     ret rgb
   | None => undefined
   end)%method.

(** The loop of [GetAlpha]: [pri] walks [m_priority], [it] walks [m_alpha]. *)
Fixpoint GetAlpha_loop (pixels : list Z) (pals : list Palette)
    (low_pri_max_opacity high_pri_max_opacity : Z) (priority : list Z)
    (pri it : Z) (alpha_v : list Z) : option (list Z) :=
  match pixels with
  | [] => Some alpha_v
  | pixel :: rest =>
    pal ← vec_load pals (Z.shiftr pixel 4);
    let alpha := getA pal (Z.land pixel 15) in
    p ← vec_load priority pri;
    let max_opacity :=
      if nonzero p then high_pri_max_opacity else low_pri_max_opacity in
    alpha_v' ← vec_store alpha_v it (Z.min max_opacity alpha);
    GetAlpha_loop rest pals low_pri_max_opacity high_pri_max_opacity priority
      (pri + 1) (it + 1) alpha_v'
  end.

Definition GetAlpha (pals : list Palette)
    (low_pri_max_opacity high_pri_max_opacity : Z) : M (list Z) :=
  (b <- get_buf ;;
   let alpha0 := resize (m_alpha b) (mul64 (m_width b) (m_height b)) in
   match GetAlpha_loop (m_pixels b) pals low_pri_max_opacity
           high_pri_max_opacity (m_priority b) 0 0 alpha0 with
   | Some alpha_v =>
     put_buf {| m_width := m_width b; m_height := m_height b;
                m_pixels := m_pixels b; m_priority := m_priority b;
                m_rgb := m_rgb b; m_alpha := alpha_v |} ;;;
     ret alpha_v
   | None => undefined
   end)%method.

(** [WritePNG]: the inner loop over the 16 entries of one palette. *)
Fixpoint WritePNG_entries (n : nat) (i : Z) (pal : Palette) (entry : Z)
    (tbl : list (Z * Z * Z) * list Z) : option (list (Z * Z * Z) * list Z) :=
  match n with
  | O => Some tbl
  | S n' =>
    colours ← vec_store (fst tbl) (add64 entry i) (getR pal i, getG pal i, getB pal i);
    alphas ← vec_store (snd tbl) (add64 entry i) (getA pal i);
    WritePNG_entries n' (i + 1) pal entry (colours, alphas)
  end.

Fixpoint WritePNG_tables (palettes : list Palette) (entry : Z)
    (tbl : list (Z * Z * Z) * list Z) : option (list (Z * Z * Z) * list Z) :=
  match palettes with
  | [] => Some tbl
  | pal :: rest =>
    tbl' ← WritePNG_entries 16 0 pal entry tbl;
    WritePNG_tables rest (add64 entry 16) tbl'
  end.

(** The row loop: [png_write_row] reads the bytes of one row of the
    header, [rowbytes], at [row], and [row] moves on by [width]. *)
Fixpoint WritePNG_rows (n : nat) (row : Z) (width rowbytes : Z)
    (pixels : list Z) : option (list (list Z)) :=
  match n with
  | O => Some []
  | S n' =>
    if (0 <=? row) && (row + rowbytes <=? Z.of_nat (length pixels)) then
      rows ← WritePNG_rows n' (row + width) width rowbytes pixels;
      Some (take (Z.to_nat rowbytes) (drop (Z.to_nat row) pixels) :: rows)
    else None
  end.

(** The encoder library is not part of the repository: how it takes the
    calls of [WritePNG] is an input of the model. An error of the library
    is a [longjmp] to the [setjmp] at the head of [WritePNG], whose branch
    calls [abort()]. The library can refuse the header in [png_set_IHDR],
    which comes before the palette loop and before [fopen] (it does so for
    a width or a height of 0, and for dimensions beyond its limits), and
    it can fail while it writes to the open file. [png_set_IHDR] takes
    the dimensions as 32-bit numbers. *)
Inductive libpng_run : Type :=
| PngNoError
| PngHeaderError
| PngWriteError.

(** [fopen_ok] says whether [fopen] succeeds, [lib] what the encoder
    library does. Without an open file nothing is written, so that a write
    error cannot occur there. *)
Definition WritePNG (lib : libpng_run) (fopen_ok : bool) (filename : string)
    (palettes : list Palette) : M bool :=
  (b <- get_buf ;;
   match lib with
   | PngHeaderError => aborted
   | _ =>
     match WritePNG_tables palettes 0
             (replicate 256 (0, 0, 0), replicate 256 0) with
     | None => undefined
     | Some tbl =>
       if fopen_ok then
         match lib with
         | PngNoError =>
           match WritePNG_rows (Z.to_nat (m_height b)) 0 (m_width b)
                   (u32 (m_width b)) (m_pixels b) with
           | None => undefined
           | Some rows =>
             write_file filename
               {| png_width := u32 (m_width b);
                  png_height := u32 (m_height b);
                  png_palette := fst tbl; png_alpha := snd tbl;
                  png_rows := rows |} ;;;
             ret true
           end
         | _ => aborted
         end
       else
         Debug "Unable to open PNG!" ;;; ret false
     end
   end)%method.

(** Modelled from the spec: the bitmap of the toolkit, as the data it is
    built from ("the core only supplies raw RGB and alpha byte sequences"):
    the [int] dimensions, the bytes at [m_rgb.data()] and, when asked for,
    the bytes at [m_alpha.data()]. *)
Record wxBitmap : Type := mkBitmap {
  bmp_width : Z;
  bmp_height : Z;
  bmp_rgb : list Z;
  bmp_alpha : option (list Z)
}.

Definition MakeBitmap (pals : list Palette) (use_alpha : bool)
    (low_pri_max_opacity high_pri_max_opacity : Z) : M wxBitmap :=
  (_ <- GetRGB pals ;;
   b <- get_buf ;;
   if use_alpha then
     _ <- GetAlpha pals low_pri_max_opacity high_pri_max_opacity ;;
     b' <- get_buf ;;
     ret {| bmp_width := to_int (m_width b'); bmp_height := to_int (m_height b');
            bmp_rgb := m_rgb b'; bmp_alpha := Some (m_alpha b') |}
   else
     ret {| bmp_width := to_int (m_width b); bmp_height := to_int (m_height b);
            bmp_rgb := m_rgb b; bmp_alpha := None |})%method.

Definition GetHeight (b : ImageBuffer) : Z := m_height b.
Definition GetWidth (b : ImageBuffer) : Z := m_width b.

(** ** BlockmapIsometric *)

(** Modelled from the spec: the base class [Blockmap2D] ("pixel-space origin
    (left, top) ... and grid height"), with the [size_t] members that the
    constructor of [BlockmapIsometric] passes on. *)
Record Blockmap2D : Type := mkBlockmap2D {
  bm_width : Z;
  bm_height : Z;
  bm_left : Z;
  bm_top : Z;
  bm_palette : Z
}.

Definition BlockmapIsometric_new (width height left top palette : Z)
  : Blockmap2D :=
  {| bm_width := width; bm_height := height; bm_left := left; bm_top := top;
     bm_palette := palette |}.

(** Modelled from the spec: the logical tile coordinates, whose fields are
    [size_t] (the casts of [XYToTilePoint]), and the pixel point of the
    toolkit, whose fields are [int]. *)
Record TilePoint : Type := mkTilePoint { tp_x : Z; tp_y : Z }.
Record TilePoint3D : Type := mkTilePoint3D { tp3_x : Z; tp3_y : Z; tp3_z : Z }.
Record wxPoint : Type := mkPoint { pt_x : Z; pt_y : Z }.

Section Isometric.

(** The tile dimensions are constants of [Blockmap2D.h]. *)
Variables TILEWIDTH TILEHEIGHT : Z.

(** [int] addition and subtraction, wrapping as the hardware does. *)
Definition int_add (a b : Z) : Z := to_int (a + b).
Definition int_sub (a b : Z) : Z := to_int (a - b).

Definition XYToTilePoint (bm : Blockmap2D) (point : wxPoint) : TilePoint :=
  let xgrid := to_int (sub64 (pt_x point) (bm_left bm) / TILEWIDTH) in
  let ygrid := to_int (mul64 2 (sub64 (pt_y point) (bm_top bm)) / TILEHEIGHT) in
  {| tp_x := size_t (add64 (sub64 (int_add ygrid xgrid) (bm_height bm)) 1 / 2);
     tp_y := size_t (sub64 (add64 (int_sub ygrid xgrid) (bm_height bm)) 1 / 2) |}.

Definition ToXYPoint (bm : Blockmap2D) (point : TilePoint) : wxPoint :=
  let ix := to_int (add64 (mul64 (add64 (sub64 (tp_x point) (tp_y point))
                                        (sub64 (bm_height bm) 1)) TILEWIDTH)
                          (bm_left bm)) in
  let iy := to_int (add64 (mul64 (add64 (tp_x point) (tp_y point)) TILEHEIGHT / 2)
                          (bm_top bm)) in
  {| pt_x := ix; pt_y := iy |}.

Definition ToXYPoint3D (bm : Blockmap2D) (point : TilePoint3D) : wxPoint :=
  let ix := to_int (add64 (mul64 (add64 (sub64 (tp3_x point) (tp3_y point))
                                        (sub64 (bm_height bm) 1)) TILEWIDTH)
                          (bm_left bm)) in
  let iy := to_int (add64 (mul64 (sub64 (add64 (tp3_x point) (tp3_y point))
                                        (mul64 (tp3_z point) 2)) TILEHEIGHT / 2)
                          (bm_top bm)) in
  {| pt_x := ix; pt_y := iy |}.

Definition GetBitmapWidth (bm : Blockmap2D) : Z :=
  mul64 (add64 (bm_width bm) (bm_height bm)) TILEWIDTH.

Definition GetBitmapHeight (bm : Blockmap2D) : Z :=
  mul64 (add64 (add64 (bm_width bm) (bm_height bm)) 1) TILEHEIGHT / 2.

End Isometric.

(** ** Sequences of calls *)

Inductive op : Type :=
| OpClear
| OpResize (width height : Z)
| OpInsertTile (x y palette_index : Z) (tile : Tile) (tileset : Tileset)
| OpInsertBlock (x y palette_index : Z) (block : BigTile) (tileset : Tileset)
| OpGetRGB (pals : list Palette)
| OpGetAlpha (pals : list Palette) (low_pri_max_opacity high_pri_max_opacity : Z)
| OpWritePNG (lib : libpng_run) (fopen_ok : bool) (filename : string)
    (palettes : list Palette).

Definition run_op (o : op) : M unit :=
  match o with
  | OpClear => Clear
  | OpResize width height => Resize width height
  | OpInsertTile x y p tile tileset => InsertTile x y p tile tileset
  | OpInsertBlock x y p block tileset => InsertBlock x y p block tileset
  | OpGetRGB pals => (_ <- GetRGB pals ;; ret tt)%method
  | OpGetAlpha pals lo hi => (_ <- GetAlpha pals lo hi ;; ret tt)%method
  | OpWritePNG lib ok name pals =>
    (_ <- WritePNG lib ok name pals ;; ret tt)%method
  end.

Fixpoint run_ops (os : list op) : M unit :=
  match os with
  | [] => ret tt
  | o :: rest => (run_op o ;;; run_ops rest)%method
  end.

(** A buffer as a constructor leaves it, or as [Clear] leaves it. *)
Inductive fresh : ImageBuffer -> Prop :=
| fresh_default : fresh ImageBuffer_default
| fresh_new width height : fresh (ImageBuffer_new width height)
| fresh_cleared w w' : Clear w = Some (tt, w') -> fresh (buf w').

Inductive constructed : ImageBuffer -> Prop :=
| constructed_default : constructed ImageBuffer_default
| constructed_new width height : constructed (ImageBuffer_new width height).

(** ** Predicates of the statements *)

(** Both rasters have one size, the product the code computes. *)
Definition raster_sizes_ok (b : ImageBuffer) : Prop :=
  length (m_priority b) = length (m_pixels b) /\
  Z.of_nat (length (m_pixels b)) = mul64 (m_width b) (m_height b).

(** The second buffer has the dimensions and the raster sizes of the first. *)
Definition same_shape (b b' : ImageBuffer) : Prop :=
  m_width b' = m_width b /\ m_height b' = m_height b /\
  length (m_pixels b') = length (m_pixels b) /\
  length (m_priority b') = length (m_priority b).

(** A buffer of [m_width] by [m_height] pixels whose rasters are that large;
    the bound is the largest size a vector can have. *)
Definition buffer_wf (b : ImageBuffer) : Prop :=
  0 <= m_width b /\ 0 <= m_height b /\ m_width b * m_height b < 2 ^ 63 /\
  Z.of_nat (length (m_pixels b)) = m_width b * m_height b /\
  Z.of_nat (length (m_priority b)) = m_width b * m_height b.

(** The position in the rasters of the pixel in column [x], row [y]. *)
Definition pixel_index (b : ImageBuffer) (x y : Z) : nat :=
  Z.to_nat (y * m_width b + x).

(** Every pixel names a palette that the list holds. *)
Definition palette_rows_covered (pals : list Palette) (pixels : list Z) : Prop :=
  Forall (fun pixel => 0 <= Z.shiftr pixel 4 < Z.of_nat (length pals)) pixels.

(** The bitmaps an operation draws from hold 4-bit values only, and the
    operation is one of [Clear], [Resize], [InsertTile], [InsertBlock]. *)
Definition four_bit (bits : list Z) : Prop := Forall (fun v => 0 <= v <= 15) bits.

Definition draws_four_bit (o : op) : Prop :=
  match o with
  | OpClear | OpResize _ _ => True
  | OpInsertTile _ _ _ tile tileset => four_bit (getTile tileset tile)
  | OpInsertBlock _ _ _ block tileset =>
    forall n, 0 <= n <= 3 -> four_bit (getTile tileset (block_getTile block n))
  | _ => False
  end.

(** A position holds either nothing drawn (pixel 0, low priority) or a pixel
    with a nonzero low nibble. *)
Definition zero_means_low_priority (b : ImageBuffer) : Prop :=
  forall (pos : nat) pixel pri,
    m_pixels b !! pos = Some pixel -> m_priority b !! pos = Some pri ->
    (pixel = 0 /\ pri = 0) \/ Z.land pixel 15 <> 0.


(** The screen footprint of a tile: the box of a tile's width and height
    whose top-left corner is the projected point. *)
Definition in_footprint (TILEWIDTH TILEHEIGHT : Z) (origin p : wxPoint) : Prop :=
  pt_x origin <= pt_x p < pt_x origin + TILEWIDTH /\
  pt_y origin <= pt_y p < pt_y origin + TILEHEIGHT.

(** The box of the tile and the sums of grid numbers that the inverse forms
    are in the range of [int]. *)
Definition projection_fits_int (TILEWIDTH TILEHEIGHT : Z) (bm : Blockmap2D)
    (t : TilePoint) : Prop :=
  (tp_x t - tp_y t + bm_height bm) * TILEWIDTH + bm_left bm <= 2 ^ 31 /\
  (tp_x t + tp_y t + 2) * TILEHEIGHT / 2 + bm_top bm <= 2 ^ 31 /\
  2 * tp_x t + bm_height bm < 2 ^ 31 /\
  2 * tp_y t + 1 < 2 ^ 31.

(** The writes of [InsertTile], with the iterators resolved to positions:
    source pixel [i] goes to [blit_pos begin_offset width i] in both
    rasters. *)
Definition blit_pos (begin_offset width i : Z) : Z :=
  ptrdiff begin_offset + ptrdiff (mul64 width (i / 8)) + i mod 8.

Fixpoint blit (tile_bits : list Z) (i : Z) (begin_offset width pal_bits priority : Z)
    (m : rasters) : option rasters :=
  match tile_bits with
  | [] => Some m
  | t :: rest =>
    m' ← (if t =? 0 then Some m
          else px ← vec_store (fst m) (blit_pos begin_offset width i)
                     (u8 (Z.lor t pal_bits));
               pr ← vec_store (snd m) (blit_pos begin_offset width i) priority;
               Some (px, pr));
    blit rest (i + 1) begin_offset width pal_bits priority m'
  end.

(** The two rasters a call leaves behind, if it returns. *)
Definition final_rasters {A} (o : option (A * World)) : option rasters :=
  match o with
  | Some (_, w) => Some (m_pixels (buf w), m_priority (buf w))
  | None => None
  end.

(** The index that the guard of [InsertBlock] compares with the size of the
    pixel raster. *)
Definition block_guard_index (b : ImageBuffer) (x y : Z) : Z :=
  add64 (add64 (mul64 (add64 y 7) (m_width b)) x) 7.

(** The raw source value that a tile drawn at ([x], [y]) sends to column
    [c], row [r] of the buffer: 0 outside the 8 by 8 footprint. *)
Definition source_raw (tile_bits : list Z) (x y c r : Z) : Z :=
  if (x <=? c) && (c <? x + 8) && (y <=? r) && (r <? y + 8)
  then nth (Z.to_nat ((r - y) * 8 + (c - x))) tile_bits 0 else 0.

(** The byte [InsertTile] stores for a raw value. *)
Definition stored_pixel (palette_index raw : Z) : Z :=
  u8 (Z.lor raw (u8 (Z.shiftl palette_index 4))).

(** The tile of a block that covers column [c], row [r], for a block drawn
    at ([x], [y]). *)
Definition block_quadrant (x y c r : Z) : option Z :=
  if (x <=? c) && (c <? x + 16) && (y <=? r) && (r <? y + 16)
  then Some ((c - x) / 8 + 2 * ((r - y) / 8)) else None.

(** A call of [InsertTile] with a 64-byte bitmap whose footprint is inside
    the buffer. *)
Definition tile_inside (b : ImageBuffer) (o : op) : Prop :=
  match o with
  | OpInsertTile x y _ tile tileset =>
    0 <= x /\ 0 <= y /\ x + 7 < m_width b /\ y + 7 < m_height b /\
    length (getTile tileset tile) = 64%nat
  | _ => False
  end.

(** The pixel and the priority stored at column [c], row [r] by the last of
    the tiles whose source value there is not 0; [under] if there is none. *)
Fixpoint top_layer (ops : list op) (c r : Z) (under : option (Z * Z))
  : option (Z * Z) :=
  match ops with
  | [] => under
  | OpInsertTile x y p tile tileset :: rest =>
    let raw := source_raw (getTile tileset tile) x y c r in
    top_layer rest c r
      (if raw =? 0 then under
       else Some (stored_pixel p raw, bool_u8 (getAttribute tile ATTR_PRIORITY)))
  | _ :: rest => top_layer rest c r under
  end.

(** The bytes at a column and row of the rasters ([px], [pr]) are those of a
    layer, or those of the buffer [b] when there is no layer. *)
Definition shows_layer (b : ImageBuffer) (px pr : list Z) (c r : Z)
    (layer : option (Z * Z)) : Prop :=
  match layer with
  | Some (pixel, pri) =>
    px !! pixel_index b c r = Some pixel /\ pr !! pixel_index b c r = Some pri
  | None =>
    px !! pixel_index b c r = m_pixels b !! pixel_index b c r /\
    pr !! pixel_index b c r = m_priority b !! pixel_index b c r
  end.

(** What a block drawn at ([x], [y]) puts on column [c], row [r]: the
    layer of the tile that covers the pixel, if its source value there is
    not 0. Tile [n] has its corner at ([x + 8 * (n mod 2)],
    [y + 8 * (n / 2)]). *)
Definition block_layer (x y palette_index : Z) (block : BigTile)
    (tileset : Tileset) (c r : Z) : option (Z * Z) :=
  match block_quadrant x y c r with
  | None => None
  | Some n =>
    let tile := block_getTile block n in
    let raw := source_raw (getTile tileset tile)
                 (x + 8 * (n mod 2)) (y + 8 * (n / 2)) c r in
    if raw =? 0 then None
    else Some (stored_pixel palette_index raw,
               bool_u8 (getAttribute tile ATTR_PRIORITY))
  end.

(** A call that the drawing operations accept without wrap-around: the
    coordinates leave room for the sums of the checks, the bitmaps are 64
    bytes long, the new dimensions are those of a vector that can exist. *)
Definition op_in_range (o : op) : Prop :=
  match o with
  | OpClear => True
  | OpResize width height =>
    0 <= width /\ 0 <= height /\ width * height < 2 ^ 63
  | OpInsertTile x y _ tile tileset =>
    0 <= x /\ 0 <= y /\ x + 7 < 2 ^ 64 /\ y + 7 < 2 ^ 64 /\
    length (getTile tileset tile) = 64%nat
  | OpInsertBlock x y _ block tileset =>
    0 <= x /\ 0 <= y /\ x + 15 < 2 ^ 64 /\ y + 15 < 2 ^ 64 /\
    forall n, 0 <= n <= 3 ->
      length (getTile tileset (block_getTile block n)) = 64%nat
  | _ => False
  end.

(** The three bytes [GetRGB] writes for a pixel. *)
Definition pixel_rgb (pals : list Palette) (pixel : Z) : list Z :=
  match pals !! Z.to_nat (Z.shiftr pixel 4) with
  | Some pal => [getR pal (Z.land pixel 15); getG pal (Z.land pixel 15);
                 getB pal (Z.land pixel 15)]
  | None => []
  end.

Definition rgb_bytes (pals : list Palette) (pixels : list Z) : list Z :=
  flat_map (pixel_rgb pals) pixels.

(** The entries of the colour and transparency tables that [WritePNG]
    builds from a palette list. *)
Definition palette_colours (pal : Palette) : list (Z * Z * Z) :=
  map (fun i => (getR pal i, getG pal i, getB pal i)) (seqZ 0 16).

Definition palette_alphas (pal : Palette) : list Z :=
  map (getA pal) (seqZ 0 16).

(** A call of [InsertTile] whose palette row, the four bits that
    [palette_index << 4] keeps in a byte, is one of [n] palettes, with a
    bitmap of 4-bit values. *)
Definition tile_palette_below (n : nat) (o : op) : Prop :=
  match o with
  | OpInsertTile _ _ palette_index tile tileset =>
    palette_index mod 16 < Z.of_nat n /\ four_bit (getTile tileset tile)
  | _ => False
  end.

(** ** Concrete data for the examples *)

Definition solid_tileset : Tileset := {| getTile := fun _ => replicate 64 1 |}.

(** A bitmap with a transparent first row and colour 3 below it. *)
Definition window_tileset : Tileset :=
  {| getTile := fun _ => replicate 8 0 ++ replicate 56 3 |}.

Definition high_tile : Tile :=
  {| tile_index := 0; attr_priority := true; attr_hflip := false;
     attr_vflip := false |}.

Definition solid_block : BigTile := {| big_tiles := fun _ => high_tile |}.

Definition grey_palette : Palette :=
  {| getR := fun i => 16 * i; getG := fun i => 16 * i; getB := fun i => 16 * i;
     getA := fun _ => 255 |}.

Definition new_world (width height : Z) : World :=
  {| buf := ImageBuffer_new width height; debug_log := []; files := [] |}.

Definition final_world {A} (o : option (A * World)) (default : World) : World :=
  match o with Some (_, w) => w | None => default end.

(** An 8 by 8 buffer with one tile drawn with palette row 2. *)
Definition drawn_world : World :=
  final_world (InsertTile 0 0 2 high_tile solid_tileset (new_world 8 8))
    (new_world 8 8).

(** ** Machine integers: the cases without wrap-around *)

Lemma size_t_small n : 0 <= n < 2 ^ 64 -> size_t n = n.
Proof. intros H. unfold size_t, size_mod. apply Z.mod_small. exact H. Qed.

Lemma size_t_range n : 0 <= size_t n < 2 ^ 64.
Proof. unfold size_t, size_mod. apply Z.mod_pos_bound. lia. Qed.

Lemma add64_small a b : 0 <= a + b < 2 ^ 64 -> add64 a b = a + b.
Proof. apply size_t_small. Qed.

Lemma mul64_small a b : 0 <= a * b < 2 ^ 64 -> mul64 a b = a * b.
Proof. apply size_t_small. Qed.

Lemma ptrdiff_small n : 0 <= n < 2 ^ 63 -> ptrdiff n = n.
Proof.
  intros H. unfold ptrdiff. rewrite size_t_small by lia.
  destruct (Z.ltb_spec n (2 ^ 63)); lia.
Qed.

Lemma to_int_small n : - 2 ^ 31 <= n < 2 ^ 31 -> to_int n = n.
Proof.
  intros H. unfold to_int, int_mod.
  destruct (Z.ltb_spec (n mod 2 ^ 32) (2 ^ 31)) as [Hlt | Hge].
  - destruct (Z.le_gt_cases 0 n) as [Hn | Hn].
    + apply Z.mod_small. lia.
    + exfalso. replace n with (n + 2 ^ 32 - 1 * 2 ^ 32) in Hlt by lia.
      rewrite Zminus_mod, Z_mod_mult, Z.sub_0_r, Z.mod_mod in Hlt by lia.
      rewrite Z.mod_small in Hlt; lia.
  - destruct (Z.le_gt_cases 0 n) as [Hn | Hn].
    + rewrite Z.mod_small in Hge; lia.
    + replace n with (n + 2 ^ 32 - 1 * 2 ^ 32) at 1 by lia.
      rewrite Zminus_mod, Z_mod_mult, Z.sub_0_r, Z.mod_mod by lia.
      rewrite Z.mod_small; lia.
Qed.

(** ** The loop of [InsertTile] and its writes *)

Lemma blit_pos_next bo width i :
  0 <= i -> (i + 1) mod 8 <> 0 ->
  blit_pos bo width (i + 1) = blit_pos bo width i + 1.
Proof.
  intros Hi Hne. unfold blit_pos.
  assert ((i + 1) / 8 = i / 8 /\ (i + 1) mod 8 = i mod 8 + 1) as [-> ->]
    by (Z.to_euclidean_division_equations; lia).
  lia.
Qed.

Lemma it_store_both pos v prio (m : rasters) :
  (m1 ← it_store (mkIt VPixels pos) v m; it_store (mkIt VPriority pos) prio m1)
  = (px ← vec_store (fst m) pos v; pr ← vec_store (snd m) pos prio; Some (px, pr)).
Proof.
  unfold it_store; simpl.
  destruct (vec_store (fst m) pos v); simpl; [| reflexivity].
  destruct (vec_store (snd m) pos prio); reflexivity.
Qed.

(** The iterators of the loop point at [blit_pos] of their vectors: the
    first value of [pri_dest_it], taken from the pixel vector, is replaced
    before it is used. *)
Lemma InsertTile_loop_blit tile_bits :
  forall i bo width pal prio d pd m,
    0 <= i ->
    (i mod 8 <> 0 ->
     d = mkIt VPixels (blit_pos bo width i) /\
     pd = mkIt VPriority (blit_pos bo width i)) ->
    InsertTile_loop tile_bits i width pal prio
      (it_add (vec_begin VPixels) bo) (it_add (vec_begin VPriority) bo) d pd m
    = blit tile_bits i bo width pal prio m.
Proof.
  induction tile_bits as [| t rest IH]; intros i bo width pal prio d pd m Hi Hsync.
  - reflexivity.
  - cbn [InsertTile_loop blit].
    set (d' := if i mod 8 =? 0 then _ else d).
    set (pd' := if i mod 8 =? 0 then _ else pd).
    assert (d' = mkIt VPixels (blit_pos bo width i) /\
            pd' = mkIt VPriority (blit_pos bo width i)) as [Hd Hpd].
    { subst d' pd'. destruct (Z.eqb_spec (i mod 8) 0) as [Hz | Hnz].
      - unfold blit_pos, it_add, vec_begin; cbn. rewrite Hz.
        split; f_equal; lia.
      - apply Hsync, Hnz. }
    rewrite Hd, Hpd.
    assert (Hnext : forall m',
      InsertTile_loop rest (i + 1) width pal prio
        (it_add (vec_begin VPixels) bo) (it_add (vec_begin VPriority) bo)
        (it_incr (mkIt VPixels (blit_pos bo width i)))
        (it_incr (mkIt VPriority (blit_pos bo width i))) m'
      = blit rest (i + 1) bo width pal prio m').
    { intros m'. apply IH; [lia |]. intros Hne.
      rewrite blit_pos_next by assumption. split; reflexivity. }
    destruct (t =? 0).
    + cbn. apply Hnext.
    + rewrite it_store_both.
      destruct (vec_store (fst m) _ _); cbn; [| reflexivity].
      destruct (vec_store (snd m) _ _); cbn; [| reflexivity].
      apply Hnext.
Qed.

Lemma vec_store_Some {A} (v v' : list A) i x :
  vec_store v i x = Some v' ->
  0 <= i < Z.of_nat (length v) /\ v' = <[Z.to_nat i := x]> v.
Proof.
  unfold vec_store. intros H.
  destruct (Z.leb_spec 0 i), (Z.ltb_spec i (Z.of_nat (length v)));
    cbn in H; try discriminate.
  injection H as <-. split; [lia | reflexivity].
Qed.

Lemma vec_store_in_range {A} (v : list A) i x :
  0 <= i < Z.of_nat (length v) ->
  vec_store v i x = Some (<[Z.to_nat i := x]> v).
Proof.
  intros H. unfold vec_store.
  destruct (Z.leb_spec 0 i), (Z.ltb_spec i (Z.of_nat (length v)));
    try lia; reflexivity.
Qed.

Section Blit.

Variables bo width pal prio : Z.

Local Abbreviation pos_of := (blit_pos bo width).

(** One turn of the loop, as a relation between the rasters before and
    after it. *)
Lemma blit_cons t rest i m m' :
  blit (t :: rest) i bo width pal prio m = Some m' ->
  exists m1,
    blit rest (i + 1) bo width pal prio m1 = Some m' /\
    ((t = 0 /\ m1 = m) \/
     (t <> 0 /\ 0 <= pos_of i < Z.of_nat (length (fst m)) /\
      0 <= pos_of i < Z.of_nat (length (snd m)) /\
      m1 = (<[Z.to_nat (pos_of i) := u8 (Z.lor t pal)]> (fst m),
            <[Z.to_nat (pos_of i) := prio]> (snd m)))).
Proof.
  cbn [blit]. destruct (Z.eqb_spec t 0) as [Hz | Hnz].
  - cbn. intros H. exists m. split; [exact H | left; split; [exact Hz | reflexivity]].
  - destruct (vec_store (fst m) _ _) as [px |] eqn:Hpx; cbn; [| discriminate].
    destruct (vec_store (snd m) _ _) as [pr |] eqn:Hpr; cbn; [| discriminate].
    intros H. apply vec_store_Some in Hpx as [Hr1 ->].
    apply vec_store_Some in Hpr as [Hr2 ->].
    eexists. split; [exact H |]. right. repeat split; try assumption; lia.
Qed.

Lemma blit_length bits : forall i m m',
  blit bits i bo width pal prio m = Some m' ->
  length (fst m') = length (fst m) /\ length (snd m') = length (snd m).
Proof.
  induction bits as [| t rest IH]; intros i m m' H.
  - injection H as <-. split; reflexivity.
  - apply blit_cons in H as (m1 & Hrest & Hstep).
    apply IH in Hrest as [H1 H2]. rewrite H1, H2.
    destruct Hstep as [[_ ->] | (_ & _ & _ & ->)]; [split; reflexivity |].
    cbn. rewrite !length_insert. split; reflexivity.
Qed.

(** A position that no source pixel is sent to keeps its bytes. *)
Lemma blit_frame bits : forall i m m' (pos : nat),
  blit bits i bo width pal prio m = Some m' ->
  (forall k, i <= k < i + Z.of_nat (length bits) -> pos_of k <> Z.of_nat pos) ->
  fst m' !! pos = fst m !! pos /\ snd m' !! pos = snd m !! pos.
Proof.
  induction bits as [| t rest IH]; intros i m m' pos H Hfree.
  - injection H as <-. split; reflexivity.
  - apply blit_cons in H as (m1 & Hrest & Hstep).
    cbn [length] in Hfree.
    apply (IH _ _ _ pos) in Hrest as [H1 H2];
      [| intros k Hk; apply Hfree; lia].
    rewrite H1, H2.
    destruct Hstep as [[_ ->] | (_ & Hr & _ & ->)]; [split; reflexivity |].
    assert (Z.to_nat (pos_of i) <> pos).
    { intros <-. apply (Hfree i); lia. }
    cbn. rewrite !list_lookup_insert_ne by assumption. split; reflexivity.
Qed.

(** Whatever the positions are, a position either keeps both its bytes or
    gets a drawn pixel together with the priority. *)
Lemma blit_pointwise bits : forall i m m' (pos : nat),
  blit bits i bo width pal prio m = Some m' ->
  (fst m' !! pos = fst m !! pos /\ snd m' !! pos = snd m !! pos) \/
  (exists t, In t bits /\ t <> 0 /\
     fst m' !! pos = Some (u8 (Z.lor t pal)) /\ snd m' !! pos = Some prio).
Proof.
  induction bits as [| t rest IH]; intros i m m' pos H.
  - injection H as <-. left. split; reflexivity.
  - apply blit_cons in H as (m1 & Hrest & Hstep).
    destruct (IH _ _ _ pos Hrest) as [[H1 H2] | (t' & Hin & Hnz & H1 & H2)].
    + rewrite H1, H2.
      destruct Hstep as [[_ ->] | (Hnz & Hr1 & Hr2 & ->)];
        [left; split; reflexivity |].
      destruct (Nat.eq_dec (Z.to_nat (pos_of i)) pos) as [<- | Hne].
      * right. exists t. cbn.
        rewrite !list_lookup_insert_eq by lia.
        repeat split; [left; reflexivity | exact Hnz].
      * left. cbn. rewrite !list_lookup_insert_ne by assumption.
        split; reflexivity.
    + right. exists t'. repeat split; try assumption. right. exact Hin.
Qed.

(** The loop is defined as soon as every position is inside both rasters. *)
Lemma blit_defined bits : forall i m,
  (forall k, i <= k < i + Z.of_nat (length bits) ->
     0 <= pos_of k < Z.of_nat (length (fst m)) /\
     0 <= pos_of k < Z.of_nat (length (snd m))) ->
  exists m', blit bits i bo width pal prio m = Some m'.
Proof.
  induction bits as [| t rest IH]; intros i m Hin.
  - exists m. reflexivity.
  - cbn [blit length] in *.
    destruct (Hin i) as [Hr1 Hr2]; [lia |].
    destruct (t =? 0); cbn.
    + apply IH. intros k Hk. apply Hin. lia.
    + rewrite (vec_store_in_range (fst m)) by assumption. cbn.
      rewrite (vec_store_in_range (snd m)) by assumption. cbn.
      apply IH. cbn. rewrite !length_insert. intros k Hk. apply Hin. lia.
Qed.

(** When the positions are pairwise distinct and not negative, the bytes at
    the position of source pixel [k] are decided by that pixel alone. *)
Lemma blit_exact bits : forall i m m',
  blit bits i bo width pal prio m = Some m' ->
  (forall k, i <= k < i + Z.of_nat (length bits) -> 0 <= pos_of k) ->
  (forall j k, i <= j < k -> k < i + Z.of_nat (length bits) ->
     pos_of j <> pos_of k) ->
  forall k t, i <= k -> bits !! Z.to_nat (k - i) = Some t ->
    if t =? 0 then
      fst m' !! Z.to_nat (pos_of k) = fst m !! Z.to_nat (pos_of k) /\
      snd m' !! Z.to_nat (pos_of k) = snd m !! Z.to_nat (pos_of k)
    else
      fst m' !! Z.to_nat (pos_of k) = Some (u8 (Z.lor t pal)) /\
      snd m' !! Z.to_nat (pos_of k) = Some prio.
Proof.
  induction bits as [| t0 rest IH]; intros i m m' H Hpos Hinj k t Hk Hlook.
  - rewrite lookup_nil in Hlook. discriminate.
  - apply blit_cons in H as (m1 & Hrest & Hstep).
    cbn [length] in Hpos, Hinj.
    destruct (Z.eq_dec k i) as [-> | Hki].
    + replace (i - i) with 0 in Hlook by lia. cbn in Hlook.
      injection Hlook as ->.
      destruct (blit_frame rest (i + 1) m1 m' (Z.to_nat (pos_of i)) Hrest)
        as [H1 H2].
      { intros j Hj Heq. apply (Hinj i j); [lia | lia |].
        specialize (Hpos i ltac:(lia)). lia. }
      rewrite H1, H2.
      destruct Hstep as [[-> ->] | (Hnz & Hr1 & Hr2 & ->)].
      * cbn. split; reflexivity.
      * destruct (Z.eqb_spec t 0); [contradiction |]. cbn.
        rewrite !list_lookup_insert_eq by lia. split; reflexivity.
    + assert (Hlook' : rest !! Z.to_nat (k - (i + 1)) = Some t).
      { replace (Z.to_nat (k - i)) with (S (Z.to_nat (k - (i + 1)))) in Hlook
          by lia. exact Hlook. }
      assert (Hklt : k < i + Z.of_nat (S (length rest))).
      { apply lookup_lt_Some in Hlook'. lia. }
      specialize (IH (i + 1) m1 m' Hrest).
      assert (Hgoal := IH ltac:(intros; apply Hpos; lia)
                          ltac:(intros; apply Hinj; lia) k t ltac:(lia) Hlook').
      destruct Hstep as [[_ ->] | (_ & Hr1 & Hr2 & ->)]; [exact Hgoal |].
      assert (Z.to_nat (pos_of i) <> Z.to_nat (pos_of k)).
      { intros Heq. apply (Hinj i k); [lia | lia |].
        assert (0 <= pos_of i) by (apply Hpos; lia).
        assert (0 <= pos_of k) by (apply Hpos; lia). lia. }
      cbn in Hgoal. rewrite !list_lookup_insert_ne in Hgoal by assumption.
      exact Hgoal.
Qed.

End Blit.

(** ** [InsertTile] *)

Lemma InsertTile_out_of_range x y p tile tileset w :
  m_width (buf w) <= add64 x 7 \/ m_height (buf w) <= add64 y 7 ->
  InsertTile x y p tile tileset w
  = Some (tt, {| buf := buf w;
                 debug_log := debug_log w ++
                   [tile_out_of_range_msg x y (m_width (buf w)) (m_height (buf w))];
                 files := files w |}).
Proof.
  intros H. unfold InsertTile, bind, get_buf.
  destruct (Z.leb_spec (m_width (buf w)) (add64 x 7)),
           (Z.leb_spec (m_height (buf w)) (add64 y 7));
    try reflexivity.
  lia.
Qed.

Lemma InsertTile_in_range x y p tile tileset w :
  add64 x 7 < m_width (buf w) -> add64 y 7 < m_height (buf w) ->
  InsertTile x y p tile tileset w
  = match blit (getTile tileset tile) 0 (add64 (mul64 y (m_width (buf w))) x)
            (m_width (buf w)) (u8 (Z.shiftl p 4))
            (bool_u8 (getAttribute tile ATTR_PRIORITY))
            (m_pixels (buf w), m_priority (buf w)) with
    | Some m => Some (tt, {| buf := set_rasters (buf w) m;
                             debug_log := debug_log w; files := files w |})
    | None => None
    end.
Proof.
  intros Hx Hy. unfold InsertTile, bind, get_buf.
  destruct (Z.leb_spec (m_width (buf w)) (add64 x 7)); [lia |].
  destruct (Z.leb_spec (m_height (buf w)) (add64 y 7)); [lia |].
  cbn [orb]. rewrite InsertTile_loop_blit; [| lia | intros Hne; exfalso; apply Hne; reflexivity].
  destruct (blit _ _ _ _ _ _ _); reflexivity.
Qed.

(** Inside the buffer, source pixel [k] goes to column [x + k mod 8] of row
    [y + k / 8], and none of the sums wraps. *)
Lemma blit_pos_inside b x y k :
  buffer_wf b -> 0 <= x -> 0 <= y ->
  x + 7 < m_width b -> y + 7 < m_height b -> 0 <= k < 64 ->
  blit_pos (add64 (mul64 y (m_width b)) x) (m_width b) k
  = (y + k / 8) * m_width b + (x + k mod 8) /\
  0 <= (y + k / 8) * m_width b + (x + k mod 8) < m_width b * m_height b.
Proof.
  intros (Hw & Hh & Hfit & _ & _) Hx Hy Hxw Hyh Hk.
  set (W := m_width b) in *. set (H := m_height b) in *.
  assert (Hq : 0 <= k / 8 <= 7) by (Z.to_euclidean_division_equations; lia).
  assert (Hr : 0 <= k mod 8 <= 7) by (Z.to_euclidean_division_equations; lia).
  assert (Hrow : (y + k / 8 + 1) * W <= H * W) by (apply Z.mul_le_mono_nonneg_r; lia).
  assert (Hyw : 0 <= y * W) by (apply Z.mul_nonneg_nonneg; lia).
  assert (Hqw : 0 <= k / 8 * W) by (apply Z.mul_nonneg_nonneg; lia).
  assert (Hbound : (y + k / 8) * W + (x + k mod 8) < W * H) by lia.
  unfold blit_pos.
  rewrite (mul64_small y W) by lia.
  rewrite (add64_small (y * W) x) by lia.
  rewrite (mul64_small W (k / 8)) by lia.
  rewrite !ptrdiff_small by lia.
  split; lia.
Qed.

Lemma blit_pos_inside_distinct b x y j k :
  buffer_wf b -> 0 <= x -> 0 <= y ->
  x + 7 < m_width b -> y + 7 < m_height b ->
  0 <= j < k -> k < 64 ->
  blit_pos (add64 (mul64 y (m_width b)) x) (m_width b) j
  <> blit_pos (add64 (mul64 y (m_width b)) x) (m_width b) k.
Proof.
  intros Hwf Hx Hy Hxw Hyh Hj Hk.
  destruct (blit_pos_inside b x y j Hwf Hx Hy Hxw Hyh) as [-> _]; [lia |].
  destruct (blit_pos_inside b x y k Hwf Hx Hy Hxw Hyh) as [-> _]; [lia |].
  set (W := m_width b) in *.
  assert (0 <= j mod 8 <= 7 /\ 0 <= k mod 8 <= 7 /\ 0 <= j / 8 /\ 0 <= k / 8)
    by (Z.to_euclidean_division_equations; lia).
  assert (j / 8 < k / 8 \/ (j / 8 = k / 8 /\ j mod 8 < k mod 8))
    by (Z.to_euclidean_division_equations; lia).
  nia.
Qed.

(** The byte that [InsertTile] stores. *)
Lemma stored_pixel_byte p raw :
  is_u8 raw ->
  u8 (Z.lor raw (u8 (Z.shiftl p 4))) = Z.lor (Z.shiftl p 4) raw mod 256.
Proof.
  intros Hraw. unfold u8. change 256 with (2 ^ 8).
  rewrite <- !Z.land_ones by lia.
  rewrite (Z.lor_comm (Z.shiftl p 4) raw).
  rewrite !Z.land_lor_distr_l.
  rewrite <- Z.land_assoc, Z.land_diag. reflexivity.
Qed.

Lemma stored_pixel_exact p raw :
  is_u8 raw -> 0 <= p <= 15 ->
  Z.lor (Z.shiftl p 4) raw mod 256 = Z.lor (Z.shiftl p 4) raw.
Proof.
  intros Hraw Hp. change 256 with (2 ^ 8).
  rewrite <- Z.land_ones by lia. rewrite Z.land_lor_distr_l.
  rewrite !Z.land_ones by lia.
  rewrite Z.shiftl_mul_pow2 by lia.
  unfold is_u8 in Hraw.
  rewrite !Z.mod_small; [reflexivity | lia | lia].
Qed.

Lemma InsertTile_defined x y p tile tileset w :
  buffer_wf (buf w) -> 0 <= x -> 0 <= y -> x + 7 < 2 ^ 64 -> y + 7 < 2 ^ 64 ->
  length (getTile tileset tile) = 64%nat ->
  exists w', InsertTile x y p tile tileset w = Some (tt, w') /\
             buffer_wf (buf w') /\
             m_width (buf w') = m_width (buf w) /\
             m_height (buf w') = m_height (buf w).
Proof.
  intros Hwf Hx Hy Hxs Hys Hlen.
  destruct (Z.le_gt_cases (m_width (buf w)) (add64 x 7)) as [Hout | Hinx].
  { rewrite InsertTile_out_of_range by (left; exact Hout).
    eexists. split; [reflexivity |]. cbn. auto. }
  destruct (Z.le_gt_cases (m_height (buf w)) (add64 y 7)) as [Hout | Hiny].
  { rewrite InsertTile_out_of_range by (right; exact Hout).
    eexists. split; [reflexivity |]. cbn. auto. }
  rewrite add64_small in Hinx, Hiny by lia.
  rewrite InsertTile_in_range by (rewrite add64_small; lia).
  pose proof Hwf as (Hw & Hh & Hfit & Hlp & Hlq).
  destruct (blit_defined (add64 (mul64 y (m_width (buf w))) x) (m_width (buf w))
              (u8 (Z.shiftl p 4)) (bool_u8 (getAttribute tile ATTR_PRIORITY))
              (getTile tileset tile) 0 (m_pixels (buf w), m_priority (buf w)))
    as [m' Hm'].
  { intros k Hk. rewrite Hlen in Hk.
    destruct (blit_pos_inside (buf w) x y k) as [-> Hr]; try assumption; try lia.
    cbn. lia. }
  rewrite Hm'. eexists. split; [reflexivity |].
  apply blit_length in Hm' as [H1 H2]. cbn in H1, H2.
  cbn. unfold buffer_wf. cbn. rewrite H1, H2. auto.
Qed.

(** C1. A call of [InsertTile] whose 8 by 8 footprint lies inside the buffer
    ([x + 7 < W], [y + 7 < H]) returns, reports nothing, and for the source
    pixel in column [col], row [row] of the 64-byte bitmap: if its raw value
    is not zero, the pixel byte at ([x + col], [y + row]) becomes the byte
    [(palette_index << 4) | raw] (the full value when [palette_index] is at
    most 15) and the priority byte there becomes the tile's priority
    attribute; if it is zero, both bytes there stay as they were. *)
Theorem InsertTile_composites :
  forall x y palette_index tile tileset w,
    buffer_wf (buf w) -> 0 <= x -> 0 <= y ->
    x + 7 < m_width (buf w) -> y + 7 < m_height (buf w) ->
    is_u8 palette_index ->
    length (getTile tileset tile) = 64%nat ->
    Forall is_u8 (getTile tileset tile) ->
    exists w',
      InsertTile x y palette_index tile tileset w = Some (tt, w') /\
      debug_log w' = debug_log w /\
      forall col row raw,
        0 <= col < 8 -> 0 <= row < 8 ->
        getTile tileset tile !! Z.to_nat (row * 8 + col) = Some raw ->
        let pos := pixel_index (buf w) (x + col) (y + row) in
        if raw =? 0 then
          m_pixels (buf w') !! pos = m_pixels (buf w) !! pos /\
          m_priority (buf w') !! pos = m_priority (buf w) !! pos
        else
          m_pixels (buf w') !! pos
            = Some (Z.lor (Z.shiftl palette_index 4) raw mod 256) /\
          (palette_index <= 15 ->
           m_pixels (buf w') !! pos
             = Some (Z.lor (Z.shiftl palette_index 4) raw)) /\
          m_priority (buf w') !! pos
            = Some (bool_u8 (getAttribute tile ATTR_PRIORITY)).
Proof.
  intros x y p tile tileset w Hwf Hx Hy Hxw Hyh Hp Hlen Hbytes.
  pose proof Hwf as (Hw & Hh & Hfit & Hlp & Hlq).
  assert (Hwlt : m_width (buf w) < 2 ^ 64 /\ m_height (buf w) < 2 ^ 64).
  { split; nia. }
  rewrite InsertTile_in_range by (rewrite add64_small; lia).
  set (bo := add64 (mul64 y (m_width (buf w))) x).
  set (prio := bool_u8 (getAttribute tile ATTR_PRIORITY)).
  destruct (blit_defined bo (m_width (buf w)) (u8 (Z.shiftl p 4)) prio
              (getTile tileset tile) 0 (m_pixels (buf w), m_priority (buf w)))
    as [m' Hm'].
  { intros k Hk. rewrite Hlen in Hk. subst bo.
    destruct (blit_pos_inside (buf w) x y k) as [-> Hr]; try assumption; try lia.
    cbn. lia. }
  rewrite Hm'. eexists. split; [reflexivity |]. split; [reflexivity |].
  intros col row raw Hcol Hrow Hraw pos.
  assert (Hk : 0 <= row * 8 + col < 64) by lia.
  assert (Hdm : (row * 8 + col) / 8 = row /\ (row * 8 + col) mod 8 = col)
    by (Z.to_euclidean_division_equations; lia).
  destruct Hdm as [Hdiv Hmod].
  pose proof (blit_exact bo (m_width (buf w)) (u8 (Z.shiftl p 4)) prio
                (getTile tileset tile) 0 _ _ Hm') as Hex.
  assert (Hposk : blit_pos bo (m_width (buf w)) (row * 8 + col)
                  = (y + row) * m_width (buf w) + (x + col)).
  { subst bo.
    destruct (blit_pos_inside (buf w) x y (row * 8 + col)) as [-> _];
      try assumption. rewrite Hdiv, Hmod. reflexivity. }
  specialize (Hex
    ltac:(intros k Hk'; rewrite Hlen in Hk'; subst bo;
          destruct (blit_pos_inside (buf w) x y k) as [-> ?];
          try assumption; lia)
    ltac:(intros j k Hj Hk'; rewrite Hlen in Hk'; subst bo;
          apply blit_pos_inside_distinct; try assumption; lia)
    (row * 8 + col) raw ltac:(lia)
    ltac:(rewrite Z.sub_0_r; exact Hraw)).
  rewrite Hposk in Hex. cbn [fst snd] in Hex.
  subst pos. unfold pixel_index.
  assert (Hrawb : is_u8 raw).
  { rewrite Forall_forall in Hbytes. apply Hbytes.
    eapply list_elem_of_lookup_2. exact Hraw. }
  destruct (raw =? 0); [exact Hex |].
  destruct Hex as [Hpx Hpr]. cbn [set_rasters buf m_pixels m_priority fst snd].
  rewrite stored_pixel_byte in Hpx by exact Hrawb.
  split; [exact Hpx |]. split; [| exact Hpr].
  intros Hp15. rewrite Hpx. f_equal. apply stored_pixel_exact; [exact Hrawb |].
  unfold is_u8 in Hp. lia.
Qed.

Lemma InsertTile_composites_witness :
  exists w',
    InsertTile 0 0 2 high_tile solid_tileset (new_world 8 8) = Some (tt, w') /\
    m_pixels (buf w') !! pixel_index (buf (new_world 8 8)) 3 5 = Some 33 /\
    m_priority (buf w') !! pixel_index (buf (new_world 8 8)) 3 5 = Some 1.
Proof.
  destruct (InsertTile_composites 0 0 2 high_tile solid_tileset (new_world 8 8))
    as (w' & Hrun & _ & Hpix).
  - unfold buffer_wf. cbn. repeat split; lia.
  - lia.
  - lia.
  - cbn. lia.
  - cbn. lia.
  - unfold is_u8. lia.
  - reflexivity.
  - cbn. repeat constructor; unfold is_u8; lia.
  - exists w'. split; [exact Hrun |].
    specialize (Hpix 3 5 1 ltac:(lia) ltac:(lia) eq_refl).
    cbn in Hpix. destruct Hpix as (_ & Hpx & Hpr).
    split; [apply Hpx; lia | exact Hpr].
Defined.

(** C4. The check of [InsertTile] computes the sums [x + 7] and [y + 7] in
    [size_t]. At [x = 2^64 - 7], [y = 1] in a 16 by 16 buffer [x + 7] is
    not below the width, yet the sum the code compares is 0: the check
    passes, the offset [y * W + x] wraps around to 9, and the call returns
    with 64 pixels and priorities written and nothing reported. At
    [y = 0] the same offset lies 7 places before the rasters, and the
    first write is outside the vector. *)
Theorem InsertTile_wrapped_sum_passes_check :
  0 <= 2 ^ 64 - 7 < 2 ^ 64 /\
  m_width (buf (new_world 16 16)) <= (2 ^ 64 - 7) + 7 /\
  exists w',
    InsertTile (2 ^ 64 - 7) 1 1 high_tile solid_tileset (new_world 16 16)
    = Some (tt, w') /\
    m_pixels (buf w') <> m_pixels (buf (new_world 16 16)) /\
    m_priority (buf w') <> m_priority (buf (new_world 16 16)) /\
    m_pixels (buf w') !! 9%nat = Some 17 /\
    m_priority (buf w') !! 9%nat = Some 1 /\
    debug_log w' = debug_log (new_world 16 16) /\
    InsertTile (2 ^ 64 - 7) 0 1 high_tile solid_tileset (new_world 16 16)
    = None.
Proof.
  split; [lia |]. split; [cbn; lia |].
  eexists. split; [vm_compute; reflexivity |].
  repeat split; vm_compute; congruence.
Qed.

(** ** [InsertBlock] *)

Lemma InsertBlock_unfold x y p block tileset w :
  InsertBlock x y p block tileset w
  = if block_guard_index (buf w) x y <? Z.of_nat (length (m_pixels (buf w)))
    then four_InsertTile x y p block tileset w
    else Debug "Coordinates out of range" w.
Proof.
  unfold InsertBlock, block_guard_index, bind, get_buf.
  destruct (_ <? _); reflexivity.
Qed.

(** Without wrap-around, a failing guard means that the first tile is
    already outside. *)
Lemma block_guard_fails b x y :
  buffer_wf b -> 0 <= x -> 0 <= y -> x + 7 < 2 ^ 64 -> y + 7 < 2 ^ 64 ->
  Z.of_nat (length (m_pixels b)) <= block_guard_index b x y ->
  m_width b <= x + 7 \/ m_height b <= y + 7.
Proof.
  intros (Hw & Hh & Hfit & Hlp & _) Hx Hy Hxs Hys Hguard.
  destruct (Z.le_gt_cases (m_width b) (x + 7)) as [? | Hxin]; [left; assumption |].
  destruct (Z.le_gt_cases (m_height b) (y + 7)) as [? | Hyin]; [right; assumption |].
  exfalso. unfold block_guard_index in Hguard.
  set (W := m_width b) in *. set (H := m_height b) in *.
  assert ((y + 7 + 1) * W <= H * W) by (apply Z.mul_le_mono_nonneg_r; lia).
  assert (0 <= (y + 7) * W) by (apply Z.mul_nonneg_nonneg; lia).
  rewrite (add64_small y 7) in Hguard by lia.
  rewrite (mul64_small (y + 7) W) in Hguard by lia.
  rewrite (add64_small ((y + 7) * W) x) in Hguard by lia.
  rewrite (add64_small ((y + 7) * W + x) 7) in Hguard by lia.
  lia.
Qed.

Lemma four_InsertTile_all_rejected x y p block tileset w :
  0 <= x -> 0 <= y -> x + 15 < 2 ^ 64 -> y + 15 < 2 ^ 64 ->
  m_width (buf w) <= x + 7 \/ m_height (buf w) <= y + 7 ->
  exists w', four_InsertTile x y p block tileset w = Some (tt, w') /\
             buf w' = buf w.
Proof.
  intros Hx Hy Hxs Hys Hout.
  assert (Hx8 : add64 x 8 = x + 8) by (apply add64_small; lia).
  assert (Hy8 : add64 y 8 = y + 8) by (apply add64_small; lia).
  unfold four_InsertTile, bind.
  rewrite InsertTile_out_of_range
    by (rewrite !add64_small by lia; lia).
  rewrite InsertTile_out_of_range
    by (cbn [buf]; rewrite Hx8, !add64_small by lia; lia).
  rewrite InsertTile_out_of_range
    by (cbn [buf]; rewrite Hy8, !add64_small by lia; lia).
  rewrite InsertTile_out_of_range
    by (cbn [buf]; rewrite Hx8, Hy8, !add64_small by lia; lia).
  eexists. split; reflexivity.
Qed.

Lemma four_InsertTile_defined x y p block tileset w :
  buffer_wf (buf w) ->
  0 <= x -> 0 <= y -> x + 15 < 2 ^ 64 -> y + 15 < 2 ^ 64 ->
  (forall n, 0 <= n <= 3 ->
     length (getTile tileset (block_getTile block n)) = 64%nat) ->
  exists w', four_InsertTile x y p block tileset w = Some (tt, w') /\
             buffer_wf (buf w').
Proof.
  intros Hwf Hx Hy Hxs Hys Hlen.
  assert (Hx8 : add64 x 8 = x + 8) by (apply add64_small; lia).
  assert (Hy8 : add64 y 8 = y + 8) by (apply add64_small; lia).
  unfold four_InsertTile, bind. rewrite Hx8, Hy8.
  destruct (InsertTile_defined x y p (block_getTile block 0) tileset w)
    as (w1 & -> & Hwf1 & _); try assumption; try lia; [apply Hlen; lia |].
  destruct (InsertTile_defined (x + 8) y p (block_getTile block 1) tileset w1)
    as (w2 & -> & Hwf2 & _); try assumption; try lia; [apply Hlen; lia |].
  destruct (InsertTile_defined x (y + 8) p (block_getTile block 2) tileset w2)
    as (w3 & -> & Hwf3 & _); try assumption; try lia; [apply Hlen; lia |].
  destruct (InsertTile_defined (x + 8) (y + 8) p (block_getTile block 3) tileset w3)
    as (w4 & -> & Hwf4 & _); try assumption; try lia; [apply Hlen; lia |].
  exists w4. split; [reflexivity | assumption].
Qed.

(** C2, amended. For coordinates whose sums [x + 15], [y + 15] do not wrap
    around in [size_t], and a buffer whose rasters hold [W * H] bytes, [InsertBlock]
    leaves both rasters exactly as the four calls [InsertTile (x, y)],
    [(x + 8, y)], [(x, y + 8)], [(x + 8, y + 8)] with the tiles 0 to 3 of
    the block, in this order, leave them; with 64-byte bitmaps the call
    returns. *)
Theorem InsertBlock_is_four_InsertTile :
  forall x y palette_index block tileset w,
    buffer_wf (buf w) ->
    0 <= x -> 0 <= y -> x + 15 < 2 ^ 64 -> y + 15 < 2 ^ 64 ->
    final_rasters (InsertBlock x y palette_index block tileset w)
    = final_rasters (four_InsertTile x y palette_index block tileset w) /\
    ((forall n, 0 <= n <= 3 ->
        length (getTile tileset (block_getTile block n)) = 64%nat) ->
     exists w', InsertBlock x y palette_index block tileset w = Some (tt, w')).
Proof.
  intros x y p block tileset w Hwf Hx Hy Hxs Hys.
  rewrite InsertBlock_unfold.
  destruct (Z.ltb_spec (block_guard_index (buf w) x y)
              (Z.of_nat (length (m_pixels (buf w))))) as [Hin | Hout].
  - split; [reflexivity |]. intros Hlen.
    destruct (four_InsertTile_defined x y p block tileset w)
      as (w' & Hw' & _); try assumption.
    exists w'. exact Hw'.
  - split; [| intros _; eexists; reflexivity].
    apply block_guard_fails in Hout; try assumption; try lia.
    destruct (four_InsertTile_all_rejected x y p block tileset w)
      as (w' & -> & Hbuf); try assumption.
    cbn. rewrite Hbuf. reflexivity.
Qed.

Lemma InsertBlock_is_four_InsertTile_witness :
  final_rasters (InsertBlock 4 4 1 solid_block solid_tileset (new_world 24 24))
  = final_rasters (four_InsertTile 4 4 1 solid_block solid_tileset (new_world 24 24)).
Proof.
  apply (InsertBlock_is_four_InsertTile 4 4 1 solid_block solid_tileset
           (new_world 24 24)).
  - unfold buffer_wf. cbn. repeat split; lia.
  - lia.
  - lia.
  - lia.
  - lia.
Defined.

(** C2, as stated for every [x] and [y], fails where [y + 8] wraps around:
    at [y = 2^64 - 8] in a 24 by 24 buffer the guard of [InsertBlock]
    fails and the block is skipped, while the four calls of [InsertTile]
    draw the tiles 2 and 3 in row 0, because the [y + 8] they are given
    is 0. *)
Lemma InsertBlock_wrapped_row_counterexample :
  0 <= 2 ^ 64 - 8 < 2 ^ 64 /\
  final_rasters
    (InsertBlock 0 (2 ^ 64 - 8) 1 solid_block solid_tileset (new_world 24 24))
  = Some (m_pixels (buf (new_world 24 24)),
          m_priority (buf (new_world 24 24))) /\
  final_rasters
    (InsertBlock 0 (2 ^ 64 - 8) 1 solid_block solid_tileset (new_world 24 24))
  <> final_rasters
       (four_InsertTile 0 (2 ^ 64 - 8) 1 solid_block solid_tileset
          (new_world 24 24)) /\
  exists w',
    four_InsertTile 0 (2 ^ 64 - 8) 1 solid_block solid_tileset (new_world 24 24)
    = Some (tt, w') /\
    m_pixels (buf w') !! pixel_index (buf w') 0 0 = Some 17 /\
    m_pixels (buf w') !! pixel_index (buf w') 15 7 = Some 17.
Proof.
  split; [lia |]. split; [vm_compute; reflexivity |].
  split; [vm_compute; congruence |].
  eexists. split; [vm_compute; reflexivity |].
  split; vm_compute; reflexivity.
Qed.


(** ** [GetRGB] and [GetAlpha] *)

Lemma resize_length v n : 0 <= n -> length (resize v n) = Z.to_nat n.
Proof.
  intros Hn. unfold resize.
  rewrite length_app, length_take, length_replicate. lia.
Qed.

(** A store just behind the part already written. *)
Lemma vec_store_next {A} (done : list A) a todo it x :
  it = Z.of_nat (length done) ->
  vec_store (done ++ a :: todo) it x = Some ((done ++ [x]) ++ todo).
Proof.
  intros ->. rewrite vec_store_in_range
    by (rewrite length_app; cbn [length]; lia).
  rewrite Nat2Z.id. f_equal.
  rewrite insert_app_r_alt by lia.
  rewrite Nat.sub_diag. cbn. rewrite <- app_assoc. reflexivity.
Qed.

Lemma vec_load_next {A} (done : list A) a todo it :
  it = Z.of_nat (length done) -> vec_load (done ++ a :: todo) it = Some a.
Proof.
  intros ->. unfold vec_load. destruct (Z.leb_spec 0 (Z.of_nat (length done))); [| lia].
  rewrite Nat2Z.id. rewrite lookup_app_r by lia.
  rewrite Nat.sub_diag. reflexivity.
Qed.

Lemma vec_load_covered (pals : list Palette) pixel :
  0 <= Z.shiftr pixel 4 < Z.of_nat (length pals) ->
  exists pal, vec_load pals (Z.shiftr pixel 4) = Some pal /\
              pals !! Z.to_nat (Z.shiftr pixel 4) = Some pal.
Proof.
  intros H. unfold vec_load. destruct (Z.leb_spec 0 (Z.shiftr pixel 4)); [| lia].
  destruct (lookup_lt_is_Some_2 pals (Z.to_nat (Z.shiftr pixel 4))) as [pal Hpal];
    [lia |].
  exists pal. split; exact Hpal.
Qed.

Lemma GetAlpha_loop_spec pals lo hi pixels :
  forall pri_done pri_todo done todo,
    palette_rows_covered pals pixels ->
    (length pixels <= length pri_todo)%nat ->
    (length pixels <= length todo)%nat ->
    exists out,
      GetAlpha_loop pixels pals lo hi (pri_done ++ pri_todo)
        (Z.of_nat (length pri_done)) (Z.of_nat (length done)) (done ++ todo)
      = Some (done ++ out ++ drop (length pixels) todo) /\
      length out = length pixels /\
      forall (n : nat) pixel pri pal,
        pixels !! n = Some pixel -> pri_todo !! n = Some pri ->
        pals !! Z.to_nat (Z.shiftr pixel 4) = Some pal ->
        out !! n = Some (Z.min (if nonzero pri then hi else lo)
                               (getA pal (Z.land pixel 15))).
Proof.
  induction pixels as [| p rest IH]; intros pri_done pri_todo done todo Hcov Hlp Hlt.
  - exists []. cbn. rewrite drop_0. split; [reflexivity |]. split; [reflexivity |].
    intros n pixel pri pal Hn. rewrite lookup_nil in Hn. discriminate.
  - destruct pri_todo as [| q qs]; [cbn in Hlp; lia |].
    destruct todo as [| a todo']; [cbn in Hlt; lia |].
    apply Forall_cons in Hcov as [Hp Hcov].
    destruct (vec_load_covered pals p Hp) as (pal0 & Hload & Hlook).
    cbn [GetAlpha_loop]. rewrite Hload. cbn.
    rewrite (vec_load_next pri_done q qs) by reflexivity. cbn.
    rewrite (vec_store_next done a todo') by reflexivity. cbn.
    set (v := Z.min (if nonzero q then hi else lo) (getA pal0 (Z.land p 15))).
    destruct (IH (pri_done ++ [q]) qs (done ++ [v]) todo' Hcov
                ltac:(cbn in Hlp; lia) ltac:(cbn in Hlt; lia))
      as (out & Hrun & Hlen & Hpt).
    replace (Z.of_nat (length (pri_done ++ [q])))
      with (Z.of_nat (length pri_done) + 1) in Hrun
      by (rewrite length_app; cbn; lia).
    replace (Z.of_nat (length (done ++ [v])))
      with (Z.of_nat (length done) + 1) in Hrun
      by (rewrite length_app; cbn; lia).
    rewrite <- (app_assoc pri_done [q] qs) in Hrun. cbn [app] in Hrun.
    rewrite Hrun. exists (v :: out). cbn. rewrite <- app_assoc. cbn.
    split; [reflexivity |]. split; [lia |].
    intros [| n] pixel pri pal Hn Hq Hpal; cbn in Hn, Hq.
    + injection Hn as <-. injection Hq as <-.
      rewrite Hlook in Hpal. injection Hpal as <-. reflexivity.
    + cbn. eapply Hpt; eassumption.
Qed.

Lemma GetRGB_loop_spec pals pixels :
  forall done todo,
    palette_rows_covered pals pixels ->
    (length pixels * 3 <= length todo)%nat ->
    exists out,
      GetRGB_loop pixels pals (Z.of_nat (length done)) (done ++ todo)
      = Some (done ++ out ++ drop (length pixels * 3) todo) /\
      length out = (length pixels * 3)%nat /\
      forall (n : nat) pixel pal,
        pixels !! n = Some pixel ->
        pals !! Z.to_nat (Z.shiftr pixel 4) = Some pal ->
        out !! (n * 3)%nat = Some (getR pal (Z.land pixel 15)) /\
        out !! (n * 3 + 1)%nat = Some (getG pal (Z.land pixel 15)) /\
        out !! (n * 3 + 2)%nat = Some (getB pal (Z.land pixel 15)).
Proof.
  induction pixels as [| p rest IH]; intros done todo Hcov Hlt.
  - exists []. cbn. rewrite drop_0. split; [reflexivity |]. split; [reflexivity |].
    intros n pixel pal Hn. rewrite lookup_nil in Hn. discriminate.
  - destruct todo as [| a [| b [| c todo']]]; try (cbn in Hlt; lia).
    apply Forall_cons in Hcov as [Hp Hcov].
    destruct (vec_load_covered pals p Hp) as (pal0 & Hload & Hlook).
    cbn [GetRGB_loop]. rewrite Hload. cbn.
    rewrite (vec_store_next done a (b :: c :: todo')) by reflexivity. cbn.
    rewrite (vec_store_next (done ++ [_]) b (c :: todo'))
      by (rewrite length_app; cbn; lia). cbn.
    rewrite (vec_store_next ((done ++ [_]) ++ [_]) c todo')
      by (rewrite !length_app; cbn; lia). cbn.
    set (r := getR pal0 (Z.land p 15)).
    set (g := getG pal0 (Z.land p 15)).
    set (bl := getB pal0 (Z.land p 15)).
    destruct (IH (((done ++ [r]) ++ [g]) ++ [bl]) todo' Hcov
                ltac:(cbn in Hlt; lia)) as (out & Hrun & Hlen & Hpt).
    replace (Z.of_nat (length (((done ++ [r]) ++ [g]) ++ [bl])))
      with (Z.of_nat (length done) + 3) in Hrun
      by (rewrite !length_app; cbn; lia).
    rewrite Hrun. exists (r :: g :: bl :: out).
    cbn. rewrite <- !app_assoc. cbn.
    split; [reflexivity |]. split; [lia |].
    intros [| n] pixel pal Hn Hpal; cbn in Hn.
    + injection Hn as <-. rewrite Hlook in Hpal. injection Hpal as <-.
      repeat split; reflexivity.
    + cbn. eapply Hpt; eassumption.
Qed.

(** C7. With a palette list that holds every palette row used in the
    buffer, [GetRGB] returns [W * H * 3] bytes, pixel after pixel in the
    order of the raster: the bytes [3n], [3n + 1], [3n + 2] are the red,
    green and blue of entry [p & 0xF] of palette [p >> 4], where [p] is
    pixel [n]. The rasters are not changed. *)
Theorem GetRGB_triplets :
  forall pals w,
    buffer_wf (buf w) ->
    m_width (buf w) * m_height (buf w) * 3 < 2 ^ 64 ->
    palette_rows_covered pals (m_pixels (buf w)) ->
    exists rgb w',
      GetRGB pals w = Some (rgb, w') /\
      Z.of_nat (length rgb) = m_width (buf w) * m_height (buf w) * 3 /\
      m_pixels (buf w') = m_pixels (buf w) /\
      m_priority (buf w') = m_priority (buf w) /\
      forall (n : nat) pixel pal,
        m_pixels (buf w) !! n = Some pixel ->
        pals !! Z.to_nat (Z.shiftr pixel 4) = Some pal ->
        rgb !! (n * 3)%nat = Some (getR pal (Z.land pixel 15)) /\
        rgb !! (n * 3 + 1)%nat = Some (getG pal (Z.land pixel 15)) /\
        rgb !! (n * 3 + 2)%nat = Some (getB pal (Z.land pixel 15)).
Proof.
  intros pals w (Hw & Hh & Hfit & Hlp & Hlq) Hfit3 Hcov.
  assert (Hwh : 0 <= m_width (buf w) * m_height (buf w))
    by (apply Z.mul_nonneg_nonneg; assumption).
  unfold GetRGB, bind, get_buf.
  rewrite (mul64_small (m_width (buf w))) by lia.
  rewrite mul64_small by lia.
  set (rgb0 := resize (m_rgb (buf w)) _).
  assert (Hlen0 : length rgb0 = (length (m_pixels (buf w)) * 3)%nat).
  { subst rgb0. rewrite resize_length by lia. lia. }
  destruct (GetRGB_loop_spec pals (m_pixels (buf w)) [] rgb0 Hcov)
    as (out & Hrun & Hlen & Hpt); [lia |].
  cbn [length app] in Hrun. change (Z.of_nat 0) with 0 in Hrun.
  rewrite drop_ge, app_nil_r in Hrun by lia.
  rewrite Hrun. cbn. exists out. eexists. split; [reflexivity |].
  cbn. split; [lia |]. split; [reflexivity |]. split; [reflexivity |].
  exact Hpt.
Qed.

Lemma GetRGB_triplets_witness :
  exists rgb w',
    GetRGB [grey_palette; grey_palette; grey_palette] drawn_world
    = Some (rgb, w') /\
    Z.of_nat (length rgb) = 192 /\
    rgb !! 0%nat = Some 16.
Proof.
  destruct (GetRGB_triplets [grey_palette; grey_palette; grey_palette]
              drawn_world) as (rgb & w' & Hrun & Hlen & _ & _ & Hpt).
  - unfold buffer_wf. vm_compute. repeat split; congruence.
  - vm_compute. reflexivity.
  - unfold palette_rows_covered. apply (bool_decide_unpack _). vm_compute. exact I.
  - exists rgb, w'. split; [exact Hrun |]. split; [exact Hlen |].
    apply (Hpt 0%nat 33 grey_palette); reflexivity.
Defined.

(** C6, as stated, fails: two palettes do not hold row 2, which the pixels
    of this 8 by 8 buffer name, and the call has no defined result. *)
Lemma GetAlpha_short_palette_list_counterexample :
  buffer_wf (buf drawn_world) /\
  m_pixels (buf drawn_world) !! 0%nat = Some 33 /\
  GetAlpha [grey_palette; grey_palette] 128 255 drawn_world = None.
Proof.
  split; [| split].
  - unfold buffer_wf. vm_compute. repeat split; congruence.
  - reflexivity.
  - vm_compute. reflexivity.
Qed.

(** C6, amended. With a palette list that holds every palette row used in
    the buffer, [GetAlpha] returns [W * H] bytes, one per pixel in the order
    of the raster: byte [n] is the smaller of the ceiling and the alpha of
    entry [p & 0xF] of palette [p >> 4], where [p] is pixel [n] and the
    ceiling is [high_pri_max_opacity] when the priority byte [n] is not
    zero, [low_pri_max_opacity] when it is; so a byte at a high priority
    pixel is at most [high_pri_max_opacity]. *)
Theorem GetAlpha_min_of_ceiling :
  forall pals low_pri_max_opacity high_pri_max_opacity w,
    buffer_wf (buf w) ->
    palette_rows_covered pals (m_pixels (buf w)) ->
    exists alpha w',
      GetAlpha pals low_pri_max_opacity high_pri_max_opacity w
      = Some (alpha, w') /\
      Z.of_nat (length alpha) = m_width (buf w) * m_height (buf w) /\
      (forall (n : nat) pixel pri pal,
         m_pixels (buf w) !! n = Some pixel ->
         m_priority (buf w) !! n = Some pri ->
         pals !! Z.to_nat (Z.shiftr pixel 4) = Some pal ->
         alpha !! n
         = Some (Z.min (if pri =? 0 then low_pri_max_opacity
                        else high_pri_max_opacity)
                       (getA pal (Z.land pixel 15)))) /\
      (forall (n : nat) pri a,
         m_priority (buf w) !! n = Some pri -> pri <> 0 ->
         alpha !! n = Some a -> a <= high_pri_max_opacity).
Proof.
  intros pals lo hi w (Hw & Hh & Hfit & Hlp & Hlq) Hcov.
  assert (Hwh : 0 <= m_width (buf w) * m_height (buf w))
    by (apply Z.mul_nonneg_nonneg; assumption).
  unfold GetAlpha, bind, get_buf.
  rewrite mul64_small by lia.
  set (alpha0 := resize (m_alpha (buf w)) _).
  assert (Hlen0 : length alpha0 = length (m_pixels (buf w))).
  { subst alpha0. rewrite resize_length by lia. lia. }
  destruct (GetAlpha_loop_spec pals lo hi (m_pixels (buf w)) []
              (m_priority (buf w)) [] alpha0 Hcov)
    as (out & Hrun & Hlen & Hpt); [lia | lia |].
  cbn [length app] in Hrun. change (Z.of_nat 0) with 0 in Hrun.
  rewrite drop_ge, app_nil_r in Hrun by lia.
  rewrite Hrun. cbn. exists out. eexists. split; [reflexivity |].
  assert (Hpt' : forall (n : nat) pixel pri pal,
    m_pixels (buf w) !! n = Some pixel ->
    m_priority (buf w) !! n = Some pri ->
    pals !! Z.to_nat (Z.shiftr pixel 4) = Some pal ->
    out !! n = Some (Z.min (if pri =? 0 then lo else hi)
                           (getA pal (Z.land pixel 15)))).
  { intros n pixel pri pal Hn Hq Hpal.
    rewrite (Hpt n pixel pri pal Hn Hq Hpal). unfold nonzero.
    destruct (pri =? 0); reflexivity. }
  split; [lia |]. split; [exact Hpt' |].
  intros n pri a Hq Hnz Ha.
  assert (Hn : (n < length (m_pixels (buf w)))%nat).
  { apply lookup_lt_Some in Hq. lia. }
  destruct (lookup_lt_is_Some_2 _ _ Hn) as [pixel Hpixel].
  unfold palette_rows_covered in Hcov. rewrite Forall_forall in Hcov.
  destruct (vec_load_covered pals pixel) as (pal & _ & Hpal).
  { apply Hcov. eapply list_elem_of_lookup_2. exact Hpixel. }
  rewrite (Hpt' n pixel pri pal Hpixel Hq Hpal) in Ha. injection Ha as <-.
  destruct (Z.eqb_spec pri 0); [contradiction |]. lia.
Qed.

Lemma GetAlpha_min_of_ceiling_witness :
  exists alpha w',
    GetAlpha [grey_palette; grey_palette; grey_palette] 128 200 drawn_world
    = Some (alpha, w') /\
    Z.of_nat (length alpha) = 64 /\
    alpha !! 0%nat = Some 200.
Proof.
  destruct (GetAlpha_min_of_ceiling [grey_palette; grey_palette; grey_palette]
              128 200 drawn_world) as (alpha & w' & Hrun & Hlen & Hpt & _).
  - unfold buffer_wf. vm_compute. repeat split; congruence.
  - unfold palette_rows_covered. apply (bool_decide_unpack _). vm_compute. exact I.
  - exists alpha, w'. split; [exact Hrun |]. split; [exact Hlen |].
    apply (Hpt 0%nat 33 1 grey_palette); reflexivity.
Defined.

(** ** What every call keeps *)

Lemma bind_Some {A B} (m : M A) (f : A -> M B) w b w' :
  bind m f w = Some (b, w') ->
  exists a w1, m w = Some (a, w1) /\ f a w1 = Some (b, w').
Proof.
  unfold bind. destruct (m w) as [[a w1] |]; [| discriminate].
  intros H. exists a, w1. split; [reflexivity | exact H].
Qed.

(** What a call of [InsertTile] that returns has done: the dimensions and
    the sizes are kept, and a position keeps both its bytes or gets a drawn
    pixel and the priority of the tile. *)
Lemma InsertTile_effect x y p tile tileset w w' :
  InsertTile x y p tile tileset w = Some (tt, w') ->
  m_width (buf w') = m_width (buf w) /\
  m_height (buf w') = m_height (buf w) /\
  length (m_pixels (buf w')) = length (m_pixels (buf w)) /\
  length (m_priority (buf w')) = length (m_priority (buf w)) /\
  forall pos : nat,
    (m_pixels (buf w') !! pos = m_pixels (buf w) !! pos /\
     m_priority (buf w') !! pos = m_priority (buf w) !! pos) \/
    (exists t, In t (getTile tileset tile) /\ t <> 0 /\
       m_pixels (buf w') !! pos = Some (u8 (Z.lor t (u8 (Z.shiftl p 4)))) /\
       m_priority (buf w') !! pos
       = Some (bool_u8 (getAttribute tile ATTR_PRIORITY))).
Proof.
  intros H.
  destruct (Z.le_gt_cases (m_width (buf w)) (add64 x 7)) as [Hout | Hinx].
  { rewrite InsertTile_out_of_range in H by (left; exact Hout).
    injection H as <-. cbn. repeat split. intros pos. left. split; reflexivity. }
  destruct (Z.le_gt_cases (m_height (buf w)) (add64 y 7)) as [Hout | Hiny].
  { rewrite InsertTile_out_of_range in H by (right; exact Hout).
    injection H as <-. cbn. repeat split. intros pos. left. split; reflexivity. }
  rewrite InsertTile_in_range in H by lia.
  destruct (blit _ _ _ _ _ _ _) as [m' |] eqn:Hblit; [| discriminate].
  injection H as <-. cbn.
  destruct (blit_length _ _ _ _ _ _ _ _ Hblit) as [H1 H2].
  split; [reflexivity |]. split; [reflexivity |].
  split; [exact H1 |]. split; [exact H2 |].
  intros pos. exact (blit_pointwise _ _ _ _ _ _ _ _ pos Hblit).
Qed.

(** A relation between the buffer before and after a call that is
    reflexive and transitive holds across [InsertBlock] as soon as it holds
    across [InsertTile] for the four tiles. *)
Lemma InsertBlock_by_tiles (R : ImageBuffer -> ImageBuffer -> Prop)
    x y p block tileset w w' :
  (forall b, R b b) ->
  (forall b1 b2 b3, R b1 b2 -> R b2 b3 -> R b1 b3) ->
  (forall x' y' n w1 w2,
     0 <= n <= 3 ->
     InsertTile x' y' p (block_getTile block n) tileset w1 = Some (tt, w2) ->
     R (buf w1) (buf w2)) ->
  InsertBlock x y p block tileset w = Some (tt, w') ->
  R (buf w) (buf w').
Proof.
  intros Hrefl Htrans Htile H. rewrite InsertBlock_unfold in H.
  destruct (_ <? _).
  - unfold four_InsertTile in H.
    apply bind_Some in H as ([] & w1 & H1 & H).
    apply bind_Some in H as ([] & w2 & H2 & H).
    apply bind_Some in H as ([] & w3 & H3 & H4).
    apply Htile in H1, H2, H3, H4; try lia. eauto.
  - injection H as <-. apply Hrefl.
Qed.

Lemma same_shape_sizes b b' :
  same_shape b b' -> raster_sizes_ok b -> raster_sizes_ok b'.
Proof.
  intros (Hw & Hh & Hp & Hq) [H1 H2]. unfold raster_sizes_ok.
  rewrite Hw, Hh, Hp, Hq. split; assumption.
Qed.

Lemma mul64_nonneg a b : 0 <= mul64 a b.
Proof. apply size_t_range. Qed.

Lemma assign_sizes width height :
  Z.of_nat (length (assign (mul64 width height))) = mul64 width height.
Proof.
  unfold assign. rewrite length_replicate.
  pose proof (mul64_nonneg width height). lia.
Qed.

Lemma constructed_sizes b : constructed b -> raster_sizes_ok b.
Proof.
  intros [| width height]; unfold raster_sizes_ok; cbn.
  - split; reflexivity.
  - split; [reflexivity | apply assign_sizes].
Qed.

Lemma run_op_sizes o w w' :
  run_op o w = Some (tt, w') ->
  raster_sizes_ok (buf w) -> raster_sizes_ok (buf w').
Proof.
  destruct o as [| width height | x y p tile tileset | x y p block tileset
                 | pals | pals lo hi | lib ok name pals];
    cbn [run_op]; intros H Hok.
  - injection H as <-. destruct Hok as [H1 H2]. unfold raster_sizes_ok; cbn.
    unfold fill0. rewrite !length_replicate. split; assumption.
  - injection H as <-. unfold raster_sizes_ok; cbn.
    split; [reflexivity | apply assign_sizes].
  - apply InsertTile_effect in H as (Hw & Hh & Hp & Hq & _).
    apply (same_shape_sizes (buf w)); [| exact Hok]. repeat split; assumption.
  - apply (same_shape_sizes (buf w)); [| exact Hok].
    apply (InsertBlock_by_tiles same_shape x y p block tileset w w');
      [| | | exact H].
    + intros b. repeat split; reflexivity.
    + intros b1 b2 b3 (Ha & Hb & Hc & Hd) (Ha' & Hb' & Hc' & Hd').
      repeat split; congruence.
    + intros x' y' n w1 w2 _ Ht.
      apply InsertTile_effect in Ht as (Hw & Hh & Hp & Hq & _).
      repeat split; assumption.
  - apply bind_Some in H as (rgb & w1 & H1 & H2). injection H2 as <-.
    unfold GetRGB, bind, get_buf in H1.
    destruct (GetRGB_loop _ _ _ _); [| discriminate].
    injection H1 as _ <-. exact Hok.
  - apply bind_Some in H as (alpha & w1 & H1 & H2). injection H2 as <-.
    unfold GetAlpha, bind, get_buf in H1.
    destruct (GetAlpha_loop _ _ _ _ _ _ _ _); [| discriminate].
    injection H1 as _ <-. exact Hok.
  - apply bind_Some in H as (r & w1 & H1 & H2). injection H2 as <-.
    unfold WritePNG, bind, get_buf in H1.
    destruct lib; try discriminate;
      (destruct (WritePNG_tables _ _ _); [| discriminate]);
      destruct ok; try discriminate;
      try (destruct (WritePNG_rows _ _ _ _ _); [| discriminate]);
      injection H1 as _ <-; exact Hok.
Qed.

Lemma run_ops_sizes ops : forall w w',
  run_ops ops w = Some (tt, w') ->
  raster_sizes_ok (buf w) -> raster_sizes_ok (buf w').
Proof.
  induction ops as [| o rest IH]; intros w w' H Hok.
  - injection H as <-. exact Hok.
  - cbn [run_ops] in H. apply bind_Some in H as ([] & w1 & H1 & H2).
    eapply IH; [exact H2 |]. eapply run_op_sizes; eassumption.
Qed.

(** C8. After a constructor and after every call of [Clear], [Resize],
    [InsertTile], [InsertBlock], [GetRGB], [GetAlpha] and [WritePNG] that
    follows it, the priority raster is as long as the pixel raster, and
    that length is the product of the current width and height (the
    product the code computes, which is the product of the integers when
    that fits [size_t]). *)
Theorem rasters_same_size :
  forall b0 log0 files0 ops w',
    constructed b0 ->
    run_ops ops {| buf := b0; debug_log := log0; files := files0 |}
    = Some (tt, w') ->
    length (m_priority (buf w')) = length (m_pixels (buf w')) /\
    Z.of_nat (length (m_pixels (buf w')))
    = mul64 (m_width (buf w')) (m_height (buf w')) /\
    (0 <= m_width (buf w') * m_height (buf w') < 2 ^ 64 ->
     Z.of_nat (length (m_pixels (buf w')))
     = m_width (buf w') * m_height (buf w') /\
     Z.of_nat (length (m_priority (buf w')))
     = m_width (buf w') * m_height (buf w')).
Proof.
  intros b0 log0 files0 ops w' Hctor Hrun.
  apply run_ops_sizes in Hrun; [| cbn; apply constructed_sizes; exact Hctor].
  destruct Hrun as [H1 H2]. split; [exact H1 |]. split; [exact H2 |].
  intros Hfit. rewrite H1, H2, mul64_small by exact Hfit.
  split; reflexivity.
Qed.

Lemma rasters_same_size_witness :
  exists w',
    run_ops [OpResize 24 16;
             OpInsertTile 0 0 2 high_tile solid_tileset;
             OpInsertBlock 8 0 1 solid_block window_tileset;
             OpInsertTile 20 0 2 high_tile solid_tileset;
             OpGetRGB [grey_palette; grey_palette; grey_palette];
             OpGetAlpha [grey_palette; grey_palette; grey_palette] 128 255;
             OpWritePNG PngNoError true "map.png" [grey_palette];
             OpClear]
      {| buf := ImageBuffer_default; debug_log := []; files := [] |}
    = Some (tt, w') /\
    length (m_priority (buf w')) = length (m_pixels (buf w')) /\
    length (m_pixels (buf w')) = 384%nat.
Proof.
  eexists. split; [vm_compute; reflexivity |].
  match goal with
  | |- context [buf ?w] =>
    destruct (rasters_same_size ImageBuffer_default [] []
      [OpResize 24 16;
       OpInsertTile 0 0 2 high_tile solid_tileset;
       OpInsertBlock 8 0 1 solid_block window_tileset;
       OpInsertTile 20 0 2 high_tile solid_tileset;
       OpGetRGB [grey_palette; grey_palette; grey_palette];
       OpGetAlpha [grey_palette; grey_palette; grey_palette] 128 255;
       OpWritePNG PngNoError true "map.png" [grey_palette];
       OpClear] w constructed_default) as (H1 & H2 & H3)
  end.
  - vm_compute. reflexivity.
  - split; [exact H1 |]. reflexivity.
Defined.

(** ** Drawn pixels and the priority raster *)

(** The low nibble of a stored pixel is the source pixel. *)
Lemma stored_pixel_low_nibble p t :
  0 <= t <= 15 -> Z.land (u8 (Z.lor t (u8 (Z.shiftl p 4)))) 15 = t.
Proof.
  intros Ht. unfold u8. change 256 with (2 ^ 8).
  rewrite <- !Z.land_ones by lia.
  change 15 with (Z.ones 4).
  rewrite <- !Z.land_assoc.
  change (Z.land (Z.ones 8) (Z.ones 4)) with (Z.ones 4).
  rewrite Z.land_lor_distr_l.
  rewrite <- Z.land_assoc.
  change (Z.land (Z.ones 8) (Z.ones 4)) with (Z.ones 4).
  rewrite !Z.land_ones by lia.
  rewrite Z.shiftl_mul_pow2 by lia.
  rewrite Z_mod_mult, Z.lor_0_r.
  apply Z.mod_small. lia.
Qed.

Lemma blank_zero_means_low_priority b :
  Forall (eq 0) (m_pixels b) -> Forall (eq 0) (m_priority b) ->
  zero_means_low_priority b.
Proof.
  intros Hp Hq pos pixel pri Hpixel Hpri. left.
  rewrite Forall_forall in Hp, Hq. split; symmetry.
  - apply Hp. eapply list_elem_of_lookup_2. exact Hpixel.
  - apply Hq. eapply list_elem_of_lookup_2. exact Hpri.
Qed.

Lemma replicate_all_zero n : Forall (eq 0) (replicate n 0).
Proof. apply Forall_replicate. reflexivity. Qed.

Lemma fresh_zero_means_low_priority b : fresh b -> zero_means_low_priority b.
Proof.
  intros [| width height | w w' Hclear].
  - intros pos pixel pri H. cbn in H. rewrite lookup_nil in H. discriminate.
  - apply blank_zero_means_low_priority; apply replicate_all_zero.
  - injection Hclear as <-.
    apply blank_zero_means_low_priority; apply replicate_all_zero.
Qed.

Lemma InsertTile_zero_means_low_priority x y p tile tileset w w' :
  four_bit (getTile tileset tile) ->
  InsertTile x y p tile tileset w = Some (tt, w') ->
  zero_means_low_priority (buf w) -> zero_means_low_priority (buf w').
Proof.
  intros Hbits H Hinv pos pixel pri Hpixel Hpri.
  apply InsertTile_effect in H as (_ & _ & _ & _ & Hpt).
  destruct (Hpt pos) as [[H1 H2] | (t & Hin & Hnz & H1 & H2)].
  - rewrite H1 in Hpixel. rewrite H2 in Hpri. eapply Hinv; eassumption.
  - right. rewrite H1 in Hpixel. injection Hpixel as <-.
    unfold four_bit in Hbits. rewrite Forall_forall in Hbits.
    rewrite stored_pixel_low_nibble; [exact Hnz |].
    apply Hbits. apply list_elem_of_In. exact Hin.
Qed.

Lemma run_op_zero_means_low_priority o w w' :
  draws_four_bit o ->
  run_op o w = Some (tt, w') ->
  zero_means_low_priority (buf w) -> zero_means_low_priority (buf w').
Proof.
  destruct o as [| width height | x y p tile tileset | x y p block tileset
                 | pals | pals lo hi | ok name pals];
    cbn [run_op draws_four_bit]; intros Hbits H Hinv; try contradiction.
  - injection H as <-. cbn.
    apply blank_zero_means_low_priority; apply replicate_all_zero.
  - injection H as <-. cbn.
    apply blank_zero_means_low_priority; apply replicate_all_zero.
  - eapply InsertTile_zero_means_low_priority; eassumption.
  - revert Hinv.
    apply (InsertBlock_by_tiles
             (fun b b' => zero_means_low_priority b -> zero_means_low_priority b')
             x y p block tileset w w'); [| | | exact H].
    + intros b Hb. exact Hb.
    + intros b1 b2 b3 H12 H23 Hb. apply H23, H12, Hb.
    + intros x' y' n w1 w2 Hn Ht.
      eapply InsertTile_zero_means_low_priority; [apply Hbits, Hn | exact Ht].
Qed.

(** C10. From a buffer as a constructor or [Clear] leaves it, after every
    sequence of calls of [Clear], [Resize], [InsertTile] and [InsertBlock]
    whose bitmaps hold values from 0 to 15 only, every position holds
    either pixel 0 with priority 0 or a pixel whose low nibble is not zero;
    so a position whose pixel byte is 0 has priority byte 0. *)
Theorem zero_pixel_has_low_priority :
  forall ops w w',
    fresh (buf w) ->
    Forall draws_four_bit ops ->
    run_ops ops w = Some (tt, w') ->
    zero_means_low_priority (buf w') /\
    forall (pos : nat) pri,
      m_pixels (buf w') !! pos = Some 0 ->
      m_priority (buf w') !! pos = Some pri ->
      pri = 0.
Proof.
  intros ops w w' Hfresh Hops Hrun.
  assert (Hinv : zero_means_low_priority (buf w')).
  { apply fresh_zero_means_low_priority in Hfresh.
    revert w Hfresh Hrun.
    induction Hops as [| o rest Ho Hrest IH]; intros w Hinv Hrun.
    - injection Hrun as <-. exact Hinv.
    - cbn [run_ops] in Hrun. apply bind_Some in Hrun as ([] & w1 & H1 & H2).
      apply (IH w1); [| exact H2].
      eapply run_op_zero_means_low_priority; eassumption. }
  split; [exact Hinv |].
  intros pos pri Hpixel Hpri.
  destruct (Hinv pos 0 pri Hpixel Hpri) as [[_ Hz] | Hnz]; [exact Hz |].
  exfalso. apply Hnz. reflexivity.
Qed.

Lemma zero_pixel_has_low_priority_witness :
  exists w',
    run_ops [OpInsertBlock 0 0 1 solid_block window_tileset;
             OpInsertTile 8 8 2 high_tile solid_tileset]
      (new_world 16 16) = Some (tt, w') /\
    m_pixels (buf w') !! 16%nat = Some 19 /\
    m_pixels (buf w') !! 0%nat = Some 0 /\
    zero_means_low_priority (buf w').
Proof.
  eexists. split; [vm_compute; reflexivity |].
  split; [reflexivity |]. split; [reflexivity |].
  apply (zero_pixel_has_low_priority
           [OpInsertBlock 0 0 1 solid_block window_tileset;
            OpInsertTile 8 8 2 high_tile solid_tileset]
           (new_world 16 16)).
  - apply fresh_new.
  - constructor; [| constructor; [| constructor]].
    + intros n _. apply Forall_app. split; apply Forall_replicate; lia.
    + apply Forall_replicate. lia.
  - vm_compute. reflexivity.
Defined.

(** ** The isometric transform *)

Lemma size_t_idem a : size_t (size_t a) = size_t a.
Proof. unfold size_t. apply Z.mod_mod. unfold size_mod. lia. Qed.

Lemma size_t_add_l a b : size_t (size_t a + b) = size_t (a + b).
Proof. unfold size_t. apply Zplus_mod_idemp_l. Qed.

Lemma size_t_add_r a b : size_t (a + size_t b) = size_t (a + b).
Proof. unfold size_t. apply Zplus_mod_idemp_r. Qed.

Lemma size_t_sub_l a b : size_t (size_t a - b) = size_t (a - b).
Proof. unfold size_t. apply Zminus_mod_idemp_l. Qed.

Lemma size_t_sub_r a b : size_t (a - size_t b) = size_t (a - b).
Proof. unfold size_t. apply Zminus_mod_idemp_r. Qed.

Lemma size_t_mul_l a b : size_t (size_t a * b) = size_t (a * b).
Proof. unfold size_t. apply Zmult_mod_idemp_l. Qed.

Lemma size_t_mul_r a b : size_t (a * size_t b) = size_t (a * b).
Proof. unfold size_t. apply Zmult_mod_idemp_r. Qed.

Lemma size_t_mul_add_l a b c : size_t (size_t a * b + c) = size_t (a * b + c).
Proof. rewrite <- size_t_add_l, size_t_mul_l, size_t_add_l. reflexivity. Qed.

Ltac size_norm :=
  unfold add64, sub64, mul64;
  repeat first
    [ rewrite size_t_add_l | rewrite size_t_add_r
    | rewrite size_t_sub_l | rewrite size_t_sub_r
    | rewrite size_t_mul_l | rewrite size_t_mul_r
    | rewrite size_t_mul_add_l | rewrite size_t_idem ].

(** [to_int] depends on the low 32 bits only. *)
Lemma to_int_congr a b : a mod 2 ^ 32 = b mod 2 ^ 32 -> to_int a = to_int b.
Proof. intros H. unfold to_int, int_mod. rewrite H. reflexivity. Qed.

Lemma to_int_size_t a : to_int (size_t a) = to_int a.
Proof.
  apply to_int_congr. unfold size_t, size_mod.
  change (2 ^ 64) with (2 ^ 32 * 2 ^ 32).
  rewrite Z.rem_mul_r by lia.
  rewrite Z.add_mod, Z.mul_comm, Z_mod_mult, Z.add_0_r, !Z.mod_mod by lia.
  reflexivity.
Qed.

(** Halving after the wrap-around of [size_t] agrees with halving before it
    on the low 32 bits. *)
Lemma half_size_t_low_bits n : (size_t n / 2) mod 2 ^ 32 = (n / 2) mod 2 ^ 32.
Proof.
  unfold size_t, size_mod.
  rewrite (Z.div_mod n (2 ^ 64)) at 2 by lia.
  replace (2 ^ 64 * (n / 2 ^ 64) + n mod 2 ^ 64)
    with (n mod 2 ^ 64 + (2 ^ 63 * (n / 2 ^ 64)) * 2) by lia.
  rewrite Z.div_add by lia.
  replace (2 ^ 63 * (n / 2 ^ 64)) with ((2 ^ 31 * (n / 2 ^ 64)) * 2 ^ 32) by lia.
  rewrite Z.mod_add by lia. reflexivity.
Qed.

Lemma ToXYPoint3D_y TILEWIDTH TILEHEIGHT bm x y z :
  pt_y (ToXYPoint3D TILEWIDTH TILEHEIGHT bm (mkTilePoint3D x y z))
  = to_int ((x + y - 2 * z) * TILEHEIGHT / 2 + bm_top bm).
Proof.
  unfold ToXYPoint3D. cbn [pt_y tp3_x tp3_y tp3_z].
  size_norm. rewrite to_int_size_t.
  apply to_int_congr.
  rewrite Z.add_mod, half_size_t_low_bits, <- Z.add_mod by lia.
  replace (x + y - z * 2) with (x + y - 2 * z) by lia. reflexivity.
Qed.

(** C9. The horizontal screen coordinate of [ToXYPoint3D] at (x, y, z) is
    that of [ToXYPoint] at (x, y), whatever [z] is, and its vertical screen
    coordinate is [(x + y - 2 * z) * TILEHEIGHT / 2 + top], converted to
    [int]: that very number when it is in the range of [int]. *)
Theorem ToXYPoint3D_elevation :
  forall TILEWIDTH TILEHEIGHT bm x y z,
    pt_x (ToXYPoint3D TILEWIDTH TILEHEIGHT bm (mkTilePoint3D x y z))
    = pt_x (ToXYPoint TILEWIDTH TILEHEIGHT bm (mkTilePoint x y)) /\
    pt_y (ToXYPoint3D TILEWIDTH TILEHEIGHT bm (mkTilePoint3D x y z))
    = to_int ((x + y - 2 * z) * TILEHEIGHT / 2 + bm_top bm) /\
    (- 2 ^ 31 <= (x + y - 2 * z) * TILEHEIGHT / 2 + bm_top bm < 2 ^ 31 ->
     pt_y (ToXYPoint3D TILEWIDTH TILEHEIGHT bm (mkTilePoint3D x y z))
     = (x + y - 2 * z) * TILEHEIGHT / 2 + bm_top bm).
Proof.
  intros TILEWIDTH TILEHEIGHT bm x y z.
  split; [reflexivity |]. split; [apply ToXYPoint3D_y |].
  intros Hfit. rewrite ToXYPoint3D_y. apply to_int_small. exact Hfit.
Qed.

Lemma ToXYPoint3D_elevation_witness :
  pt_x (ToXYPoint3D 16 16 (BlockmapIsometric_new 10 10 0 0 0)
          (mkTilePoint3D 3 4 5))
  = pt_x (ToXYPoint 16 16 (BlockmapIsometric_new 10 10 0 0 0) (mkTilePoint 3 4))
  /\
  pt_y (ToXYPoint3D 16 16 (BlockmapIsometric_new 10 10 0 0 0)
          (mkTilePoint3D 3 4 5)) = -24.
Proof.
  destruct (ToXYPoint3D_elevation 16 16 (BlockmapIsometric_new 10 10 0 0 0)
              3 4 5) as (Hx & _ & Hy).
  split; [exact Hx |]. rewrite Hy; [reflexivity |].
  vm_compute. split; [discriminate | reflexivity].
Defined.

Lemma div_interval a b q : 0 < b -> q * b <= a < (q + 1) * b -> a / b = q.
Proof.
  intros Hb Ha. symmetry. apply (Z.div_unique_pos a b q (a - q * b)); lia.
Qed.

Section RoundTrip.

Variables TILEWIDTH TILEHEIGHT : Z.
Variable bm : Blockmap2D.
Variables tx ty : Z.

Hypothesis TILEWIDTH_pos : 0 < TILEWIDTH.
Hypothesis TILEHEIGHT_pos : 0 < TILEHEIGHT.
Hypothesis TILEHEIGHT_even : Z.even TILEHEIGHT = true.
Hypothesis tx_in_grid : 0 <= tx.
Hypothesis ty_in_grid : 0 <= ty < bm_height bm.
Hypothesis left_nonneg : 0 <= bm_left bm.
Hypothesis top_nonneg : 0 <= bm_top bm.
Hypothesis fits : projection_fits_int TILEWIDTH TILEHEIGHT bm (mkTilePoint tx ty).

Local Abbreviation half := (TILEHEIGHT / 2).

Lemma TILEHEIGHT_half : TILEHEIGHT = 2 * half /\ 0 < half.
Proof.
  apply Z.even_spec in TILEHEIGHT_even as [h Hh].
  assert (TILEHEIGHT / 2 = h) by (rewrite Hh, Z.mul_comm; apply Z.div_mul; lia).
  lia.
Qed.

Lemma fits_bounds :
  (tx - ty + bm_height bm) * TILEWIDTH + bm_left bm <= 2 ^ 31 /\
  (tx + ty + 2) * half + bm_top bm <= 2 ^ 31 /\
  2 * tx + bm_height bm < 2 ^ 31 /\ 2 * ty + 1 < 2 ^ 31.
Proof.
  destruct fits as (H1 & H2 & H3 & H4). cbn [tp_x tp_y] in *.
  destruct TILEHEIGHT_half as [Heq Hpos].
  repeat split; try assumption.
  rewrite Heq in H2 at 1.
  replace ((tx + ty + 2) * (2 * half)) with ((tx + ty + 2) * half * 2) in H2 by lia.
  rewrite Z.div_mul in H2 by lia. exact H2.
Qed.

Lemma ToXYPoint_value :
  ToXYPoint TILEWIDTH TILEHEIGHT bm (mkTilePoint tx ty)
  = {| pt_x := (tx - ty + bm_height bm - 1) * TILEWIDTH + bm_left bm;
       pt_y := (tx + ty) * half + bm_top bm |}.
Proof.
  destruct fits_bounds as (H1 & H2 & H3 & H4).
  destruct TILEHEIGHT_half as [Heq Hpos].
  assert (0 <= (tx - ty + bm_height bm - 1) * TILEWIDTH)
    by (apply Z.mul_nonneg_nonneg; lia).
  assert (0 <= (tx + ty) * half) by (apply Z.mul_nonneg_nonneg; lia).
  unfold ToXYPoint. cbn [tp_x tp_y]. f_equal.
  - size_norm. rewrite to_int_size_t.
    replace ((tx - ty + (bm_height bm - 1)) * TILEWIDTH + bm_left bm)
      with ((tx - ty + bm_height bm - 1) * TILEWIDTH + bm_left bm) by lia.
    apply to_int_small. lia.
  - unfold add64 at 1. rewrite to_int_size_t.
    unfold add64, mul64.
    rewrite (size_t_small (tx + ty)) by lia.
    rewrite Heq at 1.
    replace ((tx + ty) * (2 * half)) with ((tx + ty) * half * 2) by lia.
    rewrite size_t_small by lia.
    rewrite Z.div_mul by lia.
    apply to_int_small. lia.
Qed.

Lemma XYToTilePoint_in_footprint p :
  in_footprint TILEWIDTH TILEHEIGHT
    (ToXYPoint TILEWIDTH TILEHEIGHT bm (mkTilePoint tx ty)) p ->
  XYToTilePoint TILEWIDTH TILEHEIGHT bm p = mkTilePoint tx ty.
Proof.
  rewrite ToXYPoint_value. unfold in_footprint. cbn [pt_x pt_y].
  destruct p as [px py]. cbn [pt_x pt_y]. intros [Hpx Hpy].
  destruct fits_bounds as (H1 & H2 & H3 & H4).
  destruct TILEHEIGHT_half as [Heq Hpos].
  set (H := bm_height bm) in *. set (L := bm_left bm) in *.
  set (T := bm_top bm) in *.
  assert (Hgx0 : 0 <= (tx - ty + H - 1) * TILEWIDTH)
    by (apply Z.mul_nonneg_nonneg; lia).
  assert (Hgy0 : 0 <= (tx + ty) * half) by (apply Z.mul_nonneg_nonneg; lia).
  assert (Hgxlt : tx - ty + H - 1 < 2 ^ 31) by nia.
  assert (Hgylt : tx + ty + 2 <= 2 ^ 31) by nia.
  (* the column of the grid *)
  assert (Hxgrid : to_int (sub64 px L / TILEWIDTH) = tx - ty + H - 1).
  { unfold sub64. rewrite size_t_small by lia.
    rewrite (div_interval (px - L) TILEWIDTH (tx - ty + H - 1)) by lia.
    apply to_int_small. lia. }
  (* the row of the grid: the upper or the lower half of the box *)
  assert (Hygrid : exists e, 0 <= e <= 1 /\
            to_int (mul64 2 (sub64 py T) / TILEHEIGHT) = tx + ty + e).
  { unfold mul64, sub64. rewrite (size_t_small (py - T)) by lia.
    rewrite size_t_small by lia.
    destruct (Z.lt_ge_cases (py - T) ((tx + ty) * half + half)) as [Hup | Hlow].
    - exists 0. split; [lia |].
      rewrite (div_interval (2 * (py - T)) TILEHEIGHT (tx + ty)) by lia.
      rewrite to_int_small by lia. lia.
    - exists 1. split; [lia |].
      rewrite (div_interval (2 * (py - T)) TILEHEIGHT (tx + ty + 1)) by lia.
      apply to_int_small. lia. }
  destruct Hygrid as (e & He & Hygrid).
  unfold XYToTilePoint. cbn [pt_x pt_y]. fold H L T.
  rewrite Hxgrid, Hygrid. unfold int_add, int_sub.
  rewrite !to_int_small by lia.
  unfold add64, sub64. f_equal.
  - rewrite size_t_add_l.
    rewrite (size_t_small (tx + ty + e + (tx - ty + H - 1) - H + 1)) by lia.
    rewrite (div_interval _ 2 tx) by lia.
    apply size_t_small. lia.
  - rewrite size_t_sub_l.
    rewrite (size_t_small (tx + ty + e - (tx - ty + H - 1) + H - 1)) by lia.
    rewrite (div_interval _ 2 ty) by lia.
    apply size_t_small. lia.
Qed.

End RoundTrip.

(** C3. For a tile (tx, ty) of the grid ([0 <= tx], [0 <= ty < height]) of
    a map with an even tile height whose projected box is in the range of
    [int], [XYToTilePoint] of [ToXYPoint] of the tile is the tile, and so is
    [XYToTilePoint] of every point of the tile's screen footprint, the box
    of [TILEWIDTH] by [TILEHEIGHT] pixels at the projected point. *)
Theorem XYToTilePoint_inverts_ToXYPoint :
  forall TILEWIDTH TILEHEIGHT bm tx ty,
    0 < TILEWIDTH -> 0 < TILEHEIGHT -> Z.even TILEHEIGHT = true ->
    0 <= tx -> 0 <= ty < bm_height bm ->
    0 <= bm_left bm -> 0 <= bm_top bm ->
    projection_fits_int TILEWIDTH TILEHEIGHT bm (mkTilePoint tx ty) ->
    XYToTilePoint TILEWIDTH TILEHEIGHT bm
      (ToXYPoint TILEWIDTH TILEHEIGHT bm (mkTilePoint tx ty))
    = mkTilePoint tx ty /\
    forall p,
      in_footprint TILEWIDTH TILEHEIGHT
        (ToXYPoint TILEWIDTH TILEHEIGHT bm (mkTilePoint tx ty)) p ->
      XYToTilePoint TILEWIDTH TILEHEIGHT bm p = mkTilePoint tx ty.
Proof.
  intros TW TH bm tx ty HTW HTH Heven Htx Hty Hleft Htop Hfits.
  split.
  - apply XYToTilePoint_in_footprint; try assumption.
    unfold in_footprint. lia.
  - intros p. apply XYToTilePoint_in_footprint; assumption.
Qed.

Lemma XYToTilePoint_inverts_ToXYPoint_witness :
  XYToTilePoint 16 16 (BlockmapIsometric_new 10 10 0 0 0)
    (ToXYPoint 16 16 (BlockmapIsometric_new 10 10 0 0 0) (mkTilePoint 3 4))
  = mkTilePoint 3 4 /\
  XYToTilePoint 16 16 (BlockmapIsometric_new 10 10 0 0 0) (mkPoint 143 71)
  = mkTilePoint 3 4.
Proof.
  destruct (XYToTilePoint_inverts_ToXYPoint 16 16
              (BlockmapIsometric_new 10 10 0 0 0) 3 4) as [Hround Hbox].
  - lia.
  - lia.
  - reflexivity.
  - lia.
  - cbn. lia.
  - cbn. lia.
  - cbn. lia.
  - unfold projection_fits_int. vm_compute.
    repeat split; try discriminate; reflexivity.
  - split; [exact Hround |]. apply Hbox.
    unfold in_footprint. vm_compute.
    repeat split; try discriminate; reflexivity.
Defined.

(** The canvas of a 10 by 10 grid of 16 by 16 tiles. *)
Example canvas_size_10_by_10 :
  GetBitmapWidth 16 (BlockmapIsometric_new 10 10 0 0 0) = 320 /\
  GetBitmapHeight 16 (BlockmapIsometric_new 10 10 0 0 0) = 168.
Proof. split; reflexivity. Qed.

(** ** The buffer as a grid of pixels *)

Lemma pixel_index_inj b c1 r1 c2 r2 :
  0 <= c1 < m_width b -> 0 <= c2 < m_width b -> 0 <= r1 -> 0 <= r2 ->
  pixel_index b c1 r1 = pixel_index b c2 r2 -> c1 = c2 /\ r1 = r2.
Proof.
  intros Hc1 Hc2 Hr1 Hr2 Heq. unfold pixel_index in Heq.
  assert (0 <= r1 * m_width b) by (apply Z.mul_nonneg_nonneg; lia).
  assert (0 <= r2 * m_width b) by (apply Z.mul_nonneg_nonneg; lia).
  assert (Hz : r1 * m_width b + c1 = r2 * m_width b + c2) by lia.
  assert (r1 = r2) by nia. subst r2. lia.
Qed.

Lemma pixel_index_cover b (pos : nat) :
  buffer_wf b -> (pos < length (m_pixels b))%nat ->
  exists c r, 0 <= c < m_width b /\ 0 <= r < m_height b /\
              pos = pixel_index b c r.
Proof.
  intros (Hw & Hh & _ & Hlp & _) Hpos.
  assert (Hwpos : 0 < m_width b) by nia.
  exists (Z.of_nat pos mod m_width b), (Z.of_nat pos / m_width b).
  pose proof (Z.mod_pos_bound (Z.of_nat pos) (m_width b) Hwpos).
  pose proof (Z.div_mod (Z.of_nat pos) (m_width b) ltac:(lia)) as Hdm.
  assert (0 <= Z.of_nat pos / m_width b) by (apply Z.div_pos; lia).
  split; [lia |]. split.
  - split; [lia |]. apply Z.div_lt_upper_bound; [lia |]. nia.
  - unfold pixel_index. rewrite (Z.mul_comm (_ / _)), <- Hdm. lia.
Qed.

Lemma pixel_index_lt b c r :
  buffer_wf b -> 0 <= c < m_width b -> 0 <= r < m_height b ->
  (pixel_index b c r < length (m_pixels b))%nat /\
  (pixel_index b c r < length (m_priority b))%nat.
Proof.
  intros (Hw & Hh & _ & Hlp & Hlq) Hc Hr. unfold pixel_index.
  assert ((r + 1) * m_width b <= m_height b * m_width b)
    by (apply Z.mul_le_mono_nonneg_r; lia).
  assert (0 <= r * m_width b) by (apply Z.mul_nonneg_nonneg; lia).
  lia.
Qed.

(** Two rasters of a buffer that agree at every column and row are equal. *)
Lemma raster_ext b (l1 l2 : list Z) :
  buffer_wf b ->
  length l1 = length (m_pixels b) -> length l2 = length (m_pixels b) ->
  (forall c r, 0 <= c < m_width b -> 0 <= r < m_height b ->
     l1 !! pixel_index b c r = l2 !! pixel_index b c r) ->
  l1 = l2.
Proof.
  intros Hwf H1 H2 Hpt. apply list_eq. intros pos.
  destruct (Nat.lt_ge_cases pos (length (m_pixels b))) as [Hlt | Hge].
  - destruct (pixel_index_cover b pos Hwf Hlt) as (c & r & Hc & Hr & ->).
    apply Hpt; assumption.
  - rewrite !lookup_ge_None_2 by lia. reflexivity.
Qed.

Lemma source_raw_inside tile_bits x y c r :
  x <= c < x + 8 -> y <= r < y + 8 ->
  source_raw tile_bits x y c r
  = nth (Z.to_nat ((r - y) * 8 + (c - x))) tile_bits 0.
Proof.
  intros Hc Hr. unfold source_raw.
  destruct (Z.leb_spec x c), (Z.ltb_spec c (x + 8)),
           (Z.leb_spec y r), (Z.ltb_spec r (y + 8)); try lia. reflexivity.
Qed.

Lemma source_raw_outside tile_bits x y c r :
  ~ (x <= c < x + 8 /\ y <= r < y + 8) -> source_raw tile_bits x y c r = 0.
Proof.
  intros Hout. unfold source_raw.
  destruct (Z.leb_spec x c), (Z.ltb_spec c (x + 8)),
           (Z.leb_spec y r), (Z.ltb_spec r (y + 8)); try reflexivity. lia.
Qed.

(** What a call inside the buffer leaves at every column and row: where the
    source value that lands there is 0 (also outside the footprint) the
    bytes of before, elsewhere the stored pixel and the priority. *)
Lemma InsertTile_inside x y p tile tileset w :
  buffer_wf (buf w) -> 0 <= x -> 0 <= y ->
  x + 7 < m_width (buf w) -> y + 7 < m_height (buf w) ->
  length (getTile tileset tile) = 64%nat ->
  exists px pr,
    InsertTile x y p tile tileset w
    = Some (tt, {| buf := set_rasters (buf w) (px, pr);
                   debug_log := debug_log w; files := files w |}) /\
    length px = length (m_pixels (buf w)) /\
    length pr = length (m_priority (buf w)) /\
    forall c r, 0 <= c < m_width (buf w) -> 0 <= r < m_height (buf w) ->
      if source_raw (getTile tileset tile) x y c r =? 0 then
        px !! pixel_index (buf w) c r = m_pixels (buf w) !! pixel_index (buf w) c r /\
        pr !! pixel_index (buf w) c r = m_priority (buf w) !! pixel_index (buf w) c r
      else
        px !! pixel_index (buf w) c r
        = Some (stored_pixel p (source_raw (getTile tileset tile) x y c r)) /\
        pr !! pixel_index (buf w) c r
        = Some (bool_u8 (getAttribute tile ATTR_PRIORITY)).
Proof.
  intros Hwf Hx Hy Hxw Hyh Hlen.
  pose proof Hwf as (Hw & Hh & Hfit & Hlp & Hlq).
  assert (Hwlt : m_width (buf w) < 2 ^ 64 /\ m_height (buf w) < 2 ^ 64)
    by (split; nia).
  rewrite InsertTile_in_range by (rewrite add64_small; lia).
  set (bo := add64 (mul64 y (m_width (buf w))) x).
  set (prio := bool_u8 (getAttribute tile ATTR_PRIORITY)).
  set (bits := getTile tileset tile) in *.
  assert (Hpos : forall k, 0 <= k < 64 ->
    blit_pos bo (m_width (buf w)) k
    = (y + k / 8) * m_width (buf w) + (x + k mod 8) /\
    0 <= (y + k / 8) * m_width (buf w) + (x + k mod 8)
      < m_width (buf w) * m_height (buf w)).
  { intros k Hk. subst bo. apply blit_pos_inside; assumption. }
  destruct (blit_defined bo (m_width (buf w)) (u8 (Z.shiftl p 4)) prio
              bits 0 (m_pixels (buf w), m_priority (buf w))) as [[px pr] Hm'].
  { intros k Hk. rewrite Hlen in Hk.
    destruct (Hpos k) as [-> Hr]; [lia |]. cbn. lia. }
  rewrite Hm'. exists px, pr. split; [reflexivity |].
  destruct (blit_length _ _ _ _ _ _ _ _ Hm') as [Hl1 Hl2]. cbn in Hl1, Hl2.
  split; [exact Hl1 |]. split; [exact Hl2 |].
  intros c r Hc Hr.
  assert (Hinside : (x <= c < x + 8 /\ y <= r < y + 8) \/
                    ~ (x <= c < x + 8 /\ y <= r < y + 8)) by lia.
  destruct Hinside as [[Hcx Hry] | Hout].
  2: { rewrite source_raw_outside by exact Hout. cbn.
       apply (blit_frame bo (m_width (buf w)) (u8 (Z.shiftl p 4)) prio
                bits 0 _ (px, pr) _ Hm').
       intros k Hk. rewrite Hlen in Hk.
       destruct (Hpos k) as [-> Hin]; [lia |].
       assert (0 <= k / 8 <= 7 /\ 0 <= k mod 8 <= 7)
         by (Z.to_euclidean_division_equations; lia).
       intros Heq.
       assert (Hsame : pixel_index (buf w) (x + k mod 8) (y + k / 8)
                       = pixel_index (buf w) c r).
       { apply Nat2Z.inj. rewrite <- Heq. unfold pixel_index. lia. }
       apply pixel_index_inj in Hsame; lia. }
  rewrite source_raw_inside by lia.
  set (k := (r - y) * 8 + (c - x)).
  assert (Hk : 0 <= k < 64) by (subst k; lia).
  assert (Hdm : k / 8 = r - y /\ k mod 8 = c - x)
    by (subst k; Z.to_euclidean_division_equations; lia).
  destruct (lookup_lt_is_Some_2 bits (Z.to_nat k)) as [raw Hraw]; [lia |].
  rewrite (nth_lookup_Some _ _ _ _ Hraw).
  pose proof (blit_exact bo (m_width (buf w)) (u8 (Z.shiftl p 4)) prio
                bits 0 _ _ Hm') as Hex.
  specialize (Hex
    ltac:(intros j Hj; rewrite Hlen in Hj; destruct (Hpos j) as [-> ?]; lia)
    ltac:(intros i j Hi Hj; rewrite Hlen in Hj; subst bo;
          apply blit_pos_inside_distinct; try assumption; lia)
    k raw ltac:(lia) ltac:(rewrite Z.sub_0_r; exact Hraw)).
  destruct (Hpos k Hk) as [Hpk _]. rewrite Hpk in Hex.
  destruct Hdm as [Hd Hm]. rewrite Hd, Hm in Hex.
  replace ((y + (r - y)) * m_width (buf w) + (x + (c - x)))
    with (r * m_width (buf w) + c) in Hex by lia.
  exact Hex.
Qed.

(** ** Series of tiles drawn inside the buffer *)

Lemma set_rasters_same b : set_rasters b (m_pixels b, m_priority b) = b.
Proof. destruct b. reflexivity. Qed.

Lemma top_layer_under ops c r : forall under,
  top_layer ops c r under
  = match top_layer ops c r None with Some l => Some l | None => under end.
Proof.
  induction ops as [| o rest IH]; intros under; [reflexivity |].
  destruct o; cbn [top_layer]; try apply IH.
  rewrite IH. rewrite (IH (if _ =? 0 then None else _)).
  destruct (top_layer rest c r None); [reflexivity |].
  destruct (_ =? 0); reflexivity.
Qed.

Lemma run_tiles_inside ops : forall w,
  buffer_wf (buf w) -> Forall (tile_inside (buf w)) ops ->
  exists px pr,
    run_ops ops w
    = Some (tt, {| buf := set_rasters (buf w) (px, pr);
                   debug_log := debug_log w; files := files w |}) /\
    length px = length (m_pixels (buf w)) /\
    length pr = length (m_priority (buf w)) /\
    forall c r, 0 <= c < m_width (buf w) -> 0 <= r < m_height (buf w) ->
      shows_layer (buf w) px pr c r (top_layer ops c r None).
Proof.
  induction ops as [| o rest IH]; intros w Hwf Hin.
  - exists (m_pixels (buf w)), (m_priority (buf w)).
    cbn. rewrite set_rasters_same. destruct w. cbn.
    repeat split; reflexivity.
  - apply Forall_cons in Hin as [Ho Hrest].
    destruct o as [| | x y p tile tileset | | | |]; try contradiction.
    destruct Ho as (Hx & Hy & Hxw & Hyh & Hlen).
    destruct (InsertTile_inside x y p tile tileset w Hwf Hx Hy Hxw Hyh Hlen)
      as (px1 & pr1 & Hrun1 & Hl1 & Hl2 & Hpt1).
    set (w1 := {| buf := set_rasters (buf w) (px1, pr1);
                  debug_log := debug_log w; files := files w |}) in *.
    assert (Hwf1 : buffer_wf (buf w1)).
    { destruct Hwf as (? & ? & ? & ? & ?). unfold buffer_wf. cbn.
      rewrite Hl1, Hl2. auto. }
    destruct (IH w1 Hwf1 Hrest) as (px & pr & Hrun & Hl1' & Hl2' & Hpt).
    exists px, pr. cbn [run_ops run_op]. unfold bind. rewrite Hrun1, Hrun.
    split; [reflexivity |]. cbn in Hl1', Hl2'.
    split; [congruence |]. split; [congruence |].
    intros c r Hc Hr. specialize (Hpt c r Hc Hr). specialize (Hpt1 c r Hc Hr).
    cbn [top_layer]. rewrite top_layer_under.
    unfold shows_layer in *. unfold pixel_index in *. cbn in Hpt.
    destruct (top_layer rest c r None) as [[pixel pri] |]; [exact Hpt |].
    destruct Hpt as [-> ->].
    destruct (_ =? 0); exact Hpt1.
Qed.

(** Two series of tiles with the same top layer everywhere leave the same
    state. *)
Lemma run_tiles_ext ops1 ops2 w :
  buffer_wf (buf w) ->
  Forall (tile_inside (buf w)) ops1 -> Forall (tile_inside (buf w)) ops2 ->
  (forall c r, 0 <= c < m_width (buf w) -> 0 <= r < m_height (buf w) ->
     top_layer ops1 c r None = top_layer ops2 c r None) ->
  run_ops ops1 w = run_ops ops2 w.
Proof.
  intros Hwf H1 H2 Htop.
  destruct (run_tiles_inside ops1 w Hwf H1) as (px1 & pr1 & -> & Ha1 & Hb1 & Hpt1).
  destruct (run_tiles_inside ops2 w Hwf H2) as (px2 & pr2 & -> & Ha2 & Hb2 & Hpt2).
  assert (Hlq : length (m_priority (buf w)) = length (m_pixels (buf w))).
  { destruct Hwf as (_ & _ & _ & ? & ?). lia. }
  assert (px1 = px2 /\ pr1 = pr2) as [-> ->]; [| reflexivity].
  split; apply (raster_ext (buf w)); try assumption; try congruence;
    intros c r Hc Hr; specialize (Hpt1 c r Hc Hr); specialize (Hpt2 c r Hc Hr);
    rewrite (Htop c r Hc Hr) in Hpt1; unfold shows_layer in *;
    destruct (top_layer ops2 c r None) as [[pixel pri] |];
    destruct Hpt1 as [Hp1 Hq1], Hpt2 as [Hp2 Hq2]; congruence.
Qed.

Lemma run_ops_one o w : run_ops [o] w = run_op o w.
Proof.
  cbn. unfold bind. destruct (run_op o w) as [[[] w'] |]; reflexivity.
Qed.

Lemma run_ops_two o1 o2 w :
  run_ops [o1; o2] w = (run_op o1 ;;; run_op o2)%method w.
Proof.
  cbn [run_ops]. unfold bind. destruct (run_op o1 w) as [[[] w1] |]; [| reflexivity].
  destruct (run_op o2 w1) as [[[] w2] |]; reflexivity.
Qed.

Lemma source_raw_nonzero tile_bits x y c r :
  source_raw tile_bits x y c r <> 0 -> x <= c < x + 8 /\ y <= r < y + 8.
Proof.
  intros Hnz.
  destruct (Z.le_gt_cases x c), (Z.lt_ge_cases c (x + 8)),
           (Z.le_gt_cases y r), (Z.lt_ge_cases r (y + 8));
    try (split; lia);
    exfalso; apply Hnz; apply source_raw_outside; lia.
Qed.

(** X1. A call of [InsertTile] inside the buffer changes no pixel and no
    priority byte outside the 8 by 8 footprint of the tile, and leaves the
    dimensions, the log and the files as they were. *)
Theorem InsertTile_keeps_outside_footprint :
  forall x y palette_index tile tileset w,
    buffer_wf (buf w) -> 0 <= x -> 0 <= y ->
    x + 7 < m_width (buf w) -> y + 7 < m_height (buf w) ->
    length (getTile tileset tile) = 64%nat ->
    exists w',
      InsertTile x y palette_index tile tileset w = Some (tt, w') /\
      m_width (buf w') = m_width (buf w) /\
      m_height (buf w') = m_height (buf w) /\
      debug_log w' = debug_log w /\ files w' = files w /\
      forall c r,
        0 <= c < m_width (buf w) -> 0 <= r < m_height (buf w) ->
        ~ (x <= c < x + 8 /\ y <= r < y + 8) ->
        m_pixels (buf w') !! pixel_index (buf w) c r
        = m_pixels (buf w) !! pixel_index (buf w) c r /\
        m_priority (buf w') !! pixel_index (buf w) c r
        = m_priority (buf w) !! pixel_index (buf w) c r.
Proof.
  intros x y p tile tileset w Hwf Hx Hy Hxw Hyh Hlen.
  destruct (InsertTile_inside x y p tile tileset w Hwf Hx Hy Hxw Hyh Hlen)
    as (px & pr & Hrun & _ & _ & Hpt).
  eexists. split; [exact Hrun |]. cbn.
  repeat (split; [reflexivity |]).
  intros c r Hc Hr Hout. specialize (Hpt c r Hc Hr).
  rewrite source_raw_outside in Hpt by exact Hout. exact Hpt.
Qed.

Lemma InsertTile_keeps_outside_footprint_witness :
  exists w',
    InsertTile 8 0 2 high_tile solid_tileset (new_world 24 16) = Some (tt, w') /\
    m_pixels (buf w') !! pixel_index (buf (new_world 24 16)) 7 0 = Some 0 /\
    m_pixels (buf w') !! pixel_index (buf (new_world 24 16)) 16 3 = Some 0.
Proof.
  destruct (InsertTile_keeps_outside_footprint 8 0 2 high_tile solid_tileset
              (new_world 24 16)) as (w' & Hrun & _ & _ & _ & _ & Hout).
  - unfold buffer_wf. cbn. repeat split; lia.
  - lia.
  - lia.
  - cbn. lia.
  - cbn. lia.
  - reflexivity.
  - exists w'. split; [exact Hrun |]. split.
    + destruct (Hout 7 0) as [-> _]; cbn; try lia. reflexivity.
    + destruct (Hout 16 3) as [-> _]; cbn; try lia. reflexivity.
Defined.

Lemma blit_transparent bo width pal prio bits : forall i m,
  Forall (eq 0) bits -> blit bits i bo width pal prio m = Some m.
Proof.
  induction bits as [| t rest IH]; intros i m Hz; [reflexivity |].
  apply Forall_cons in Hz as [<- Hz]. cbn. apply IH, Hz.
Qed.

(** X2. A bitmap of 64 zeros draws nothing. For a position whose sums
    [x + 7], [y + 7] do not wrap around, on a buffer whose rasters hold
    [W * H] bytes, the call returns and the buffer and the files are what
    they were; the log is what it was when the tile is inside the buffer,
    and has the out-of-range report as its one new entry when it is
    not. *)
Theorem InsertTile_transparent_tile :
  forall x y palette_index tile tileset w,
    buffer_wf (buf w) ->
    0 <= x -> 0 <= y -> x + 7 < 2 ^ 64 -> y + 7 < 2 ^ 64 ->
    getTile tileset tile = replicate 64 0 ->
    exists w',
      InsertTile x y palette_index tile tileset w = Some (tt, w') /\
      buf w' = buf w /\ files w' = files w /\
      debug_log w'
      = if (x + 7 <? m_width (buf w)) && (y + 7 <? m_height (buf w))
        then debug_log w
        else debug_log w ++
               [tile_out_of_range_msg x y (m_width (buf w)) (m_height (buf w))].
Proof.
  intros x y p tile tileset w _ Hx Hy Hxs Hys Hz.
  assert (Hx7 : add64 x 7 = x + 7) by (apply add64_small; lia).
  assert (Hy7 : add64 y 7 = y + 7) by (apply add64_small; lia).
  destruct (Z.ltb_spec (x + 7) (m_width (buf w))) as [Hinx | Hout].
  - destruct (Z.ltb_spec (y + 7) (m_height (buf w))) as [Hiny | Hout].
    + rewrite InsertTile_in_range by lia.
      rewrite blit_transparent
        by (rewrite Hz; apply Forall_replicate; reflexivity).
      eexists. split; [reflexivity |]. cbn.
      split; [apply set_rasters_same |]. split; reflexivity.
    + rewrite InsertTile_out_of_range by (right; lia).
      eexists. repeat split; reflexivity.
  - rewrite InsertTile_out_of_range by (left; lia).
    eexists. repeat split; reflexivity.
Qed.

Lemma InsertTile_transparent_tile_witness :
  exists w',
    InsertTile 0 0 2 high_tile
      {| getTile := fun _ => replicate 64 0 |} drawn_world = Some (tt, w') /\
    buf w' = buf drawn_world /\ debug_log w' = debug_log drawn_world.
Proof.
  destruct (InsertTile_transparent_tile 0 0 2 high_tile
              {| getTile := fun _ => replicate 64 0 |} drawn_world)
    as (w' & Hrun & Hbuf & _ & Hlog).
  - unfold buffer_wf. vm_compute. repeat split; congruence.
  - lia.
  - lia.
  - lia.
  - lia.
  - reflexivity.
  - exists w'. split; [exact Hrun |]. split; [exact Hbuf | exact Hlog].
Defined.

(** X3. Painter's rule. After a series of [InsertTile] calls with 64-byte
    bitmaps, all inside the buffer, every pixel shows the last tile of the
    series whose source value at that pixel is not 0 (its stored pixel and
    its priority), and the bytes of before where there is no such tile;
    nothing is reported. *)
Theorem InsertTile_series_shows_top_layer :
  forall ops w,
    buffer_wf (buf w) -> Forall (tile_inside (buf w)) ops ->
    exists w',
      run_ops ops w = Some (tt, w') /\
      debug_log w' = debug_log w /\
      m_width (buf w') = m_width (buf w) /\
      m_height (buf w') = m_height (buf w) /\
      forall c r, 0 <= c < m_width (buf w) -> 0 <= r < m_height (buf w) ->
        shows_layer (buf w) (m_pixels (buf w')) (m_priority (buf w')) c r
          (top_layer ops c r None).
Proof.
  intros ops w Hwf Hin.
  destruct (run_tiles_inside ops w Hwf Hin) as (px & pr & Hrun & _ & _ & Hpt).
  eexists. split; [exact Hrun |]. cbn. repeat (split; [reflexivity |]).
  exact Hpt.
Qed.

Lemma InsertTile_series_shows_top_layer_witness :
  exists w',
    run_ops [OpInsertTile 0 0 2 high_tile solid_tileset;
             OpInsertTile 0 0 1 high_tile window_tileset] (new_world 8 8)
    = Some (tt, w') /\
    m_pixels (buf w') !! pixel_index (buf (new_world 8 8)) 5 0 = Some 33 /\
    m_pixels (buf w') !! pixel_index (buf (new_world 8 8)) 5 1 = Some 19.
Proof.
  destruct (InsertTile_series_shows_top_layer
              [OpInsertTile 0 0 2 high_tile solid_tileset;
               OpInsertTile 0 0 1 high_tile window_tileset] (new_world 8 8))
    as (w' & Hrun & _ & _ & _ & Hpt).
  - unfold buffer_wf. cbn. repeat split; lia.
  - constructor; [| constructor; [| constructor]];
      cbn; repeat split; try lia; reflexivity.
  - exists w'. split; [exact Hrun |]. split.
    + destruct (Hpt 5 0) as [Hp _]; cbn; try lia. exact Hp.
    + destruct (Hpt 5 1) as [Hp _]; cbn; try lia. exact Hp.
Defined.

Lemma source_raw_inside_nonzero tile_bits x y c r :
  length tile_bits = 64%nat -> Forall (fun v => v <> 0) tile_bits ->
  x <= c < x + 8 -> y <= r < y + 8 ->
  source_raw tile_bits x y c r <> 0.
Proof.
  intros Hlen Hnz Hc Hr. rewrite source_raw_inside by assumption.
  destruct (lookup_lt_is_Some_2 tile_bits (Z.to_nat ((r - y) * 8 + (c - x))))
    as [raw Hraw]; [lia |].
  rewrite (nth_lookup_Some _ _ _ _ Hraw).
  rewrite Forall_forall in Hnz. apply Hnz.
  eapply list_elem_of_lookup_2. exact Hraw.
Qed.

Ltac all_inside :=
  repeat (apply Forall_cons_2; [assumption |]); apply Forall_nil_2.

(** X4. Drawing the same tile twice at the same place inside the buffer
    leaves exactly the state that drawing it once leaves. *)
Theorem InsertTile_twice_is_once :
  forall x y palette_index tile tileset w,
    buffer_wf (buf w) -> 0 <= x -> 0 <= y ->
    x + 7 < m_width (buf w) -> y + 7 < m_height (buf w) ->
    length (getTile tileset tile) = 64%nat ->
    (InsertTile x y palette_index tile tileset ;;;
     InsertTile x y palette_index tile tileset)%method w
    = InsertTile x y palette_index tile tileset w.
Proof.
  intros x y p tile tileset w Hwf Hx Hy Hxw Hyh Hlen.
  pose (o := OpInsertTile x y p tile tileset).
  change (InsertTile x y p tile tileset) with (run_op o).
  rewrite <- run_ops_two, <- run_ops_one.
  assert (Ho : tile_inside (buf w) o) by (cbn; auto).
  apply run_tiles_ext; [exact Hwf | all_inside | all_inside |].
  intros c r _ _. subst o. cbn [top_layer].
  destruct (_ =? 0); reflexivity.
Qed.

Lemma InsertTile_twice_is_once_witness :
  (InsertTile 0 0 1 high_tile window_tileset ;;;
   InsertTile 0 0 1 high_tile window_tileset)%method drawn_world
  = InsertTile 0 0 1 high_tile window_tileset drawn_world.
Proof.
  apply (InsertTile_twice_is_once 0 0 1 high_tile window_tileset drawn_world).
  - unfold buffer_wf. vm_compute. repeat split; congruence.
  - lia.
  - lia.
  - vm_compute. reflexivity.
  - vm_compute. reflexivity.
  - reflexivity.
Defined.

(** X5. A tile without transparent pixels hides whatever tile was drawn
    at the same place before it: drawing A and then B leaves exactly the
    state that drawing B alone leaves. *)
Theorem InsertTile_opaque_tile_covers :
  forall x y pa ta tsa pb tb tsb w,
    buffer_wf (buf w) -> 0 <= x -> 0 <= y ->
    x + 7 < m_width (buf w) -> y + 7 < m_height (buf w) ->
    length (getTile tsa ta) = 64%nat ->
    length (getTile tsb tb) = 64%nat ->
    Forall (fun v => v <> 0) (getTile tsb tb) ->
    (InsertTile x y pa ta tsa ;;; InsertTile x y pb tb tsb)%method w
    = InsertTile x y pb tb tsb w.
Proof.
  intros x y pa ta tsa pb tb tsb w Hwf Hx Hy Hxw Hyh Hla Hlb Hnz.
  pose (oa := OpInsertTile x y pa ta tsa).
  pose (ob := OpInsertTile x y pb tb tsb).
  change (InsertTile x y pa ta tsa) with (run_op oa).
  change (InsertTile x y pb tb tsb) with (run_op ob).
  rewrite <- run_ops_two, <- run_ops_one.
  assert (Hoa : tile_inside (buf w) oa) by (cbn; auto).
  assert (Hob : tile_inside (buf w) ob) by (cbn; auto).
  apply run_tiles_ext; [exact Hwf | all_inside | all_inside |].
  intros c r _ _. subst oa ob. cbn [top_layer].
  assert (Hcase : (x <= c < x + 8 /\ y <= r < y + 8) \/
                  ~ (x <= c < x + 8 /\ y <= r < y + 8)) by lia.
  destruct Hcase as [[Hc Hr] | Hout].
  - pose proof (source_raw_inside_nonzero _ x y c r Hlb Hnz Hc Hr) as Hb.
    destruct (Z.eqb_spec (source_raw (getTile tsb tb) x y c r) 0);
      [contradiction | reflexivity].
  - rewrite !source_raw_outside by exact Hout. reflexivity.
Qed.

Lemma InsertTile_opaque_tile_covers_witness :
  (InsertTile 0 0 1 high_tile window_tileset ;;;
   InsertTile 0 0 2 high_tile solid_tileset)%method (new_world 8 8)
  = InsertTile 0 0 2 high_tile solid_tileset (new_world 8 8).
Proof.
  apply (InsertTile_opaque_tile_covers 0 0 1 high_tile window_tileset
           2 high_tile solid_tileset (new_world 8 8)).
  - unfold buffer_wf. cbn. repeat split; lia.
  - lia.
  - lia.
  - cbn. lia.
  - cbn. lia.
  - reflexivity.
  - reflexivity.
  - change (Forall (fun v => v <> 0) (replicate 64 1)).
    apply Forall_replicate. lia.
Defined.

(** X6. Two tiles whose footprints do not meet can be drawn in either
    order: both orders leave exactly the same state. *)
Theorem InsertTile_disjoint_tiles_commute :
  forall xa ya pa ta tsa xb yb pb tb tsb w,
    buffer_wf (buf w) ->
    0 <= xa -> 0 <= ya -> xa + 7 < m_width (buf w) -> ya + 7 < m_height (buf w) ->
    0 <= xb -> 0 <= yb -> xb + 7 < m_width (buf w) -> yb + 7 < m_height (buf w) ->
    length (getTile tsa ta) = 64%nat ->
    length (getTile tsb tb) = 64%nat ->
    xa + 8 <= xb \/ xb + 8 <= xa \/ ya + 8 <= yb \/ yb + 8 <= ya ->
    (InsertTile xa ya pa ta tsa ;;; InsertTile xb yb pb tb tsb)%method w
    = (InsertTile xb yb pb tb tsb ;;; InsertTile xa ya pa ta tsa)%method w.
Proof.
  intros xa ya pa ta tsa xb yb pb tb tsb w Hwf
    Hxa Hya Hxaw Hyah Hxb Hyb Hxbw Hybh Hla Hlb Hdisj.
  pose (oa := OpInsertTile xa ya pa ta tsa).
  pose (ob := OpInsertTile xb yb pb tb tsb).
  change (InsertTile xa ya pa ta tsa) with (run_op oa).
  change (InsertTile xb yb pb tb tsb) with (run_op ob).
  rewrite <- !run_ops_two.
  assert (Hoa : tile_inside (buf w) oa) by (cbn; auto).
  assert (Hob : tile_inside (buf w) ob) by (cbn; auto).
  apply run_tiles_ext; [exact Hwf | all_inside | all_inside |].
  intros c r _ _. subst oa ob. cbn [top_layer].
  destruct (Z.eqb_spec (source_raw (getTile tsa ta) xa ya c r) 0) as [Ha | Ha];
    destruct (Z.eqb_spec (source_raw (getTile tsb tb) xb yb c r) 0) as [Hb | Hb];
    try reflexivity.
  apply source_raw_nonzero in Ha, Hb. lia.
Qed.

Lemma InsertTile_disjoint_tiles_commute_witness :
  (InsertTile 0 0 1 high_tile window_tileset ;;;
   InsertTile 8 4 2 high_tile solid_tileset)%method (new_world 16 16)
  = (InsertTile 8 4 2 high_tile solid_tileset ;;;
     InsertTile 0 0 1 high_tile window_tileset)%method (new_world 16 16).
Proof.
  apply (InsertTile_disjoint_tiles_commute 0 0 1 high_tile window_tileset
           8 4 2 high_tile solid_tileset (new_world 16 16)).
  - unfold buffer_wf. cbn. repeat split; lia.
  - lia.
  - lia.
  - cbn. lia.
  - cbn. lia.
  - lia.
  - lia.
  - cbn. lia.
  - cbn. lia.
  - reflexivity.
  - reflexivity.
  - lia.
Defined.

(** ** A block inside the buffer *)

Lemma four_InsertTile_run_ops x y p block tileset w :
  four_InsertTile x y p block tileset w
  = run_ops [OpInsertTile x y p (block_getTile block 0) tileset;
             OpInsertTile (add64 x 8) y p (block_getTile block 1) tileset;
             OpInsertTile x (add64 y 8) p (block_getTile block 2) tileset;
             OpInsertTile (add64 x 8) (add64 y 8) p (block_getTile block 3)
               tileset] w.
Proof.
  unfold four_InsertTile. cbn [run_ops run_op]. unfold bind.
  destruct (InsertTile x y p _ tileset w) as [[[] w1] |]; [| reflexivity].
  destruct (InsertTile (add64 x 8) y p _ tileset w1) as [[[] w2] |];
    [| reflexivity].
  destruct (InsertTile x (add64 y 8) p _ tileset w2) as [[[] w3] |];
    [| reflexivity].
  destruct (InsertTile (add64 x 8) (add64 y 8) p _ tileset w3) as [[[] w4] |];
    reflexivity.
Qed.

Lemma block_top_layer x y p block tileset c r :
  top_layer [OpInsertTile x y p (block_getTile block 0) tileset;
             OpInsertTile (x + 8) y p (block_getTile block 1) tileset;
             OpInsertTile x (y + 8) p (block_getTile block 2) tileset;
             OpInsertTile (x + 8) (y + 8) p (block_getTile block 3) tileset]
    c r None
  = block_layer x y p block tileset c r.
Proof.
  cbn [top_layer]. unfold block_layer, block_quadrant.
  assert (Hcase :
    (x <= c < x + 8 /\ y <= r < y + 8) \/
    (x + 8 <= c < x + 16 /\ y <= r < y + 8) \/
    (x <= c < x + 8 /\ y + 8 <= r < y + 16) \/
    (x + 8 <= c < x + 16 /\ y + 8 <= r < y + 16) \/
    ~ (x <= c < x + 16 /\ y <= r < y + 16)) by lia.
  destruct Hcase as [[Hc Hr] | [[Hc Hr] | [[Hc Hr] | [[Hc Hr] | Hout]]]].
  - rewrite (source_raw_outside _ (x + 8) y), (source_raw_outside _ x (y + 8)),
      (source_raw_outside _ (x + 8) (y + 8)) by lia.
    destruct (Z.leb_spec x c), (Z.ltb_spec c (x + 16)),
             (Z.leb_spec y r), (Z.ltb_spec r (y + 16)); try lia.
    assert ((c - x) / 8 = 0 /\ (r - y) / 8 = 0) as [-> ->]
      by (Z.to_euclidean_division_equations; lia).
    cbn. rewrite !Z.add_0_r. reflexivity.
  - rewrite (source_raw_outside _ x y), (source_raw_outside _ x (y + 8)),
      (source_raw_outside _ (x + 8) (y + 8)) by lia.
    destruct (Z.leb_spec x c), (Z.ltb_spec c (x + 16)),
             (Z.leb_spec y r), (Z.ltb_spec r (y + 16)); try lia.
    assert ((c - x) / 8 = 1 /\ (r - y) / 8 = 0) as [-> ->]
      by (Z.to_euclidean_division_equations; lia).
    cbn. rewrite !Z.add_0_r.
    destruct (_ =? 0); reflexivity.
  - rewrite (source_raw_outside _ x y), (source_raw_outside _ (x + 8) y),
      (source_raw_outside _ (x + 8) (y + 8)) by lia.
    destruct (Z.leb_spec x c), (Z.ltb_spec c (x + 16)),
             (Z.leb_spec y r), (Z.ltb_spec r (y + 16)); try lia.
    assert ((c - x) / 8 = 0 /\ (r - y) / 8 = 1) as [-> ->]
      by (Z.to_euclidean_division_equations; lia).
    cbn. rewrite !Z.add_0_r.
    destruct (_ =? 0); reflexivity.
  - rewrite (source_raw_outside _ x y), (source_raw_outside _ (x + 8) y),
      (source_raw_outside _ x (y + 8)) by lia.
    destruct (Z.leb_spec x c), (Z.ltb_spec c (x + 16)),
             (Z.leb_spec y r), (Z.ltb_spec r (y + 16)); try lia.
    assert ((c - x) / 8 = 1 /\ (r - y) / 8 = 1) as [-> ->]
      by (Z.to_euclidean_division_equations; lia).
    cbn. destruct (_ =? 0); reflexivity.
  - rewrite !source_raw_outside by lia.
    destruct (Z.leb_spec x c), (Z.ltb_spec c (x + 16)),
             (Z.leb_spec y r), (Z.ltb_spec r (y + 16)); try reflexivity.
    lia.
Qed.

(** X7. A block whose 16 by 16 footprint is inside the buffer is drawn
    whole and nothing is reported: a pixel of the footprint shows the tile
    of its quadrant (tiles 0 to 3: top-left, top-right, bottom-left,
    bottom-right) wherever that tile's source value is not 0, and every
    other pixel keeps its bytes. *)
Theorem InsertBlock_inside_draws_quadrants :
  forall x y palette_index block tileset w,
    buffer_wf (buf w) -> 0 <= x -> 0 <= y ->
    x + 15 < m_width (buf w) -> y + 15 < m_height (buf w) ->
    (forall n, 0 <= n <= 3 ->
       length (getTile tileset (block_getTile block n)) = 64%nat) ->
    exists w',
      InsertBlock x y palette_index block tileset w = Some (tt, w') /\
      debug_log w' = debug_log w /\
      m_width (buf w') = m_width (buf w) /\
      m_height (buf w') = m_height (buf w) /\
      forall c r, 0 <= c < m_width (buf w) -> 0 <= r < m_height (buf w) ->
        shows_layer (buf w) (m_pixels (buf w')) (m_priority (buf w')) c r
          (block_layer x y palette_index block tileset c r).
Proof.
  intros x y p block tileset w Hwf Hx Hy Hxw Hyh Hlen.
  pose proof Hwf as (Hw & Hh & Hfit & Hlp & Hlq).
  assert (Hwlt : m_width (buf w) < 2 ^ 64 /\ m_height (buf w) < 2 ^ 64)
    by (split; nia).
  rewrite InsertBlock_unfold.
  assert (Hguard : block_guard_index (buf w) x y
                   < Z.of_nat (length (m_pixels (buf w)))).
  { unfold block_guard_index.
    assert ((y + 7 + 1) * m_width (buf w) <= m_height (buf w) * m_width (buf w))
      by (apply Z.mul_le_mono_nonneg_r; lia).
    assert (0 <= (y + 7) * m_width (buf w)) by (apply Z.mul_nonneg_nonneg; lia).
    rewrite (add64_small y 7) by lia.
    rewrite (mul64_small (y + 7)) by lia.
    rewrite (add64_small ((y + 7) * m_width (buf w)) x) by lia.
    rewrite add64_small by lia. lia. }
  destruct (Z.ltb_spec (block_guard_index (buf w) x y)
              (Z.of_nat (length (m_pixels (buf w))))); [| lia].
  rewrite four_InsertTile_run_ops.
  rewrite (add64_small x 8), (add64_small y 8) by lia.
  destruct (run_tiles_inside
              [OpInsertTile x y p (block_getTile block 0) tileset;
               OpInsertTile (x + 8) y p (block_getTile block 1) tileset;
               OpInsertTile x (y + 8) p (block_getTile block 2) tileset;
               OpInsertTile (x + 8) (y + 8) p (block_getTile block 3) tileset]
              w Hwf) as (px & pr & Hrun & _ & _ & Hpt).
  { repeat (apply Forall_cons_2;
            [cbn; repeat split; try lia; apply Hlen; lia |]).
    apply Forall_nil_2. }
  eexists. split; [exact Hrun |]. cbn. repeat (split; [reflexivity |]).
  intros c r Hc Hr. rewrite <- block_top_layer. apply Hpt; assumption.
Qed.

Lemma InsertBlock_inside_draws_quadrants_witness :
  exists w',
    InsertBlock 4 0 1 solid_block window_tileset (new_world 24 16)
    = Some (tt, w') /\
    m_pixels (buf w') !! pixel_index (buf (new_world 24 16)) 13 9 = Some 19 /\
    m_pixels (buf w') !! pixel_index (buf (new_world 24 16)) 13 8 = Some 0 /\
    m_pixels (buf w') !! pixel_index (buf (new_world 24 16)) 20 9 = Some 0.
Proof.
  destruct (InsertBlock_inside_draws_quadrants 4 0 1 solid_block window_tileset
              (new_world 24 16)) as (w' & Hrun & _ & _ & _ & Hpt).
  - unfold buffer_wf. cbn. repeat split; lia.
  - lia.
  - lia.
  - cbn. lia.
  - cbn. lia.
  - intros n _. reflexivity.
  - exists w'. split; [exact Hrun |]. split; [| split].
    + destruct (Hpt 13 9) as [Hp _]; cbn; try lia. exact Hp.
    + destruct (Hpt 13 8) as [Hp _]; cbn; try lia. exact Hp.
    + destruct (Hpt 20 9) as [Hp _]; cbn; try lia. exact Hp.
Defined.

(** ** Calls that stay inside the vectors *)

Lemma Clear_wf w : buffer_wf (buf w) ->
  exists w', Clear w = Some (tt, w') /\ buffer_wf (buf w').
Proof.
  intros (Hw & Hh & Hfit & Hlp & Hlq). eexists. split; [reflexivity |].
  unfold buffer_wf. cbn. unfold fill0. rewrite !length_replicate. auto.
Qed.

Lemma Resize_wf width height w :
  0 <= width -> 0 <= height -> width * height < 2 ^ 63 ->
  exists w', Resize width height w = Some (tt, w') /\ buffer_wf (buf w').
Proof.
  intros Hw Hh Hfit. eexists. split; [reflexivity |].
  assert (0 <= width * height) by (apply Z.mul_nonneg_nonneg; assumption).
  unfold buffer_wf. cbn. rewrite assign_sizes, mul64_small by lia. auto.
Qed.

Lemma InsertBlock_wf x y p block tileset w :
  buffer_wf (buf w) -> 0 <= x -> 0 <= y -> x + 15 < 2 ^ 64 -> y + 15 < 2 ^ 64 ->
  (forall n, 0 <= n <= 3 ->
     length (getTile tileset (block_getTile block n)) = 64%nat) ->
  exists w', InsertBlock x y p block tileset w = Some (tt, w') /\
             buffer_wf (buf w').
Proof.
  intros Hwf Hx Hy Hxs Hys Hlen. rewrite InsertBlock_unfold.
  destruct (_ <? _).
  - apply four_InsertTile_defined; assumption.
  - eexists. split; [reflexivity | exact Hwf].
Qed.

(** X8. Drawing never leaves the vectors. From a buffer whose rasters hold
    [W * H] bytes, every series of [Clear], [Resize], [InsertTile] and
    [InsertBlock] calls with 64-byte bitmaps, coordinates that leave room
    for the sums of the checks, and new dimensions whose product is a
    possible vector size, returns, and the rasters hold [W * H] bytes
    again. *)
Theorem drawing_stays_inside_vectors :
  forall ops w,
    buffer_wf (buf w) -> Forall op_in_range ops ->
    exists w', run_ops ops w = Some (tt, w') /\ buffer_wf (buf w').
Proof.
  induction ops as [| o rest IH]; intros w Hwf Hops.
  - exists w. split; [reflexivity | exact Hwf].
  - apply Forall_cons in Hops as [Ho Hrest].
    assert (Hstep : exists w1, run_op o w = Some (tt, w1) /\ buffer_wf (buf w1)).
    { destruct o as [| width height | x y p tile tileset | x y p block tileset
                     | | |]; cbn [run_op op_in_range] in *; try contradiction.
      - apply Clear_wf, Hwf.
      - destruct Ho as (? & ? & ?). apply Resize_wf; assumption.
      - destruct Ho as (? & ? & ? & ? & ?).
        destruct (InsertTile_defined x y p tile tileset w)
          as (w1 & Hrun & Hwf1 & _); try assumption.
        exists w1. split; assumption.
      - destruct Ho as (? & ? & ? & ? & ?). apply InsertBlock_wf; assumption. }
    destruct Hstep as (w1 & Hrun1 & Hwf1).
    destruct (IH w1 Hwf1 Hrest) as (w' & Hrun & Hwf').
    exists w'. cbn [run_ops]. unfold bind. rewrite Hrun1. split; assumption.
Qed.

Lemma drawing_stays_inside_vectors_witness :
  exists w',
    run_ops [OpInsertTile 20 12 1 high_tile solid_tileset;
             OpInsertBlock 16 8 1 solid_block solid_tileset;
             OpResize 8 8; OpInsertTile 0 0 3 high_tile window_tileset;
             OpClear] (new_world 24 16) = Some (tt, w') /\
    buffer_wf (buf w').
Proof.
  apply (drawing_stays_inside_vectors
           [OpInsertTile 20 12 1 high_tile solid_tileset;
            OpInsertBlock 16 8 1 solid_block solid_tileset;
            OpResize 8 8; OpInsertTile 0 0 3 high_tile window_tileset;
            OpClear] (new_world 24 16)).
  - unfold buffer_wf. cbn. repeat split; lia.
  - repeat (apply Forall_cons_2;
            [cbn; repeat split; try lia; try reflexivity; intros; reflexivity |]).
    apply Forall_nil_2.
Defined.

(** X9. After any series of calls that follows a constructor, [Clear]
    leaves both rasters exactly as the constructor
    [ImageBuffer(width, height)] with the current dimensions makes them,
    and keeps the dimensions and the log. *)
Theorem Clear_gives_constructed_rasters :
  forall b0 log0 files0 ops w,
    constructed b0 ->
    run_ops ops {| buf := b0; debug_log := log0; files := files0 |}
    = Some (tt, w) ->
    exists w',
      Clear w = Some (tt, w') /\
      m_pixels (buf w')
      = m_pixels (ImageBuffer_new (m_width (buf w)) (m_height (buf w))) /\
      m_priority (buf w')
      = m_priority (ImageBuffer_new (m_width (buf w)) (m_height (buf w))) /\
      m_width (buf w') = m_width (buf w) /\
      m_height (buf w') = m_height (buf w) /\
      debug_log w' = debug_log w.
Proof.
  intros b0 log0 files0 ops w Hctor Hrun.
  apply run_ops_sizes in Hrun; [| cbn; apply constructed_sizes; exact Hctor].
  destruct Hrun as [H1 H2].
  eexists. split; [reflexivity |]. cbn. unfold fill0, assign.
  rewrite H1. rewrite <- H2, Nat2Z.id. repeat split; reflexivity.
Qed.

Lemma Clear_gives_constructed_rasters_witness :
  exists w w',
    run_ops [OpResize 8 8; OpInsertTile 0 0 2 high_tile solid_tileset]
      {| buf := ImageBuffer_default; debug_log := []; files := [] |}
    = Some (tt, w) /\
    Clear w = Some (tt, w') /\
    m_pixels (buf w') = m_pixels (ImageBuffer_new 8 8).
Proof.
  eexists.
  match goal with
  | |- exists w', ?run = Some (tt, ?w) /\ _ =>
    assert (Hrun : run = Some (tt, w)) by (vm_compute; reflexivity)
  end.
  destruct (Clear_gives_constructed_rasters ImageBuffer_default [] [] _ _
              constructed_default Hrun) as (w' & Hclear & Hpx & _).
  exists w'. split; [exact Hrun |]. split; [exact Hclear | exact Hpx].
Defined.

(** ** The exports as functions of the rasters *)

Lemma vec_load_Some {A} (v : list A) i a :
  vec_load v i = Some a -> 0 <= i < Z.of_nat (length v).
Proof.
  unfold vec_load. destruct (Z.leb_spec 0 i) as [Hi | Hi]; [| discriminate].
  intros Hlook. apply lookup_lt_Some in Hlook. lia.
Qed.

Lemma GetRGB_loop_covered pals pixels : forall it rgb out,
  GetRGB_loop pixels pals it rgb = Some out ->
  palette_rows_covered pals pixels.
Proof.
  unfold palette_rows_covered.
  induction pixels as [| p rest IH]; intros it rgb out H; [constructor |].
  cbn [GetRGB_loop] in H.
  destruct (vec_load pals (Z.shiftr p 4)) as [pal |] eqn:Hpal;
    [| discriminate].
  cbn in H.
  destruct (vec_store rgb it _) as [rgb1 |]; [| discriminate]. cbn in H.
  destruct (vec_store rgb1 _ _) as [rgb2 |]; [| discriminate]. cbn in H.
  destruct (vec_store rgb2 _ _) as [rgb3 |]; [| discriminate]. cbn in H.
  constructor; [| eapply IH; exact H].
  eapply vec_load_Some. exact Hpal.
Qed.

Lemma GetAlpha_loop_covered pals lo hi priority pixels : forall pri it alpha out,
  GetAlpha_loop pixels pals lo hi priority pri it alpha = Some out ->
  palette_rows_covered pals pixels.
Proof.
  unfold palette_rows_covered.
  induction pixels as [| p rest IH]; intros pri it alpha out H; [constructor |].
  cbn [GetAlpha_loop] in H.
  destruct (vec_load pals (Z.shiftr p 4)) as [pal |] eqn:Hpal;
    [| discriminate].
  cbn in H.
  destruct (vec_load priority pri) as [q |]; [| discriminate]. cbn in H.
  destruct (vec_store alpha it _) as [alpha1 |]; [| discriminate]. cbn in H.
  constructor; [| eapply IH; exact H].
  eapply vec_load_Some. exact Hpal.
Qed.

Lemma GetRGB_loop_bytes pals pixels : forall done todo,
  palette_rows_covered pals pixels ->
  (length pixels * 3 <= length todo)%nat ->
  GetRGB_loop pixels pals (Z.of_nat (length done)) (done ++ todo)
  = Some (done ++ rgb_bytes pals pixels ++ drop (length pixels * 3) todo).
Proof.
  induction pixels as [| p rest IH]; intros done todo Hcov Hlt.
  - cbn. rewrite drop_0. reflexivity.
  - destruct todo as [| a [| b [| c todo']]]; try (cbn in Hlt; lia).
    apply Forall_cons in Hcov as [Hp Hcov].
    destruct (vec_load_covered pals p Hp) as (pal0 & Hload & Hlook).
    cbn [GetRGB_loop]. rewrite Hload. cbn.
    rewrite (vec_store_next done a (b :: c :: todo')) by reflexivity. cbn.
    rewrite (vec_store_next (done ++ [_]) b (c :: todo'))
      by (rewrite length_app; cbn; lia). cbn.
    rewrite (vec_store_next ((done ++ [_]) ++ [_]) c todo')
      by (rewrite !length_app; cbn; lia). cbn.
    set (r := getR pal0 (Z.land p 15)).
    set (g := getG pal0 (Z.land p 15)).
    set (bl := getB pal0 (Z.land p 15)).
    pose proof (IH (((done ++ [r]) ++ [g]) ++ [bl]) todo' Hcov
                  ltac:(cbn in Hlt; lia)) as Hrun.
    replace (Z.of_nat (length (((done ++ [r]) ++ [g]) ++ [bl])))
      with (Z.of_nat (length done) + 3) in Hrun
      by (rewrite !length_app; cbn; lia).
    rewrite Hrun. unfold rgb_bytes. cbn [flat_map]. unfold pixel_rgb at 2.
    rewrite Hlook. cbn. rewrite <- !app_assoc. reflexivity.
Qed.

Lemma GetRGB_bytes pals w :
  buffer_wf (buf w) -> m_width (buf w) * m_height (buf w) * 3 < 2 ^ 64 ->
  palette_rows_covered pals (m_pixels (buf w)) ->
  GetRGB pals w
  = Some (rgb_bytes pals (m_pixels (buf w)),
          {| buf := {| m_width := m_width (buf w); m_height := m_height (buf w);
                       m_pixels := m_pixels (buf w);
                       m_priority := m_priority (buf w);
                       m_rgb := rgb_bytes pals (m_pixels (buf w));
                       m_alpha := m_alpha (buf w) |};
             debug_log := debug_log w; files := files w |}).
Proof.
  intros (Hw & Hh & Hfit & Hlp & Hlq) Hfit3 Hcov.
  assert (Hwh : 0 <= m_width (buf w) * m_height (buf w))
    by (apply Z.mul_nonneg_nonneg; assumption).
  unfold GetRGB, bind, get_buf.
  rewrite (mul64_small (m_width (buf w))) by lia.
  rewrite mul64_small by lia.
  set (rgb0 := resize (m_rgb (buf w)) _).
  assert (Hlen0 : length rgb0 = (length (m_pixels (buf w)) * 3)%nat).
  { subst rgb0. rewrite resize_length by lia. lia. }
  pose proof (GetRGB_loop_bytes pals (m_pixels (buf w)) [] rgb0 Hcov
                ltac:(lia)) as Hrun.
  cbn [length app] in Hrun. change (Z.of_nat 0) with 0 in Hrun.
  rewrite drop_ge, app_nil_r in Hrun by lia.
  rewrite Hrun. reflexivity.
Qed.

Lemma rgb_bytes_length pals pixels :
  palette_rows_covered pals pixels ->
  length (rgb_bytes pals pixels) = (length pixels * 3)%nat.
Proof.
  unfold rgb_bytes. induction 1 as [| p rest Hp _ IH]; [reflexivity |].
  cbn [flat_map]. rewrite length_app, IH. unfold pixel_rgb.
  destruct (vec_load_covered pals p Hp) as (pal & _ & ->). cbn. lia.
Qed.

(** X10. [GetRGB] has a defined result exactly when every pixel of the
    buffer names a palette that the list holds; [GetAlpha] likewise. *)
Theorem exports_defined_iff_palettes_cover :
  forall pals lo hi w,
    buffer_wf (buf w) -> m_width (buf w) * m_height (buf w) * 3 < 2 ^ 64 ->
    (is_Some (GetRGB pals w)
     <-> palette_rows_covered pals (m_pixels (buf w))) /\
    (is_Some (GetAlpha pals lo hi w)
     <-> palette_rows_covered pals (m_pixels (buf w))).
Proof.
  intros pals lo hi w Hwf Hfit3. split; split.
  - intros [[rgb w'] H]. unfold GetRGB, bind, get_buf in H.
    destruct (GetRGB_loop _ _ _ _) as [out |] eqn:Hloop; [| discriminate].
    eapply GetRGB_loop_covered. exact Hloop.
  - intros Hcov. rewrite GetRGB_bytes by assumption. eexists. reflexivity.
  - intros [[alpha w'] H]. unfold GetAlpha, bind, get_buf in H.
    destruct (GetAlpha_loop _ _ _ _ _ _ _ _) as [out |] eqn:Hloop;
      [| discriminate].
    eapply GetAlpha_loop_covered. exact Hloop.
  - intros Hcov. destruct Hwf as (Hw & Hh & Hfit & Hlp & Hlq).
    assert (Hwh : 0 <= m_width (buf w) * m_height (buf w))
      by (apply Z.mul_nonneg_nonneg; assumption).
    unfold GetAlpha, bind, get_buf. rewrite mul64_small by lia.
    set (alpha0 := resize (m_alpha (buf w)) _).
    assert (Hlen0 : length alpha0 = length (m_pixels (buf w))).
    { subst alpha0. rewrite resize_length by lia. lia. }
    destruct (GetAlpha_loop_spec pals lo hi (m_pixels (buf w)) []
                (m_priority (buf w)) [] alpha0 Hcov)
      as (out & Hrun & _); [lia | lia |].
    cbn [length app] in Hrun. change (Z.of_nat 0) with 0 in Hrun.
    rewrite Hrun. eexists. reflexivity.
Qed.

Lemma exports_defined_iff_palettes_cover_witness :
  (is_Some (GetRGB [grey_palette; grey_palette; grey_palette] drawn_world)
   <-> palette_rows_covered [grey_palette; grey_palette; grey_palette]
         (m_pixels (buf drawn_world))) /\
  ~ is_Some (GetRGB [grey_palette] drawn_world).
Proof.
  split.
  - apply (exports_defined_iff_palettes_cover
             [grey_palette; grey_palette; grey_palette] 0 0 drawn_world).
    + unfold buffer_wf. vm_compute. repeat split; congruence.
    + vm_compute. reflexivity.
  - intros [x Hx]. vm_compute in Hx. discriminate.
Defined.

(** X11. The scratch vector of [GetRGB] does not show: the bytes returned
    are the triplets of the pixels in raster order, whatever [m_rgb] held
    before, and a second call returns the same bytes and changes nothing
    any more. *)
Theorem GetRGB_repeatable :
  forall pals w,
    buffer_wf (buf w) -> m_width (buf w) * m_height (buf w) * 3 < 2 ^ 64 ->
    palette_rows_covered pals (m_pixels (buf w)) ->
    exists rgb w',
      GetRGB pals w = Some (rgb, w') /\
      rgb = rgb_bytes pals (m_pixels (buf w)) /\
      GetRGB pals w' = Some (rgb, w').
Proof.
  intros pals w Hwf Hfit3 Hcov.
  rewrite GetRGB_bytes by assumption.
  eexists. eexists. split; [reflexivity |]. split; [reflexivity |].
  rewrite GetRGB_bytes; [reflexivity | | |]; cbn; assumption.
Qed.

Lemma GetRGB_repeatable_witness :
  exists rgb w',
    GetRGB [grey_palette; grey_palette; grey_palette] drawn_world
    = Some (rgb, w') /\
    GetRGB [grey_palette; grey_palette; grey_palette] w' = Some (rgb, w').
Proof.
  destruct (GetRGB_repeatable [grey_palette; grey_palette; grey_palette]
              drawn_world) as (rgb & w' & H1 & _ & H2).
  - unfold buffer_wf. vm_compute. repeat split; congruence.
  - vm_compute. reflexivity.
  - unfold palette_rows_covered. apply (bool_decide_unpack _). vm_compute.
    exact I.
  - exists rgb, w'. split; assumption.
Defined.

Lemma GetAlpha_bytes pals lo hi w :
  buffer_wf (buf w) -> palette_rows_covered pals (m_pixels (buf w)) ->
  exists alpha,
    GetAlpha pals lo hi w
    = Some (alpha,
            {| buf := {| m_width := m_width (buf w);
                         m_height := m_height (buf w);
                         m_pixels := m_pixels (buf w);
                         m_priority := m_priority (buf w);
                         m_rgb := m_rgb (buf w); m_alpha := alpha |};
               debug_log := debug_log w; files := files w |}) /\
    length alpha = length (m_pixels (buf w)) /\
    forall (n : nat) pixel pri pal,
      m_pixels (buf w) !! n = Some pixel ->
      m_priority (buf w) !! n = Some pri ->
      pals !! Z.to_nat (Z.shiftr pixel 4) = Some pal ->
      alpha !! n = Some (Z.min (if nonzero pri then hi else lo)
                               (getA pal (Z.land pixel 15))).
Proof.
  intros (Hw & Hh & Hfit & Hlp & Hlq) Hcov.
  assert (Hwh : 0 <= m_width (buf w) * m_height (buf w))
    by (apply Z.mul_nonneg_nonneg; assumption).
  unfold GetAlpha, bind, get_buf. rewrite mul64_small by lia.
  set (alpha0 := resize (m_alpha (buf w)) _).
  assert (Hlen0 : length alpha0 = length (m_pixels (buf w))).
  { subst alpha0. rewrite resize_length by lia. lia. }
  destruct (GetAlpha_loop_spec pals lo hi (m_pixels (buf w)) []
              (m_priority (buf w)) [] alpha0 Hcov)
    as (out & Hrun & Hlen & Hpt); [lia | lia |].
  cbn [length app] in Hrun. change (Z.of_nat 0) with 0 in Hrun.
  rewrite drop_ge, app_nil_r in Hrun by lia.
  rewrite Hrun. exists out. split; [reflexivity |]. split; assumption.
Qed.

(** X12. [GetAlpha] never makes a pixel more opaque than its palette entry
    says, nor more opaque than the larger of the two ceilings; where the
    palette alpha is at most both ceilings the byte is the palette alpha
    itself. *)
Theorem GetAlpha_only_lowers_opacity :
  forall pals lo hi w,
    buffer_wf (buf w) -> palette_rows_covered pals (m_pixels (buf w)) ->
    exists alpha w',
      GetAlpha pals lo hi w = Some (alpha, w') /\
      forall (n : nat) pixel pal a,
        m_pixels (buf w) !! n = Some pixel ->
        pals !! Z.to_nat (Z.shiftr pixel 4) = Some pal ->
        alpha !! n = Some a ->
        a <= getA pal (Z.land pixel 15) /\
        a <= Z.max lo hi /\
        (getA pal (Z.land pixel 15) <= Z.min lo hi ->
         a = getA pal (Z.land pixel 15)).
Proof.
  intros pals lo hi w Hwf Hcov.
  destruct (GetAlpha_bytes pals lo hi w Hwf Hcov) as (alpha & Hrun & Hlen & Hpt).
  exists alpha. eexists. split; [exact Hrun |].
  intros n pixel pal a Hpixel Hpal Ha.
  assert (Hn : (n < length (m_priority (buf w)))%nat).
  { apply lookup_lt_Some in Hpixel.
    destruct Hwf as (_ & _ & _ & ? & ?). lia. }
  destruct (lookup_lt_is_Some_2 _ _ Hn) as [pri Hpri].
  rewrite (Hpt n pixel pri pal Hpixel Hpri Hpal) in Ha. injection Ha as <-.
  destruct (nonzero pri); lia.
Qed.

Lemma GetAlpha_only_lowers_opacity_witness :
  exists alpha w',
    GetAlpha [grey_palette; grey_palette; grey_palette] 128 200 drawn_world
    = Some (alpha, w') /\
    forall a, alpha !! 0%nat = Some a -> a <= 255.
Proof.
  destruct (GetAlpha_only_lowers_opacity
              [grey_palette; grey_palette; grey_palette] 128 200 drawn_world)
    as (alpha & w' & Hrun & Hpt).
  - unfold buffer_wf. vm_compute. repeat split; congruence.
  - unfold palette_rows_covered. apply (bool_decide_unpack _). vm_compute.
    exact I.
  - exists alpha, w'. split; [exact Hrun |]. intros a Ha.
    apply (Hpt 0%nat 33 grey_palette a); [reflexivity | reflexivity | exact Ha].
Defined.

Lemma GetAlpha_ignores_rgb pals lo hi b log fs rgb :
  fst <$> GetAlpha pals lo hi
            {| buf := {| m_width := m_width b; m_height := m_height b;
                         m_pixels := m_pixels b; m_priority := m_priority b;
                         m_rgb := rgb; m_alpha := m_alpha b |};
               debug_log := log; files := fs |}
  = fst <$> GetAlpha pals lo hi {| buf := b; debug_log := log; files := fs |}.
Proof.
  unfold GetAlpha, bind, get_buf. cbn.
  destruct (GetAlpha_loop _ _ _ _ _ _ _ _); reflexivity.
Qed.

(** X13. [MakeBitmap] builds the bitmap from the bytes [GetRGB] returns
    for the buffer and, when alpha is asked for, from the bytes [GetAlpha]
    returns for it; without alpha it never touches the alpha vector. The
    rasters are left as they were. *)
Theorem MakeBitmap_uses_exports :
  forall pals use_alpha lo hi w,
    buffer_wf (buf w) -> m_width (buf w) * m_height (buf w) * 3 < 2 ^ 64 ->
    palette_rows_covered pals (m_pixels (buf w)) ->
    exists bmp w',
      MakeBitmap pals use_alpha lo hi w = Some (bmp, w') /\
      fst <$> GetRGB pals w = Some (bmp_rgb bmp) /\
      bmp_alpha bmp
      = (if use_alpha then fst <$> GetAlpha pals lo hi w else None) /\
      m_pixels (buf w') = m_pixels (buf w) /\
      m_priority (buf w') = m_priority (buf w) /\
      (use_alpha = false -> m_alpha (buf w') = m_alpha (buf w)).
Proof.
  intros pals use_alpha lo hi w Hwf Hfit3 Hcov.
  unfold MakeBitmap, bind. rewrite GetRGB_bytes by assumption.
  cbn [get_buf buf]. destruct use_alpha.
  - set (w1 := {| buf := _; debug_log := debug_log w; files := files w |}).
    assert (Hwf1 : buffer_wf (buf w1)) by exact Hwf.
    destruct (GetAlpha_bytes pals lo hi w1 Hwf1 Hcov) as (alpha & Hrun & _).
    pose proof (GetAlpha_ignores_rgb pals lo hi (buf w) (debug_log w) (files w)
                  (rgb_bytes pals (m_pixels (buf w)))) as Hsame.
    fold w1 in Hsame. rewrite Hrun in Hsame. cbn in Hsame.
    rewrite Hrun. cbn. eexists. eexists. split; [reflexivity |]. cbn.
    destruct w as [b lg fs]. cbn in *. rewrite <- Hsame.
    repeat split; try reflexivity. discriminate.
  - cbn. eexists. eexists. split; [reflexivity |]. cbn.
    repeat split; reflexivity.
Qed.

Lemma MakeBitmap_uses_exports_witness :
  exists bmp w',
    MakeBitmap [grey_palette; grey_palette; grey_palette] true 128 200
      drawn_world = Some (bmp, w') /\
    length (bmp_rgb bmp) = 192%nat.
Proof.
  destruct (MakeBitmap_uses_exports [grey_palette; grey_palette; grey_palette]
              true 128 200 drawn_world) as (bmp & w' & Hrun & Hrgb & _).
  - unfold buffer_wf. vm_compute. repeat split; congruence.
  - vm_compute. reflexivity.
  - unfold palette_rows_covered. apply (bool_decide_unpack _). vm_compute.
    exact I.
  - exists bmp, w'. split; [exact Hrun |].
    apply (f_equal (fmap (M := option) length)) in Hrgb.
    vm_compute in Hrgb. injection Hrgb as Hrgb. symmetry. exact Hrgb.
Defined.

(** ** [WritePNG] *)

Lemma seqZ_succ i (n : nat) :
  seqZ i (Z.of_nat (S n)) = i :: seqZ (i + 1) (Z.of_nat n).
Proof.
  rewrite seqZ_cons by lia. f_equal. f_equal; lia.
Qed.


Lemma WritePNG_entries_ok pal entry (n : nat) :
  forall i (dc tc : list (Z * Z * Z)) (da ta : list Z),
    0 <= entry -> 0 <= i -> entry + i + Z.of_nat n < 2 ^ 64 ->
    entry + i = Z.of_nat (length dc) -> length da = length dc ->
    (n <= length tc)%nat -> (n <= length ta)%nat ->
    WritePNG_entries n i pal entry (dc ++ tc, da ++ ta)
    = Some (dc ++ map (fun k => (getR pal k, getG pal k, getB pal k))
                    (seqZ i (Z.of_nat n)) ++ drop n tc,
            da ++ map (getA pal) (seqZ i (Z.of_nat n)) ++ drop n ta).
Proof.
  induction n as [| n IH]; intros i dc tc da ta He Hi Hfit Hdc Hda Htc Hta.
  - cbn. rewrite !drop_0. reflexivity.
  - destruct tc as [| c tc']; [cbn in Htc; lia |].
    destruct ta as [| a ta']; [cbn in Hta; lia |].
    cbn [WritePNG_entries fst snd].
    rewrite add64_small by lia.
    rewrite (vec_store_next dc c tc') by exact Hdc. cbn.
    rewrite (vec_store_next da a ta') by lia. cbn.
    rewrite IH; try lia.
    + rewrite seqZ_succ. cbn. rewrite <- !app_assoc. reflexivity.
    + rewrite length_app. cbn. lia.
    + rewrite !length_app. cbn. lia.
    + cbn in Htc. lia.
    + cbn in Hta. lia.
Qed.


Lemma palette_colours_length pal : length (palette_colours pal) = 16%nat.
Proof. reflexivity. Qed.

Lemma palette_alphas_length pal : length (palette_alphas pal) = 16%nat.
Proof. reflexivity. Qed.

Lemma WritePNG_tables_ok palettes :
  forall (dc tc : list (Z * Z * Z)) (da ta : list Z),
    Z.of_nat (length dc) + 16 * Z.of_nat (length palettes) < 2 ^ 64 ->
    length da = length dc ->
    (16 * length palettes <= length tc)%nat ->
    (16 * length palettes <= length ta)%nat ->
    WritePNG_tables palettes (Z.of_nat (length dc)) (dc ++ tc, da ++ ta)
    = Some (dc ++ flat_map palette_colours palettes
               ++ drop (16 * length palettes) tc,
            da ++ flat_map palette_alphas palettes
               ++ drop (16 * length palettes) ta).
Proof.
  induction palettes as [| pal rest IH]; intros dc tc da ta Hfit Hda Htc Hta.
  - cbn. rewrite !drop_0. reflexivity.
  - cbn [WritePNG_tables length] in *.
    rewrite (WritePNG_entries_ok pal (Z.of_nat (length dc)) 16 0 dc tc da ta
               ltac:(lia) ltac:(lia) ltac:(lia) ltac:(lia) Hda
               ltac:(lia) ltac:(lia)).
    cbn [mbind option_bind]. rewrite add64_small by lia.
    change (Z.of_nat 16) with 16.
    fold (palette_colours pal). fold (palette_alphas pal).
    rewrite !app_assoc.
    replace (Z.of_nat (length dc) + 16)
      with (Z.of_nat (length (dc ++ palette_colours pal)))
      by (rewrite length_app, palette_colours_length; lia).
    rewrite IH.
    + cbn [flat_map]. rewrite !drop_drop, <- !app_assoc.
      replace (16 + 16 * length rest)%nat with (16 * S (length rest))%nat by lia.
      reflexivity.
    + rewrite length_app, palette_colours_length. lia.
    + rewrite !length_app, palette_colours_length, palette_alphas_length. lia.
    + rewrite length_drop. lia.
    + rewrite length_drop. lia.
Qed.


Lemma WritePNG_rows_ok width (n : nat) :
  forall done todo,
    0 <= width ->
    length todo = (n * Z.to_nat width)%nat ->
    exists rows,
      WritePNG_rows n (Z.of_nat (length done)) width width (done ++ todo)
      = Some rows /\
      concat rows = todo /\ length rows = n /\
      Forall (fun row => length row = Z.to_nat width) rows.
Proof.
  induction n as [| n IH]; intros done todo Hw Hlen.
  - exists []. cbn in Hlen. apply nil_length_inv in Hlen. subst todo.
    repeat split. constructor.
  - cbn [WritePNG_rows].
    assert (Hroom : Z.of_nat (length done) + width
                    <= Z.of_nat (length (done ++ todo))).
    { rewrite length_app, Hlen. lia. }
    destruct (Z.leb_spec 0 (Z.of_nat (length done))); [| lia].
    destruct (Z.leb_spec (Z.of_nat (length done) + width)
                (Z.of_nat (length (done ++ todo)))); [| lia].
    cbn [andb].
    destruct (IH (done ++ take (Z.to_nat width) todo)
                 (drop (Z.to_nat width) todo) Hw)
      as (rows & Hrun & Hcat & Hn & Hall).
    { rewrite length_drop, Hlen. lia. }
    replace (Z.of_nat (length (done ++ take (Z.to_nat width) todo)))
      with (Z.of_nat (length done) + width) in Hrun
      by (rewrite length_app, length_take, Hlen; lia).
    rewrite <- app_assoc, take_drop in Hrun. rewrite Hrun.
    cbn [mbind option_bind]. eexists. split; [reflexivity |].
    rewrite Nat2Z.id, drop_app_length.
    split; [cbn; rewrite Hcat; apply take_drop |].
    split; [cbn; lia |].
    constructor; [| exact Hall]. rewrite length_take, Hlen. lia.
Qed.



Lemma WritePNG_tables_start palettes :
  (length palettes <= 16)%nat ->
  WritePNG_tables palettes 0 (replicate 256 (0, 0, 0), replicate 256 0)
  = Some (flat_map palette_colours palettes
            ++ replicate (256 - 16 * length palettes) (0, 0, 0),
          flat_map palette_alphas palettes
            ++ replicate (256 - 16 * length palettes) 0).
Proof.
  intros Hfew.
  pose proof (WritePNG_tables_ok palettes [] (replicate 256 (0, 0, 0)) []
                (replicate 256 0)) as Hok.
  cbn [length app] in Hok. change (Z.of_nat 0) with 0 in Hok.
  rewrite Hok; [| lia | reflexivity | rewrite length_replicate; lia
                | rewrite length_replicate; lia].
  rewrite !drop_replicate. reflexivity.
Qed.

(** X15. When the library accepts the header and the file cannot be
    opened, [WritePNG] with at most 16 palettes returns [false], reports
    "Unable to open PNG!", writes no file and leaves the buffer as it
    was. *)
Theorem WritePNG_cannot_open :
  forall lib filename palettes w,
    lib <> PngHeaderError ->
    (length palettes <= 16)%nat ->
    WritePNG lib false filename palettes w
    = Some (false, {| buf := buf w;
                      debug_log := debug_log w ++ ["Unable to open PNG!"%string];
                      files := files w |}).
Proof.
  intros lib name pals w Hlib Hfew.
  unfold WritePNG, bind, get_buf.
  destruct lib; [| contradiction |];
    rewrite WritePNG_tables_start by exact Hfew; reflexivity.
Qed.

Lemma WritePNG_cannot_open_witness :
  WritePNG PngNoError false "map.png" [grey_palette; grey_palette] drawn_world
  = Some (false, {| buf := buf drawn_world;
                    debug_log := debug_log drawn_world
                                 ++ ["Unable to open PNG!"%string];
                    files := files drawn_world |}).
Proof.
  apply (WritePNG_cannot_open PngNoError "map.png"
           [grey_palette; grey_palette] drawn_world).
  - discriminate.
  - cbn. lia.
Defined.

(** X16. When the library reports no error and the file can be opened,
    [WritePNG] with at most 16 palettes on a buffer whose rasters hold
    [W * H] bytes, with [W] and [H] below 2^32, returns [true], reports nothing, leaves the buffer as it
    was and writes one file: [H] rows of [W] bytes that, put end to end,
    are the pixel raster, with tables of 256 entries that start with the
    16 entries of each palette in turn and are 0 after them. *)
Theorem WritePNG_writes_the_raster :
  forall filename palettes w,
    buffer_wf (buf w) -> (length palettes <= 16)%nat ->
    m_width (buf w) < 2 ^ 32 -> m_height (buf w) < 2 ^ 32 ->
    exists f,
      WritePNG PngNoError true filename palettes w
      = Some (true, {| buf := buf w; debug_log := debug_log w;
                       files := files w ++ [(filename, f)] |}) /\
      png_width f = m_width (buf w) /\ png_height f = m_height (buf w) /\
      concat (png_rows f) = m_pixels (buf w) /\
      Z.of_nat (length (png_rows f)) = m_height (buf w) /\
      Forall (fun row => Z.of_nat (length row) = m_width (buf w)) (png_rows f) /\
      png_palette f = flat_map palette_colours palettes
                        ++ replicate (256 - 16 * length palettes) (0, 0, 0) /\
      png_alpha f = flat_map palette_alphas palettes
                      ++ replicate (256 - 16 * length palettes) 0.
Proof.
  intros name pals w (Hw & Hh & Hfit & Hlp & Hlq) Hfew Hw32 Hh32.
  unfold WritePNG, bind, get_buf.
  rewrite WritePNG_tables_start by exact Hfew.
  unfold u32, int_mod. rewrite !Z.mod_small by lia.
  destruct (WritePNG_rows_ok (m_width (buf w)) (Z.to_nat (m_height (buf w)))
              [] (m_pixels (buf w)) Hw) as (rows & Hrun & Hcat & Hn & Hall).
  { apply Nat2Z.inj. rewrite Hlp. nia. }
  cbn [length app] in Hrun. change (Z.of_nat 0) with 0 in Hrun.
  rewrite Hrun. eexists. split; [reflexivity |]. cbn.
  repeat split; try reflexivity; try assumption; [lia |].
  eapply Forall_impl; [exact Hall |]. cbn. intros row Hrow. lia.
Qed.

Lemma WritePNG_writes_the_raster_witness :
  exists f w',
    WritePNG PngNoError true "map.png"
      [grey_palette; grey_palette; grey_palette] drawn_world
    = Some (true, w') /\
    files w' = [("map.png"%string, f)] /\
    concat (png_rows f) = m_pixels (buf drawn_world).
Proof.
  destruct (WritePNG_writes_the_raster "map.png"
              [grey_palette; grey_palette; grey_palette] drawn_world)
    as (f & Hrun & _ & _ & Hcat & _).
  - unfold buffer_wf. vm_compute. repeat split; congruence.
  - cbn. lia.
  - vm_compute. reflexivity.
  - vm_compute. reflexivity.
  - exists f. eexists. split; [exact Hrun |]. split; [reflexivity | exact Hcat].
Defined.

(** ** More on the isometric transform *)

(** X17. The bitmap size that [GetBitmapWidth] and [GetBitmapHeight] give
    is enough for the map: the box of every tile of the grid lies between
    the origin ([left], [top]) and the origin moved by that size. *)
Theorem bitmap_size_holds_every_tile :
  forall TILEWIDTH TILEHEIGHT bm tx ty,
    0 < TILEWIDTH -> 0 < TILEHEIGHT -> Z.even TILEHEIGHT = true ->
    0 <= tx < bm_width bm -> 0 <= ty < bm_height bm ->
    0 <= bm_left bm -> 0 <= bm_top bm ->
    projection_fits_int TILEWIDTH TILEHEIGHT bm (mkTilePoint tx ty) ->
    (bm_width bm + bm_height bm) * TILEWIDTH < 2 ^ 64 ->
    (bm_width bm + bm_height bm + 1) * TILEHEIGHT < 2 ^ 64 ->
    let origin := ToXYPoint TILEWIDTH TILEHEIGHT bm (mkTilePoint tx ty) in
    bm_left bm <= pt_x origin /\
    pt_x origin + TILEWIDTH <= bm_left bm + GetBitmapWidth TILEWIDTH bm /\
    bm_top bm <= pt_y origin /\
    pt_y origin + TILEHEIGHT <= bm_top bm + GetBitmapHeight TILEHEIGHT bm.
Proof.
  intros TW TH bm tx ty HTW HTH Heven Htx Hty Hleft Htop Hfits HfitW HfitH origin.
  subst origin.
  rewrite ToXYPoint_value by (try assumption; lia). cbn [pt_x pt_y].
  destruct (TILEHEIGHT_half TH HTH Heven) as [Heq Hhalf].
  set (h := TH / 2) in *.
  unfold GetBitmapWidth, GetBitmapHeight.
  assert (bm_width bm + bm_height bm + 1 < 2 ^ 64) by nia.
  rewrite (add64_small (bm_width bm)) by lia.
  rewrite (add64_small (bm_width bm + bm_height bm)) by lia.
  assert (0 <= (bm_width bm + bm_height bm) * TW)
    by (apply Z.mul_nonneg_nonneg; lia).
  assert (0 <= (bm_width bm + bm_height bm + 1) * TH)
    by (apply Z.mul_nonneg_nonneg; lia).
  rewrite !mul64_small by lia.
  replace ((bm_width bm + bm_height bm + 1) * TH)
    with ((bm_width bm + bm_height bm + 1) * h * 2) by lia.
  rewrite Z.div_mul by lia.
  assert (0 <= (tx - ty + bm_height bm - 1) * TW)
    by (apply Z.mul_nonneg_nonneg; lia).
  assert (0 <= (tx + ty) * h) by (apply Z.mul_nonneg_nonneg; lia).
  assert ((tx - ty + bm_height bm) * TW <= (bm_width bm + bm_height bm) * TW)
    by (apply Z.mul_le_mono_nonneg_r; lia).
  assert ((tx + ty + 2) * h <= (bm_width bm + bm_height bm + 1) * h)
    by (apply Z.mul_le_mono_nonneg_r; lia).
  lia.
Qed.

Lemma bitmap_size_holds_every_tile_witness :
  let origin := ToXYPoint 16 16 (BlockmapIsometric_new 10 10 0 0 0)
                  (mkTilePoint 9 0) in
  pt_x origin + 16 <= 0 + GetBitmapWidth 16 (BlockmapIsometric_new 10 10 0 0 0).
Proof.
  apply (bitmap_size_holds_every_tile 16 16
           (BlockmapIsometric_new 10 10 0 0 0) 9 0).
  - lia.
  - lia.
  - reflexivity.
  - cbn. lia.
  - cbn. lia.
  - cbn. lia.
  - cbn. lia.
  - unfold projection_fits_int. vm_compute.
    repeat split; try discriminate; reflexivity.
  - vm_compute. reflexivity.
  - vm_compute. reflexivity.
Defined.

(** A point right of and below the origin that [XYToTilePoint] sends to a
    tile of the grid lies in the box of that tile. *)
Lemma XYToTilePoint_tile_box TILEWIDTH TILEHEIGHT bm tx ty p :
  0 < TILEWIDTH -> 0 < TILEHEIGHT -> Z.even TILEHEIGHT = true ->
  0 <= tx -> 0 <= ty < bm_height bm ->
  0 <= bm_left bm -> 0 <= bm_top bm ->
  projection_fits_int TILEWIDTH TILEHEIGHT bm (mkTilePoint tx ty) ->
  bm_left bm <= pt_x p < 2 ^ 30 -> bm_top bm <= pt_y p < 2 ^ 30 ->
  XYToTilePoint TILEWIDTH TILEHEIGHT bm p = mkTilePoint tx ty ->
  in_footprint TILEWIDTH TILEHEIGHT
    (ToXYPoint TILEWIDTH TILEHEIGHT bm (mkTilePoint tx ty)) p.
Proof.
  intros HTW HTH Heven Htx Hty Hleft Htop Hfits Hpx Hpy Hmap.
  rewrite ToXYPoint_value by assumption. unfold in_footprint. cbn [pt_x pt_y].
  destruct (fits_bounds TILEWIDTH TILEHEIGHT bm tx ty HTH Heven Hfits)
    as (H1 & H2 & H3 & H4).
  destruct (TILEHEIGHT_half TILEHEIGHT HTH Heven) as [Heq Hhalf].
  destruct p as [px py]. cbn [pt_x pt_y] in *.
  set (H := bm_height bm) in *. set (L := bm_left bm) in *.
  set (T := bm_top bm) in *. set (h := TILEHEIGHT / 2) in *.
  set (gx := (px - L) / TILEWIDTH).
  set (gy := (2 * (py - T)) / TILEHEIGHT).
  assert (Hgx : gx * TILEWIDTH <= px - L < (gx + 1) * TILEWIDTH).
  { subst gx. pose proof (Z.mul_div_le (px - L) TILEWIDTH HTW).
    pose proof (Z.mul_succ_div_gt (px - L) TILEWIDTH HTW). lia. }
  assert (Hgy : gy * TILEHEIGHT <= 2 * (py - T) < (gy + 1) * TILEHEIGHT).
  { subst gy. pose proof (Z.mul_div_le (2 * (py - T)) TILEHEIGHT HTH).
    pose proof (Z.mul_succ_div_gt (2 * (py - T)) TILEHEIGHT HTH). lia. }
  assert (Hgx0 : 0 <= gx < 2 ^ 30).
  { split; [apply Z.div_pos; lia |].
    apply Z.div_lt_upper_bound; [lia |]. nia. }
  assert (Hgy0 : 0 <= gy < 2 ^ 30).
  { split; [apply Z.div_pos; lia |].
    apply Z.div_lt_upper_bound; [lia |]. nia. }
  assert (Hxgrid : to_int (sub64 px L / TILEWIDTH) = gx).
  { unfold sub64. rewrite size_t_small by lia. apply to_int_small. lia. }
  assert (Hygrid : to_int (mul64 2 (sub64 py T) / TILEHEIGHT) = gy).
  { unfold mul64, sub64. rewrite (size_t_small (py - T)) by lia.
    rewrite size_t_small by lia. apply to_int_small. lia. }
  unfold XYToTilePoint in Hmap. cbn [pt_x pt_y] in Hmap. fold H L T in Hmap.
  rewrite Hxgrid, Hygrid in Hmap.
  unfold int_add, int_sub in Hmap.
  rewrite !to_int_small in Hmap by lia.
  unfold add64, sub64 in Hmap.
  rewrite size_t_add_l, size_t_sub_l in Hmap.
  injection Hmap as Hmx Hmy.
  set (A := gy + gx - H + 1) in *. set (B := gy - gx + H - 1) in *.
  (* neither sum is negative: its half would be far above the grid *)
  assert (HA : 0 <= A).
  { destruct (Z.lt_ge_cases A 0) as [Hneg | ?]; [| assumption]. exfalso.
    unfold size_t, size_mod in Hmx.
    replace (A mod 2 ^ 64) with (A + 2 ^ 64) in Hmx
      by (apply Z.mod_unique with (q := -1); lia).
    assert (2 ^ 62 <= (A + 2 ^ 64) / 2)
      by (apply Z.div_le_lower_bound; lia).
    assert ((A + 2 ^ 64) / 2 < 2 ^ 64)
      by (apply Z.div_lt_upper_bound; lia).
    rewrite Z.mod_small in Hmx by lia. lia. }
  assert (HB : 0 <= B).
  { destruct (Z.lt_ge_cases B 0) as [Hneg | ?]; [| assumption]. exfalso.
    unfold size_t, size_mod in Hmy.
    replace (B mod 2 ^ 64) with (B + 2 ^ 64) in Hmy
      by (apply Z.mod_unique with (q := -1); lia).
    assert (2 ^ 62 <= (B + 2 ^ 64) / 2)
      by (apply Z.div_le_lower_bound; lia).
    assert ((B + 2 ^ 64) / 2 < 2 ^ 64)
      by (apply Z.div_lt_upper_bound; lia).
    rewrite Z.mod_small in Hmy by lia. lia. }
  rewrite (size_t_small A) in Hmx by lia.
  rewrite (size_t_small B) in Hmy by lia.
  assert (0 <= A / 2 < 2 ^ 64)
    by (split; [apply Z.div_pos; lia | apply Z.div_lt_upper_bound; lia]).
  assert (0 <= B / 2 < 2 ^ 64)
    by (split; [apply Z.div_pos; lia | apply Z.div_lt_upper_bound; lia]).
  rewrite size_t_small in Hmx, Hmy by lia.
  assert (HAe : 2 * tx <= A <= 2 * tx + 1)
    by (subst tx; Z.to_euclidean_division_equations; lia).
  assert (HBe : 2 * ty <= B <= 2 * ty + 1)
    by (subst ty; Z.to_euclidean_division_equations; lia).
  assert (Hsum : A + B = 2 * gy) by (subst A B; lia).
  assert (Hgxv : gx = tx - ty + H - 1) by (subst A B; lia).
  assert (Hgyv : tx + ty <= gy <= tx + ty + 1) by lia.
  rewrite Hgxv in Hgx.
  assert (Hlow : (tx + ty) * TILEHEIGHT <= gy * TILEHEIGHT)
    by (apply Z.mul_le_mono_nonneg_r; lia).
  assert (Hhigh : (gy + 1) * TILEHEIGHT <= (tx + ty + 2) * TILEHEIGHT)
    by (apply Z.mul_le_mono_nonneg_r; lia).
  replace ((tx + ty) * TILEHEIGHT) with (2 * ((tx + ty) * h)) in Hlow by lia.
  replace ((tx + ty + 2) * TILEHEIGHT)
    with (2 * ((tx + ty) * h + TILEHEIGHT)) in Hhigh by lia.
  lia.
Qed.

(** X18. For a tile of the grid and a point right of and below the origin,
    [XYToTilePoint] gives the tile exactly when the point lies in the box
    of the tile. *)
Theorem XYToTilePoint_iff_in_tile_box :
  forall TILEWIDTH TILEHEIGHT bm tx ty p,
    0 < TILEWIDTH -> 0 < TILEHEIGHT -> Z.even TILEHEIGHT = true ->
    0 <= tx -> 0 <= ty < bm_height bm ->
    0 <= bm_left bm -> 0 <= bm_top bm ->
    projection_fits_int TILEWIDTH TILEHEIGHT bm (mkTilePoint tx ty) ->
    bm_left bm <= pt_x p < 2 ^ 30 -> bm_top bm <= pt_y p < 2 ^ 30 ->
    (XYToTilePoint TILEWIDTH TILEHEIGHT bm p = mkTilePoint tx ty
     <-> in_footprint TILEWIDTH TILEHEIGHT
           (ToXYPoint TILEWIDTH TILEHEIGHT bm (mkTilePoint tx ty)) p).
Proof.
  intros TW TH bm tx ty p HTW HTH Heven Htx Hty Hleft Htop Hfits Hpx Hpy.
  split.
  - apply XYToTilePoint_tile_box; assumption.
  - apply XYToTilePoint_in_footprint; assumption.
Qed.

Lemma XYToTilePoint_iff_in_tile_box_witness :
  XYToTilePoint 16 16 (BlockmapIsometric_new 10 10 0 0 0) (mkPoint 130 70)
  = mkTilePoint 3 4
  <-> in_footprint 16 16
        (ToXYPoint 16 16 (BlockmapIsometric_new 10 10 0 0 0) (mkTilePoint 3 4))
        (mkPoint 130 70).
Proof.
  apply (XYToTilePoint_iff_in_tile_box 16 16
           (BlockmapIsometric_new 10 10 0 0 0) 3 4 (mkPoint 130 70)).
  - lia.
  - lia.
  - reflexivity.
  - lia.
  - cbn. lia.
  - cbn. lia.
  - cbn. lia.
  - unfold projection_fits_int. vm_compute.
    repeat split; try discriminate; reflexivity.
  - cbn. lia.
  - cbn. lia.
Defined.

(** X19. The boxes of two different tiles of the grid do not meet: a point
    that lies in the boxes of two tiles lies in the box of one tile
    twice. *)
Theorem tile_boxes_do_not_overlap :
  forall TILEWIDTH TILEHEIGHT bm tx1 ty1 tx2 ty2 p,
    0 < TILEWIDTH -> 0 < TILEHEIGHT -> Z.even TILEHEIGHT = true ->
    0 <= bm_left bm -> 0 <= bm_top bm ->
    0 <= tx1 -> 0 <= ty1 < bm_height bm ->
    0 <= tx2 -> 0 <= ty2 < bm_height bm ->
    projection_fits_int TILEWIDTH TILEHEIGHT bm (mkTilePoint tx1 ty1) ->
    projection_fits_int TILEWIDTH TILEHEIGHT bm (mkTilePoint tx2 ty2) ->
    in_footprint TILEWIDTH TILEHEIGHT
      (ToXYPoint TILEWIDTH TILEHEIGHT bm (mkTilePoint tx1 ty1)) p ->
    in_footprint TILEWIDTH TILEHEIGHT
      (ToXYPoint TILEWIDTH TILEHEIGHT bm (mkTilePoint tx2 ty2)) p ->
    tx1 = tx2 /\ ty1 = ty2.
Proof.
  intros TW TH bm tx1 ty1 tx2 ty2 p HTW HTH Heven Hleft Htop
    Htx1 Hty1 Htx2 Hty2 Hfits1 Hfits2 Hin1 Hin2.
  apply XYToTilePoint_in_footprint in Hin1; try assumption.
  apply XYToTilePoint_in_footprint in Hin2; try assumption.
  rewrite Hin1 in Hin2. injection Hin2 as -> ->. split; reflexivity.
Qed.

Lemma tile_boxes_do_not_overlap_witness :
  in_footprint 16 16
    (ToXYPoint 16 16 (BlockmapIsometric_new 10 10 0 0 0) (mkTilePoint 3 4))
    (mkPoint 130 70) /\
  (3 = 3 /\ 4 = 4).
Proof.
  assert (Hin : in_footprint 16 16
            (ToXYPoint 16 16 (BlockmapIsometric_new 10 10 0 0 0)
               (mkTilePoint 3 4)) (mkPoint 130 70)).
  { unfold in_footprint. vm_compute.
    repeat split; try discriminate; reflexivity. }
  split; [exact Hin |].
  apply (tile_boxes_do_not_overlap 16 16 (BlockmapIsometric_new 10 10 0 0 0)
           3 4 3 4 (mkPoint 130 70)); try lia; try reflexivity;
    try (cbn; lia); try exact Hin;
    unfold projection_fits_int; vm_compute;
    repeat split; try discriminate; reflexivity.
Defined.

(** X20. At elevation 0 the projection with elevation is the flat one,
    for every tile and every map. *)
Theorem ToXYPoint3D_at_level_0 :
  forall TILEWIDTH TILEHEIGHT bm x y,
    ToXYPoint3D TILEWIDTH TILEHEIGHT bm (mkTilePoint3D x y 0)
    = ToXYPoint TILEWIDTH TILEHEIGHT bm (mkTilePoint x y).
Proof.
  intros TW TH bm x y. unfold ToXYPoint3D, ToXYPoint.
  cbn [tp3_x tp3_y tp3_z tp_x tp_y].
  replace (sub64 (add64 x y) (mul64 0 2)) with (add64 x y); [reflexivity |].
  unfold sub64, add64, mul64. change (size_t (0 * 2)) with 0.
  rewrite Z.sub_0_r, size_t_idem. reflexivity.
Qed.

(** X21. A tile one level higher and one step further in both directions
    of the grid is drawn at the same point of the screen. *)
Theorem ToXYPoint3D_same_point_one_level_up :
  forall TILEWIDTH TILEHEIGHT bm x y z,
    ToXYPoint3D TILEWIDTH TILEHEIGHT bm (mkTilePoint3D (x + 1) (y + 1) (z + 1))
    = ToXYPoint3D TILEWIDTH TILEHEIGHT bm (mkTilePoint3D x y z).
Proof.
  intros TW TH bm x y z. unfold ToXYPoint3D.
  cbn [tp3_x tp3_y tp3_z].
  replace (sub64 (x + 1) (y + 1)) with (sub64 x y)
    by (unfold sub64; f_equal; lia).
  replace (sub64 (add64 (x + 1) (y + 1)) (mul64 (z + 1) 2))
    with (sub64 (add64 x y) (mul64 z 2)); [reflexivity |].
  unfold sub64, add64, mul64.
  rewrite !size_t_sub_l, !size_t_sub_r. f_equal. lia.
Qed.

(** X22. One level of elevation moves a tile up the screen by a whole
    tile height, as long as both points are in the range of [int]. *)
Theorem ToXYPoint3D_level_raises_by_tile_height :
  forall TILEWIDTH TILEHEIGHT bm x y z,
    - 2 ^ 31 <= (x + y - 2 * z) * TILEHEIGHT / 2 + bm_top bm - TILEHEIGHT ->
    (x + y - 2 * z) * TILEHEIGHT / 2 + bm_top bm < 2 ^ 31 ->
    0 <= TILEHEIGHT ->
    pt_y (ToXYPoint3D TILEWIDTH TILEHEIGHT bm (mkTilePoint3D x y (z + 1)))
    = pt_y (ToXYPoint3D TILEWIDTH TILEHEIGHT bm (mkTilePoint3D x y z))
      - TILEHEIGHT /\
    pt_x (ToXYPoint3D TILEWIDTH TILEHEIGHT bm (mkTilePoint3D x y (z + 1)))
    = pt_x (ToXYPoint3D TILEWIDTH TILEHEIGHT bm (mkTilePoint3D x y z)).
Proof.
  intros TW TH bm x y z Hlow Hhigh HTH. split; [| reflexivity].
  rewrite !ToXYPoint3D_y.
  replace ((x + y - 2 * (z + 1)) * TH)
    with ((x + y - 2 * z) * TH + (- TH) * 2) by lia.
  rewrite Z.div_add by lia.
  rewrite !to_int_small by lia. lia.
Qed.

Lemma ToXYPoint3D_level_raises_by_tile_height_witness :
  pt_y (ToXYPoint3D 16 16 (BlockmapIsometric_new 10 10 0 0 0)
          (mkTilePoint3D 3 4 1))
  = pt_y (ToXYPoint3D 16 16 (BlockmapIsometric_new 10 10 0 0 0)
            (mkTilePoint3D 3 4 0)) - 16.
Proof.
  apply (ToXYPoint3D_level_raises_by_tile_height 16 16
           (BlockmapIsometric_new 10 10 0 0 0) 3 4 0).
  - vm_compute. discriminate.
  - vm_compute. reflexivity.
  - lia.
Defined.

(** X23. The projection is linear on the grid: between two tiles the
    screen moves by [TILEWIDTH] for every step of [x - y] and by half a
    [TILEHEIGHT] for every step of [x + y]. *)
Theorem ToXYPoint_steps :
  forall TILEWIDTH TILEHEIGHT bm tx1 ty1 tx2 ty2,
    0 < TILEWIDTH -> 0 < TILEHEIGHT -> Z.even TILEHEIGHT = true ->
    0 <= bm_left bm -> 0 <= bm_top bm ->
    0 <= tx1 -> 0 <= ty1 < bm_height bm ->
    0 <= tx2 -> 0 <= ty2 < bm_height bm ->
    projection_fits_int TILEWIDTH TILEHEIGHT bm (mkTilePoint tx1 ty1) ->
    projection_fits_int TILEWIDTH TILEHEIGHT bm (mkTilePoint tx2 ty2) ->
    pt_x (ToXYPoint TILEWIDTH TILEHEIGHT bm (mkTilePoint tx2 ty2))
    - pt_x (ToXYPoint TILEWIDTH TILEHEIGHT bm (mkTilePoint tx1 ty1))
    = ((tx2 - ty2) - (tx1 - ty1)) * TILEWIDTH /\
    pt_y (ToXYPoint TILEWIDTH TILEHEIGHT bm (mkTilePoint tx2 ty2))
    - pt_y (ToXYPoint TILEWIDTH TILEHEIGHT bm (mkTilePoint tx1 ty1))
    = ((tx2 + ty2) - (tx1 + ty1)) * (TILEHEIGHT / 2).
Proof.
  intros TW TH bm tx1 ty1 tx2 ty2 HTW HTH Heven Hleft Htop
    Htx1 Hty1 Htx2 Hty2 Hfits1 Hfits2.
  rewrite !ToXYPoint_value by assumption. cbn [pt_x pt_y]. split; lia.
Qed.

Lemma ToXYPoint_steps_witness :
  pt_x (ToXYPoint 16 16 (BlockmapIsometric_new 10 10 0 0 0) (mkTilePoint 4 4))
  - pt_x (ToXYPoint 16 16 (BlockmapIsometric_new 10 10 0 0 0) (mkTilePoint 3 4))
  = ((4 - 4) - (3 - 4)) * 16.
Proof.
  apply (ToXYPoint_steps 16 16 (BlockmapIsometric_new 10 10 0 0 0) 3 4 4 4);
    try lia; try reflexivity; try (cbn; lia);
    unfold projection_fits_int; vm_compute;
    repeat split; try discriminate; reflexivity.
Defined.

(** ** Drawing and export together *)

Lemma stored_pixel_palette p raw :
  0 <= raw <= 15 -> Z.shiftr (stored_pixel p raw) 4 = p mod 16.
Proof.
  intros Hraw. unfold stored_pixel, u8.
  change 256 with (2 ^ 8). change 16 with (2 ^ 4).
  rewrite <- !Z.land_ones by lia.
  assert (Hlow : raw = Z.land raw (Z.ones 4)).
  { rewrite Z.land_ones by lia. symmetry. apply Z.mod_small.
    change (2 ^ 4) with 16. lia. }
  apply Z.bits_inj'. intros n Hn.
  rewrite Z.shiftr_spec by lia.
  rewrite !Z.land_spec, Z.lor_spec, Z.land_spec.
  rewrite Z.shiftl_spec by lia.
  rewrite Hlow, Z.land_spec.
  rewrite !Z.testbit_ones_nonneg by lia.
  replace (n + 4 - 4) with n by lia.
  destruct (Z.ltb_spec (n + 4) 4); [lia |].
  rewrite andb_false_r. cbn [orb].
  destruct (Z.ltb_spec (n + 4) 8), (Z.ltb_spec n 4); try lia;
    rewrite ?andb_true_r, ?andb_false_r; reflexivity.
Qed.

Lemma source_raw_four_bit tile_bits x y c r :
  four_bit tile_bits -> 0 <= source_raw tile_bits x y c r <= 15.
Proof.
  intros Hbits. unfold source_raw.
  destruct (_ && _); [| lia].
  destruct (nth_in_or_default (Z.to_nat ((r - y) * 8 + (c - x))) tile_bits 0)
    as [Hin | ->]; [| lia].
  unfold four_bit in Hbits. rewrite Forall_forall in Hbits.
  apply Hbits. apply list_elem_of_In. exact Hin.
Qed.

(** The top layer of a series comes from one of its tiles. *)
Lemma top_layer_source ops c r : forall under pixel pri,
  top_layer ops c r under = Some (pixel, pri) ->
  under = Some (pixel, pri) \/
  exists x y p tile tileset,
    In (OpInsertTile x y p tile tileset) ops /\
    pixel = stored_pixel p (source_raw (getTile tileset tile) x y c r).
Proof.
  induction ops as [| o rest IH]; intros under pixel pri H.
  - left. exact H.
  - assert (Hrest : forall u,
              top_layer rest c r u = Some (pixel, pri) ->
              u = Some (pixel, pri) \/
              exists x y p tile tileset,
                In (OpInsertTile x y p tile tileset) (o :: rest) /\
                pixel = stored_pixel p
                          (source_raw (getTile tileset tile) x y c r)).
    { intros u Hu. destruct (IH u pixel pri Hu)
        as [-> | (x & y & p & tile & tileset & Hin & Hpx)];
        [left; reflexivity |].
      right. exists x, y, p, tile, tileset. split; [right; exact Hin | exact Hpx]. }
    destruct o; cbn [top_layer] in H; try (apply Hrest; exact H).
    apply Hrest in H. destruct H as [H | H]; [| right; exact H].
    destruct (_ =? 0) in H; [left; exact H |].
    injection H as <- _. right.
    exists x, y, palette_index, tile, tileset.
    split; [left; reflexivity | reflexivity].
Qed.

Lemma run_tiles_covered ops pals w :
  buffer_wf (buf w) ->
  palette_rows_covered pals (m_pixels (buf w)) ->
  Forall (tile_inside (buf w)) ops ->
  Forall (tile_palette_below (length pals)) ops ->
  exists w',
    run_ops ops w = Some (tt, w') /\
    buffer_wf (buf w') /\
    m_width (buf w') = m_width (buf w) /\
    m_height (buf w') = m_height (buf w) /\
    palette_rows_covered pals (m_pixels (buf w')).
Proof.
  intros Hwf Hcov Hin Hpal.
  destruct (run_tiles_inside ops w Hwf Hin) as (px & pr & Hrun & Hlpx & Hlpr & Hshow).
  eexists. split; [exact Hrun |]. cbn [buf set_rasters m_width m_height
    m_pixels fst].
  split; [| split; [reflexivity | split; [reflexivity |]]].
  - destruct Hwf as (Hw & Hh & Hfit & Hlp & Hlq).
    unfold buffer_wf. cbn [set_rasters m_width m_height m_pixels m_priority
      fst snd]. rewrite Hlpx, Hlpr. repeat split; assumption.
  - unfold palette_rows_covered in *. apply Forall_lookup. intros i v Hv.
    assert (Hi : (i < length (m_pixels (buf w)))%nat).
    { rewrite <- Hlpx. eapply lookup_lt_Some. exact Hv. }
    destruct (pixel_index_cover (buf w) i Hwf Hi) as (c & r & Hc & Hr & ->).
    specialize (Hshow c r Hc Hr).
    destruct (top_layer ops c r None) as [[pixel pri] |] eqn:Htop;
      cbn [shows_layer] in Hshow.
    + destruct Hshow as [Hpx _]. rewrite Hpx in Hv. injection Hv as <-.
      apply top_layer_source in Htop.
      destruct Htop as [Habs | (x & y & p & tile & tileset & Hop & ->)];
        [discriminate |].
      rewrite Forall_forall in Hpal.
      apply list_elem_of_In in Hop. apply Hpal in Hop.
      destruct Hop as [Hp Hbits].
      rewrite stored_pixel_palette by (apply source_raw_four_bit; exact Hbits).
      split; [apply Z.mod_pos_bound; lia | exact Hp].
    + destruct Hshow as [Hpx _]. rewrite Hpx in Hv.
      rewrite Forall_lookup in Hcov. eapply Hcov. exact Hv.
Qed.

(** X24. Drawing keeps a buffer exportable. When every pixel of a buffer
    names one of the palettes of a list, and tiles are drawn inside it from
    4-bit bitmaps with palette rows that the list holds, every pixel still
    names one of the palettes: [GetRGB] and [GetAlpha] with that list have
    a defined result after the series. *)
Theorem drawn_buffer_can_be_exported :
  forall ops pals lo hi w,
    buffer_wf (buf w) -> m_width (buf w) * m_height (buf w) * 3 < 2 ^ 64 ->
    palette_rows_covered pals (m_pixels (buf w)) ->
    Forall (tile_inside (buf w)) ops ->
    Forall (tile_palette_below (length pals)) ops ->
    exists w',
      run_ops ops w = Some (tt, w') /\
      palette_rows_covered pals (m_pixels (buf w')) /\
      is_Some (GetRGB pals w') /\
      is_Some (GetAlpha pals lo hi w').
Proof.
  intros ops pals lo hi w Hwf Hfit3 Hcov Hin Hpal.
  destruct (run_tiles_covered ops pals w Hwf Hcov Hin Hpal)
    as (w' & Hrun & Hwf' & Hw' & Hh' & Hcov').
  exists w'. split; [exact Hrun |]. split; [exact Hcov' |]. split.
  - rewrite GetRGB_bytes; [eexists; reflexivity | exact Hwf' | | exact Hcov'].
    rewrite Hw', Hh'. exact Hfit3.
  - destruct (GetAlpha_bytes pals lo hi w' Hwf' Hcov') as (alpha & Hrun' & _).
    rewrite Hrun'. eexists. reflexivity.
Qed.

Lemma drawn_buffer_can_be_exported_witness :
  exists w',
    run_ops [OpInsertTile 0 0 2 high_tile solid_tileset;
             OpInsertTile 0 0 1 high_tile window_tileset] (new_world 8 8)
    = Some (tt, w') /\
    is_Some (GetRGB [grey_palette; grey_palette; grey_palette] w').
Proof.
  destruct (drawn_buffer_can_be_exported
              [OpInsertTile 0 0 2 high_tile solid_tileset;
               OpInsertTile 0 0 1 high_tile window_tileset]
              [grey_palette; grey_palette; grey_palette] 255 255
              (new_world 8 8))
    as (w' & Hrun & _ & Hrgb & _).
  - unfold buffer_wf. cbn. repeat split; lia.
  - cbn. lia.
  - unfold palette_rows_covered. apply (bool_decide_unpack _). vm_compute.
    exact I.
  - constructor; [| constructor; [| constructor]];
      cbn; repeat split; try lia; reflexivity.
  - constructor; [| constructor; [| constructor]];
      (split; [vm_compute; reflexivity |]);
      unfold four_bit; apply (bool_decide_unpack _); vm_compute; exact I.
  - exists w'. split; [exact Hrun | exact Hrgb].
Defined.

(** ** Rejected calls *)

(** X25. Without wrap-around in the sums of the check, a call of
    [InsertTile] whose tile does not lie inside the buffer ([x + 7 >= W]
    or [y + 7 >= H]) returns, leaves the whole buffer and the files as they
    were, and reports the position and the dimensions in one message. *)
Theorem InsertTile_rejects_outside_buffer :
  forall x y palette_index tile tileset w,
    0 <= x -> 0 <= y -> x + 7 < 2 ^ 64 -> y + 7 < 2 ^ 64 ->
    m_width (buf w) <= x + 7 \/ m_height (buf w) <= y + 7 ->
    InsertTile x y palette_index tile tileset w
    = Some (tt, {| buf := buf w;
                   debug_log := debug_log w ++
                     [tile_out_of_range_msg x y (m_width (buf w))
                        (m_height (buf w))];
                   files := files w |}).
Proof.
  intros x y p tile tileset w Hx Hy Hxs Hys Hout.
  apply InsertTile_out_of_range.
  rewrite !add64_small by lia. exact Hout.
Qed.

Lemma InsertTile_rejects_outside_buffer_witness :
  exists w',
    InsertTile 1 0 2 high_tile solid_tileset (new_world 8 8) = Some (tt, w') /\
    buf w' = buf (new_world 8 8) /\
    debug_log w'
    = ["Attempt to draw tile in out-of-range position 1, 0 : The image buffer is only 8 x 8 pixels." ++ endl]%string.
Proof.
  eexists. split.
  - apply (InsertTile_rejects_outside_buffer 1 0 2 high_tile solid_tileset
             (new_world 8 8)); try lia.
    left. cbn. lia.
  - split; reflexivity.
Defined.

(** X26. Without wrap-around, a call of [InsertBlock] whose first tile does
    not lie inside the buffer ([x + 7 >= W] or [y + 7 >= H]) returns and
    leaves the whole buffer and the files as they were, whether the guard
    passes or not: when it fails the call reports "Coordinates out of
    range", when it passes all four tiles are rejected by [InsertTile],
    each with its own report. *)
Theorem InsertBlock_rejects_when_first_tile_outside :
  forall x y palette_index block tileset w,
    0 <= x -> 0 <= y -> x + 15 < 2 ^ 64 -> y + 15 < 2 ^ 64 ->
    m_width (buf w) <= x + 7 \/ m_height (buf w) <= y + 7 ->
    exists msgs,
      InsertBlock x y palette_index block tileset w
      = Some (tt, {| buf := buf w; debug_log := debug_log w ++ msgs;
                     files := files w |}) /\
      (msgs = ["Coordinates out of range"%string] \/
       msgs = [tile_out_of_range_msg x y (m_width (buf w)) (m_height (buf w));
               tile_out_of_range_msg (x + 8) y (m_width (buf w))
                 (m_height (buf w));
               tile_out_of_range_msg x (y + 8) (m_width (buf w))
                 (m_height (buf w));
               tile_out_of_range_msg (x + 8) (y + 8) (m_width (buf w))
                 (m_height (buf w))]).
Proof.
  intros x y p block tileset w Hx Hy Hxs Hys Hout.
  rewrite InsertBlock_unfold.
  destruct (_ <? _).
  - assert (Hx8 : add64 x 8 = x + 8) by (apply add64_small; lia).
    assert (Hy8 : add64 y 8 = y + 8) by (apply add64_small; lia).
    eexists. split; [| right; reflexivity].
    unfold four_InsertTile, bind. rewrite Hx8, Hy8.
    rewrite InsertTile_out_of_range
      by (rewrite !add64_small by lia; lia).
    rewrite InsertTile_out_of_range
      by (cbn [buf]; rewrite !add64_small by lia; lia).
    rewrite InsertTile_out_of_range
      by (cbn [buf]; rewrite !add64_small by lia; lia).
    rewrite InsertTile_out_of_range
      by (cbn [buf]; rewrite !add64_small by lia; lia).
    cbn [buf debug_log files]. rewrite <- !app_assoc. reflexivity.
  - eexists. split; [reflexivity | left; reflexivity].
Qed.

Lemma InsertBlock_rejects_when_first_tile_outside_witness :
  exists msgs,
    InsertBlock 20 0 1 solid_block solid_tileset (new_world 24 24)
    = Some (tt, {| buf := buf (new_world 24 24);
                   debug_log := debug_log (new_world 24 24) ++ msgs;
                   files := files (new_world 24 24) |}) /\
    length msgs = 4%nat.
Proof.
  destruct (InsertBlock_rejects_when_first_tile_outside 20 0 1 solid_block
              solid_tileset (new_world 24 24))
    as (msgs & Hrun & [Hmsgs | Hmsgs]); try lia.
  - left. cbn. lia.
  - exfalso. rewrite Hmsgs in Hrun. vm_compute in Hrun. discriminate.
  - exists msgs. split; [exact Hrun |]. rewrite Hmsgs. reflexivity.
Defined.
